(** * GDALWarpOperation: warp orchestration and chunking

    A shallow embedding of [alg/gdalwarpoperation.cpp] (revision 1.5) and the
    properties of its chunker, source-window estimator, option validation and
    mask creation.

    Conventions of the embedding.
    - C [double] is IEEE binary64, embedded as Rocq's primitive [float]; every
      arithmetic operation and comparison of the source is the corresponding
      primitive operation, so rounding is the machine's.
    - C [int] is embedded as [Z].  Where the source converts a [double] to
      [int], and in the [int] arithmetic on the results of those conversions
      (the source window of [ComputeSourceWindow]) and on the byte count of a
      mask plane ([CreateKernelMask]), a value outside the range of a 32-bit
      [int] is undefined behaviour in C and the method answers [None]; the
      remaining [int] arithmetic (loop counters, band counts, the chunk and
      buffer sizes and the bits per pixel of the chunker and of the region
      executor) is written in [Z] without a bound.
    - A method of the class is a function in the monad [M]: it threads the
      fields of the operation object together with the history of calls made
      to collaborators, and answers [None] where C leaves the behaviour
      undefined (dereferencing a null pointer, indexing past an array,
      casting to [int] a double that is not finite or whose value no [int]
      holds, signed overflow where it is modelled).
    - Collaborators that are not part of this file (raster I/O, allocator,
      warp kernel, transformer) are deterministic functions of the history of
      earlier calls and of their arguments. *)

From Stdlib Require Import ZArith List Bool String Ascii Lia Floats QArith Qabs Qround.
Import ListNotations.

Set Warnings "-inexact-float".
Local Open Scope Z_scope.

(** ** Numbers *)

Definition double := float.
Bind Scope float_scope with double.

(** [(double) n] for an [int]: round to nearest, ties to even. *)
Definition double_of_int (z : Z) : double :=
  SF2Prim (binary_normalize prec emax z 0 false).

(** The finite doubles, as signed mantissa and binary exponent. *)
Definition double_parts (x : double) : option (Z * Z) :=
  match Prim2SF x with
  | S754_zero _ => Some (0, 0)
  | S754_finite s m e => Some (if s then Z.neg m else Z.pos m, e)
  | S754_infinity _ | S754_nan => None
  end.

(** The range of a C [int], 32 bits wide. *)
Definition INT_MIN : Z := -2147483648.
Definition INT_MAX : Z := 2147483647.

(** The value of an [int] expression whose mathematical value is [z]:
    undefined on signed overflow, and for a conversion from [double] whose
    value no [int] holds. *)
Definition int_of (z : Z) : option Z :=
  if (INT_MIN <=? z) && (z <=? INT_MAX) then Some z else None.

Definition obind {A B} (x : option A) (k : A -> option B) : option B :=
  match x with
  | Some a => k a
  | None => None
  end.

(** [(int) floor(x)]: undefined for infinities and NaN, and where the floor
    is outside the range of [int]. *)
Definition int_floor (x : double) : option Z :=
  match double_parts x with
  | Some (m, e) => int_of (if 0 <=? e then m * 2 ^ e else m / 2 ^ (- e))
  | None => None
  end.

(** [(int) ceil(x)]. *)
Definition int_ceil (x : double) : option Z :=
  match double_parts x with
  | Some (m, e) =>
      int_of (if 0 <=? e then m * 2 ^ e else - ((- m) / 2 ^ (- e)))
  | None => None
  end.

(** [(int) x]: truncation towards zero. *)
Definition int_trunc (x : double) : option Z :=
  match double_parts x with
  | Some (m, e) =>
      int_of (if 0 <=? e then m * 2 ^ e else Z.quot m (2 ^ (- e)))
  | None => None
  end.

(** The line feed of a C string literal. *)
Definition LF : string := String (ascii_of_nat 10) EmptyString.

(** The exact rational value of a finite double. *)
Definition double_exact (x : double) : option Q :=
  match double_parts x with
  | Some (m, e) =>
      Some (if 0 <=? e then inject_Z (m * 2 ^ e)
            else Qmake m (Z.to_pos (2 ^ (- e))))
  | None => None
  end.

(** [MIN] and [MAX] of cpl_port.h on doubles:
    [((a<b) ? a : b)] and [((a>b) ? a : b)]. *)
Definition dMIN (a b : double) : double := if PrimFloat.ltb a b then a else b.
Definition dMAX (a b : double) : double := if PrimFloat.ltb b a then a else b.

(** ** Enumerations of cpl_error.h and gdal.h *)

Inductive CPLErr := CE_None | CE_Debug | CE_Warning | CE_Failure | CE_Fatal.

Definition CPLErr_eqb (a b : CPLErr) : bool :=
  match a, b with
  | CE_None, CE_None | CE_Debug, CE_Debug | CE_Warning, CE_Warning
  | CE_Failure, CE_Failure | CE_Fatal, CE_Fatal => true
  | _, _ => false
  end.

Inductive CPLErrorNum := CPLE_AppDefined | CPLE_OutOfMemory | CPLE_IllegalArg.

Inductive GDALAccess := GA_ReadOnly | GA_Update.
Inductive GDALRWFlag := GF_Read | GF_Write.

(** A [GDALDataType] is kept as its integer code, because validation has to
    look at codes outside the enumeration. *)
Definition GDALDataType := Z.
Definition GDT_Unknown : GDALDataType := 0.
Definition GDT_Byte : GDALDataType := 1.
Definition GDT_Float32 : GDALDataType := 6.
Definition GDT_Float64 : GDALDataType := 7.
Definition GDT_CFloat64 : GDALDataType := 11.

(** Modelled from the spec: the raster type enumeration of gdal.h is not part
    of this file; its known types are the codes 1 .. 11 and [GDT_TypeCount]
    is one past the last of them. *)
Definition GDT_TypeCount : Z := 12.

Definition GDALResampleAlg := Z.
Definition GRA_NearestNeighbour : GDALResampleAlg := 0.
Definition GRA_Bilinear : GDALResampleAlg := 1.
Definition GRA_Cubic : GDALResampleAlg := 2.

(** ** Datasets (metadata only; pixels live behind the raster I/O) *)

Record GDALRasterBand := {
  eAccess : GDALAccess;
  eDataType : GDALDataType
}.

Record GDALDataset := {
  nRasterXSize : Z;
  nRasterYSize : Z;
  papoBands : list GDALRasterBand
}.

Definition GDALGetRasterCount (ds : GDALDataset) : Z :=
  Z.of_nat (List.length (papoBands ds)).
Definition GDALGetRasterXSize (ds : GDALDataset) : Z := nRasterXSize ds.
Definition GDALGetRasterYSize (ds : GDALDataset) : Z := nRasterYSize ds.

(** Bands are numbered from 1; a number out of range gives the null handle. *)
Definition GDALGetRasterBand (ds : GDALDataset) (nBand : Z)
  : option GDALRasterBand :=
  if (1 <=? nBand) && (nBand <=? GDALGetRasterCount ds)
  then nth_error (papoBands ds) (Z.to_nat (nBand - 1))
  else None.

Definition GDALGetRasterAccess (b : GDALRasterBand) : GDALAccess := eAccess b.
Definition GDALGetRasterDataType (b : GDALRasterBand) : GDALDataType :=
  eDataType b.

(** ** Buffers, the kernel descriptor and the history of calls *)

Definition bytes := list Z.

Definition memset (c : Z) (n : Z) : bytes := repeat c (Z.to_nat n).

Inductive Side := SrcDS | DstDS.

Module WK.
Record t := {
  papszWarpOptions : list string;
  eResample : GDALResampleAlg;
  eWorkingDataType : GDALDataType;
  nBands : Z;
  nSrcXSize : Z;
  nSrcYSize : Z;
  papabySrcImage : list (option bytes);
  papanBandSrcValid : option (list (option bytes));
  panUnifiedSrcValid : option bytes;
  pafUnifiedSrcDensity : option bytes;
  nDstXSize : Z;
  nDstYSize : Z;
  papabyDstImage : list bytes;
  panDstValid : option bytes;
  pafDstDensity : option bytes;
  nSrcXOff : Z;
  nSrcYOff : Z;
  nDstXOff : Z;
  nDstYOff : Z;
  dfProgressBase : double;
  dfProgressScale : double
}.
End WK.

Definition GDALWarpKernel := WK.t.

Inductive event :=
| EvCPLError (eErrClass : CPLErr) (err_no : CPLErrorNum) (fmt : string)
| EvCPLDebug (fmt : string)
| EvTransformer (bDstToSrc : bool) (adfX adfY adfZ : list double)
| EvVSIMalloc (nBytes : Z) (ok : bool)
| EvVSIFree
| EvRasterIO (eRWFlag : GDALRWFlag) (ds : Side) (nBand : Z)
             (nXOff nYOff nXSize nYSize : Z) (data : bytes)
| EvPerformWarp (oWK : GDALWarpKernel)
| EvWarpRegion (nDstXOff nDstYOff nDstXSize nDstYSize
                nSrcXOff nSrcYOff nSrcXSize nSrcYSize : Z).

Definition history := list event.

(** ** The transformer

    [pfnTransformer(arg, bDstToSrc, n, x, y, z, panSuccess)] overwrites the
    three coordinate arrays in place and fills [panSuccess]. *)

Record TransformOut := {
  tr_ok : bool;
  tr_x : list double;
  tr_y : list double;
  tr_z : list double;
  tr_success : list bool
}.

Definition GDALTransformerFunc :=
  history -> bool -> list double -> list double -> list double -> TransformOut.

(** A function pointer that is only ever compared with NULL. *)
Inductive FuncPtr := Fn (id : nat).

(** ** Warp options *)

Record GDALWarpOptions := {
  papszWarpOptions : list string;
  dfWarpMemoryLimit : double;
  eResampleAlg : GDALResampleAlg;
  eWorkingDataType : GDALDataType;
  hSrcDS : option GDALDataset;
  hDstDS : option GDALDataset;
  nBandCount : Z;
  panSrcBands : option (list Z);
  panDstBands : option (list Z);
  padfSrcNoDataReal : option (list double);
  padfSrcNoDataImag : option (list double);
  padfDstNoDataReal : option (list double);
  padfDstNoDataImag : option (list double);
  pfnProgress : option FuncPtr;
  pfnTransformer : option GDALTransformerFunc;
  papfnSrcPerBandValidityMaskFunc : option FuncPtr;
  pfnSrcValidityMaskFunc : option FuncPtr;
  pfnSrcDensityMaskFunc : option FuncPtr;
  pfnDstDensityMaskFunc : option FuncPtr;
  pfnDstValidityMaskFunc : option FuncPtr
}.

(** ** The operation object and the monad of its methods *)

Record GDALWarpOperation := {
  psOptions : option GDALWarpOptions;
  dfProgressBase : double;
  dfProgressScale : double;
  calls : history
}.

(** [GDALWarpOperation::GDALWarpOperation()]. *)
Definition new_GDALWarpOperation : GDALWarpOperation :=
  {| psOptions := None;
     dfProgressBase := 0%float;
     dfProgressScale := 1%float;
     calls := [] |}.

Definition M (A : Type) : Type :=
  GDALWarpOperation -> option (A * GDALWarpOperation).

Definition ret {A} (a : A) : M A := fun st => Some (a, st).

Definition bind {A B} (c : M A) (k : A -> M B) : M B :=
  fun st => match c st with
            | Some (a, st') => k a st'
            | None => None
            end.

Definition undefined {A} : M A := fun _ => None.

Definition defined {A} (o : option A) : M A :=
  match o with Some a => ret a | None => undefined end.

Declare Scope warp_scope.
Delimit Scope warp_scope with warp.
Notation "x <- c1 ;; c2" := (bind c1 (fun x => c2))
  (at level 61, c1 at next level, right associativity) : warp_scope.
Notation "' pat <- c1 ;; c2" := (bind c1 (fun x => match x with pat => c2 end))
  (at level 61, pat pattern, c1 at next level, right associativity) : warp_scope.
Notation "c1 ;;; c2" := (bind c1 (fun _ => c2))
  (at level 61, right associativity) : warp_scope.
Local Open Scope warp_scope.

Definition this : M GDALWarpOperation := fun st => Some (st, st).

Definition emit (e : event) : M unit :=
  fun st => Some (tt, {| psOptions := psOptions st;
                         dfProgressBase := dfProgressBase st;
                         dfProgressScale := dfProgressScale st;
                         calls := calls st ++ [e] |}).

Definition set_psOptions (o : option GDALWarpOptions) : M unit :=
  fun st => Some (tt, {| psOptions := o;
                         dfProgressBase := dfProgressBase st;
                         dfProgressScale := dfProgressScale st;
                         calls := calls st |}).

Definition set_dfProgressBase (v : double) : M unit :=
  fun st => Some (tt, {| psOptions := psOptions st;
                         dfProgressBase := v;
                         dfProgressScale := dfProgressScale st;
                         calls := calls st |}).

Definition set_dfProgressScale (v : double) : M unit :=
  fun st => Some (tt, {| psOptions := psOptions st;
                         dfProgressBase := dfProgressBase st;
                         dfProgressScale := v;
                         calls := calls st |}).

(** [psOptions->...]: the options in effect; dereferencing NULL is undefined. *)
Definition options : M GDALWarpOptions :=
  fun st => match psOptions st with
            | Some o => Some (o, st)
            | None => None
            end.

Definition CPLError (c : CPLErr) (n : CPLErrorNum) (fmt : string) : M unit :=
  emit (EvCPLError c n fmt).

Definition CPLDebug (fmt : string) : M unit := emit (EvCPLDebug fmt).

(** [a[i]] for an array that may be NULL or too short. *)
Definition index {A} (a : option (list A)) (i : Z) : M A :=
  match a with
  | Some l => if i <? 0 then undefined else defined (nth_error l (Z.to_nat i))
  | None => undefined
  end.

(** The indices [0 .. n-1] of a [for( i = 0; i < n; i++ )] loop. *)
Definition upto (n : Z) : list Z := map Z.of_nat (seq 0 (Z.to_nat n)).

(** ** WipeOptions, ValidateOptions, Initialize *)

(** [GDALDestroyWarpOptions] frees the copy; nothing of it is observed. *)
Definition WipeOptions : M unit :=
  st <- this ;;
  match psOptions st with
  | Some _ => set_psOptions None
  | None => ret tt
  end.

Definition ValidateOptions_bands (o : GDALWarpOptions) (src dst : GDALDataset)
  : list Z -> M bool :=
  fix loop (l : list Z) : M bool :=
    match l with
    | [] => ret true
    | iBand :: rest =>
        s <- index (panSrcBands o) iBand ;;
        if (s <? 1) || (GDALGetRasterCount src <? s) then
          CPLError CE_Failure CPLE_IllegalArg
                   "panSrcBands[%d] = %d ... out of range for dataset." ;;;
          ret false
        else
          d <- index (panDstBands o) iBand ;;
          if (d <? 1) || (GDALGetRasterCount dst <? d) then
            CPLError CE_Failure CPLE_IllegalArg
                     "panDstBands[%d] = %d ... out of range for dataset." ;;;
            ret false
          else
            hBand <- defined (GDALGetRasterBand dst d) ;;
            match GDALGetRasterAccess hBand with
            | GA_ReadOnly =>
                CPLError CE_Failure CPLE_IllegalArg
                         "Destination band %d appears to be read-only." ;;;
                ret false
            | GA_Update => loop rest
            end
    end.

(** Every report of [ValidateOptions] outside its loop over the bands starts
    with the same line; [fmt] is the rest of the format. *)
Definition reject (fmt : string) : M bool :=
  CPLError CE_Failure CPLE_IllegalArg
           (String.append "GDALWarpOptions.Validate()"
              (String.append LF (String.append "  " fmt))) ;;;
  ret false.

Definition is_null {A} (p : option A) : bool :=
  match p with Some _ => false | None => true end.

Definition ValidateOptions : M bool :=
  st <- this ;;
  match psOptions st with
  | None => reject "no options currently initialized."
  | Some o =>
    if PrimFloat.ltb (dfWarpMemoryLimit o) 100000.0%float then
      reject "dfWarpMemoryLimit=%g is unreasonably small."
    else if negb (eResampleAlg o =? GRA_NearestNeighbour)
            && negb (eResampleAlg o =? GRA_Bilinear)
            && negb (eResampleAlg o =? GRA_Cubic) then
      reject "eResampleArg=%d is not a supported value."
    else if (eWorkingDataType o <? 1)
            && (GDT_TypeCount <=? eWorkingDataType o) then
      reject "eWorkingDataType=%d is not a supported value."
    else
      match hSrcDS o with
      | None => reject "hSrcDS is not set."
      | Some src =>
        match hDstDS o with
        | None => reject "hDstDS is not set."
        | Some dst =>
          if nBandCount o =? 0 then
            reject "nBandCount=0, no bands configured!"
          else if is_null (panSrcBands o) || is_null (panDstBands o) then
            reject "Either panSrcBands or panDstBands is NULL."
          else
            ok <- ValidateOptions_bands o src dst (upto (nBandCount o)) ;;
            if negb ok then ret false
            else if nBandCount o =? 0 then
              reject "nBandCount=0, no bands configured!"
            else if negb (is_null (padfSrcNoDataReal o))
                    && is_null (padfSrcNoDataImag o) then
              reject "padfSrcNoDataReal set, but padfSrcNoDataImag not set."
            else if is_null (pfnProgress o) then
              reject "pfnProgress is NULL."
            else if is_null (pfnTransformer o) then
              reject "pfnTransformer is NULL."
            else ret true
        end
      end
  end.

(** [GDALCloneWarpOptions] makes a deep copy: the same value. *)
Definition GDALCloneWarpOptions (o : GDALWarpOptions) : GDALWarpOptions := o.

Definition with_band_mapping (o : GDALWarpOptions) (n : Z) (s d : list Z)
  : GDALWarpOptions :=
  {| papszWarpOptions := papszWarpOptions o;
     dfWarpMemoryLimit := dfWarpMemoryLimit o;
     eResampleAlg := eResampleAlg o;
     eWorkingDataType := eWorkingDataType o;
     hSrcDS := hSrcDS o; hDstDS := hDstDS o;
     nBandCount := n; panSrcBands := Some s; panDstBands := Some d;
     padfSrcNoDataReal := padfSrcNoDataReal o;
     padfSrcNoDataImag := padfSrcNoDataImag o;
     padfDstNoDataReal := padfDstNoDataReal o;
     padfDstNoDataImag := padfDstNoDataImag o;
     pfnProgress := pfnProgress o; pfnTransformer := pfnTransformer o;
     papfnSrcPerBandValidityMaskFunc := papfnSrcPerBandValidityMaskFunc o;
     pfnSrcValidityMaskFunc := pfnSrcValidityMaskFunc o;
     pfnSrcDensityMaskFunc := pfnSrcDensityMaskFunc o;
     pfnDstDensityMaskFunc := pfnDstDensityMaskFunc o;
     pfnDstValidityMaskFunc := pfnDstValidityMaskFunc o |}.

Definition with_working_type (o : GDALWarpOptions) (t : GDALDataType)
  : GDALWarpOptions :=
  {| papszWarpOptions := papszWarpOptions o;
     dfWarpMemoryLimit := dfWarpMemoryLimit o;
     eResampleAlg := eResampleAlg o;
     eWorkingDataType := t;
     hSrcDS := hSrcDS o; hDstDS := hDstDS o;
     nBandCount := nBandCount o;
     panSrcBands := panSrcBands o; panDstBands := panDstBands o;
     padfSrcNoDataReal := padfSrcNoDataReal o;
     padfSrcNoDataImag := padfSrcNoDataImag o;
     padfDstNoDataReal := padfDstNoDataReal o;
     padfDstNoDataImag := padfDstNoDataImag o;
     pfnProgress := pfnProgress o; pfnTransformer := pfnTransformer o;
     papfnSrcPerBandValidityMaskFunc := papfnSrcPerBandValidityMaskFunc o;
     pfnSrcValidityMaskFunc := pfnSrcValidityMaskFunc o;
     pfnSrcDensityMaskFunc := pfnSrcDensityMaskFunc o;
     pfnDstDensityMaskFunc := pfnDstDensityMaskFunc o;
     pfnDstValidityMaskFunc := pfnDstValidityMaskFunc o |}.

Definition with_memory_limit (o : GDALWarpOptions) (m : double)
  : GDALWarpOptions :=
  {| papszWarpOptions := papszWarpOptions o;
     dfWarpMemoryLimit := m;
     eResampleAlg := eResampleAlg o;
     eWorkingDataType := eWorkingDataType o;
     hSrcDS := hSrcDS o; hDstDS := hDstDS o;
     nBandCount := nBandCount o;
     panSrcBands := panSrcBands o; panDstBands := panDstBands o;
     padfSrcNoDataReal := padfSrcNoDataReal o;
     padfSrcNoDataImag := padfSrcNoDataImag o;
     padfDstNoDataReal := padfDstNoDataReal o;
     padfDstNoDataImag := padfDstNoDataImag o;
     pfnProgress := pfnProgress o; pfnTransformer := pfnTransformer o;
     papfnSrcPerBandValidityMaskFunc := papfnSrcPerBandValidityMaskFunc o;
     pfnSrcValidityMaskFunc := pfnSrcValidityMaskFunc o;
     pfnSrcDensityMaskFunc := pfnSrcDensityMaskFunc o;
     pfnDstDensityMaskFunc := pfnDstDensityMaskFunc o;
     pfnDstValidityMaskFunc := pfnDstValidityMaskFunc o |}.

(** Default band mapping if missing. *)
Definition default_band_mapping (o : GDALWarpOptions) : GDALWarpOptions :=
  match hSrcDS o, hDstDS o with
  | Some src, Some dst =>
      if (nBandCount o =? 0)
         && (GDALGetRasterCount src =? GDALGetRasterCount dst)
      then let n := GDALGetRasterCount src in
           with_band_mapping o n (map (fun i => i + 1) (upto n))
                                 (map (fun i => i + 1) (upto n))
      else o
  | _, _ => o
  end.

(** If no working data type was provided, set one now. *)
Definition default_working_type (o : GDALWarpOptions) : M GDALWarpOptions :=
  match hDstDS o with
  | Some dst =>
      if (eWorkingDataType o =? GDT_Unknown) && (1 <=? nBandCount o) then
        d <- index (panDstBands o) 0 ;;
        match GDALGetRasterBand dst d with
        | Some hBand => ret (with_working_type o (GDALGetRasterDataType hBand))
        | None => ret o
        end
      else ret o
  | None => ret o
  end.

(** Default memory available: 64MB. *)
Definition default_memory_limit (o : GDALWarpOptions) : GDALWarpOptions :=
  if PrimFloat.eqb (dfWarpMemoryLimit o) 0.0%float
  then with_memory_limit o 67108864.0%float
  else o.

Definition Initialize (psNewOptions : GDALWarpOptions) : M CPLErr :=
  WipeOptions ;;;
  set_psOptions (Some (GDALCloneWarpOptions psNewOptions)) ;;;
  o <- options ;;
  set_psOptions (Some (default_band_mapping o)) ;;;
  o <- options ;;
  o' <- default_working_type o ;;
  set_psOptions (Some (default_memory_limit o')) ;;;
  ok <- ValidateOptions ;;
  if ok then ret CE_None
  else WipeOptions ;;; ret CE_Failure.

(** ** ComputeSourceWindow *)

Definition sample := (double * double * double)%type.

(** The four points written in one pass of the sampling loop: along top,
    along bottom, along left, along right. *)
Definition edge_samples (dfRatio : double)
  (nDstXOff nDstYOff nDstXSize nDstYSize : Z) : list sample :=
  [ ((dfRatio * double_of_int nDstXSize + double_of_int nDstXOff)%float,
     double_of_int nDstYOff, 0.0%float);
    ((dfRatio * double_of_int nDstXSize + double_of_int nDstXOff)%float,
     double_of_int (nDstYOff + nDstYSize), 0.0%float);
    (double_of_int nDstXOff,
     (dfRatio * double_of_int nDstYSize + double_of_int nDstYOff)%float,
     0.0%float);
    (double_of_int (nDstXSize + nDstXOff),
     (dfRatio * double_of_int nDstYSize + double_of_int nDstYOff)%float,
     0.0%float) ].

(** [for( dfRatio = 0.0; dfRatio <= 1.01; dfRatio += 0.05 )].  The arrays
    [adfX], [adfY], [adfZ] hold 84 entries, that is [room] = 21 passes; a
    further pass would write past their end. *)
Fixpoint sample_loop (room : nat) (dfRatio : double) (acc : list sample)
  (nDstXOff nDstYOff nDstXSize nDstYSize : Z) : option (list sample) :=
  if PrimFloat.leb dfRatio 1.01%float then
    match room with
    | O => None
    | S room' =>
        let dfRatio :=
          if PrimFloat.ltb 0.99%float dfRatio then 1.0%float else dfRatio in
        sample_loop room' (dfRatio + 0.05)%float
          (acc ++ edge_samples dfRatio nDstXOff nDstYOff nDstXSize nDstYSize)
          nDstXOff nDstYOff nDstXSize nDstYSize
    end
  else Some acc.

Definition sample_points (nDstXOff nDstYOff nDstXSize nDstYSize : Z)
  : option (list sample) :=
  sample_loop 21 0.0%float [] nDstXOff nDstYOff nDstXSize nDstYSize.

(** A failed [CPLAssert] stops the program. *)
Definition CPLAssert (b : bool) : M unit := if b then ret tt else undefined.

Record Bounds := {
  dfMinXOut : double;
  dfMinYOut : double;
  dfMaxXOut : double;
  dfMaxYOut : double
}.

(** One pass of the loop that collects the bounds.  [None] stands for
    [bGotInitialPoint == FALSE], when the four bounds are not yet set. *)
Definition collect_step (out : TransformOut)
  (acc : option Bounds * Z) (i : nat) : option Bounds * Z :=
  let '(b, nFailedCount) := acc in
  if negb (nth i (tr_success out) false) then (b, nFailedCount + 1)
  else
    let x := nth i (tr_x out) 0%float in
    let y := nth i (tr_y out) 0%float in
    match b with
    | None =>
        (Some {| dfMinXOut := x; dfMinYOut := y;
                 dfMaxXOut := x; dfMaxYOut := y |}, nFailedCount)
    | Some b =>
        (Some {| dfMinXOut := dMIN (dfMinXOut b) x;
                 dfMinYOut := dMIN (dfMinYOut b) y;
                 dfMaxXOut := dMAX (dfMaxXOut b) x;
                 dfMaxYOut := dMAX (dfMaxYOut b) y |}, nFailedCount)
    end.

Definition collect_bounds (out : TransformOut) (nSamplePoints : nat)
  : option Bounds * Z :=
  fold_left (collect_step out) (seq 0 nSamplePoints) (None, 0).

Definition ComputeSourceWindow (nDstXOff nDstYOff nDstXSize nDstYSize : Z)
  : M (CPLErr * option (Z * Z * Z * Z)) :=
  o <- options ;;
  pts <- defined (sample_points nDstXOff nDstYOff nDstXSize nDstYSize) ;;
  let nSamplePoints := List.length pts in
  let adfX := map (fun p => fst (fst p)) pts in
  let adfY := map (fun p => snd (fst p)) pts in
  let adfZ := map snd pts in
  CPLAssert (Nat.eqb nSamplePoints 84) ;;;
  transformer <- defined (pfnTransformer o) ;;
  st <- this ;;
  let out := transformer (calls st) true adfX adfY adfZ in
  emit (EvTransformer true adfX adfY adfZ) ;;;
  if negb (tr_ok out) then
    CPLError CE_Failure CPLE_AppDefined
             (String.append
                "GDALWarperOperation::ComputeSourceWindow() failed because"
                (String.append LF "the pfnTransformer failed.")) ;;;
    ret (CE_Failure, None)
  else
    let '(bounds, nFailedCount) := collect_bounds out nSamplePoints in
    if Z.of_nat nSamplePoints - 10 <? nFailedCount then
      CPLError CE_Failure CPLE_AppDefined
               (String.append
                  "Too many points (%d out of %d) failed to transform,"
                  (String.append LF "unable to compute output bounds.")) ;;;
      ret (CE_Failure, None)
    else
      (if 0 <? nFailedCount
       then CPLDebug "GDALWarpOperation::ComputeSourceWindow() %d out of %d points failed to transform."
       else ret tt) ;;;
      let nResWinSize := 0 in
      let nResWinSize :=
        if eResampleAlg o =? GRA_Bilinear then 1 else nResWinSize in
      let nResWinSize :=
        if eResampleAlg o =? GRA_Cubic then 2 else nResWinSize in
      b <- defined bounds ;;
      (* MAX(0,(int) floor( dfMinXOut ) + nResWinSize ) *)
      fx <- defined (int_floor (dfMinXOut b)) ;;
      ox <- defined (int_of (fx + nResWinSize)) ;;
      let nSrcXOff := Z.max 0 ox in
      fy <- defined (int_floor (dfMinYOut b)) ;;
      oy <- defined (int_of (fy + nResWinSize)) ;;
      let nSrcYOff := Z.max 0 oy in
      src <- defined (hSrcDS o) ;;
      (* MIN( GDALGetRasterXSize(hSrcDS) - *pnSrcXOff,
              ((int) ceil( dfMaxXOut )) - *pnSrcXOff + nResWinSize ) *)
      rx <- defined (int_of (GDALGetRasterXSize src - nSrcXOff)) ;;
      cx <- defined (int_ceil (dfMaxXOut b)) ;;
      ex <- defined (int_of (cx - nSrcXOff)) ;;
      ex <- defined (int_of (ex + nResWinSize)) ;;
      let nSrcXSize := Z.min rx ex in
      ry <- defined (int_of (GDALGetRasterYSize src - nSrcYOff)) ;;
      cy <- defined (int_ceil (dfMaxYOut b)) ;;
      ey <- defined (int_of (cy - nSrcYOff)) ;;
      ey <- defined (int_of (ey + nResWinSize)) ;;
      let nSrcYSize := Z.min ry ey in
      ret (CE_None, Some (nSrcXOff, nSrcYOff, nSrcXSize, nSrcYSize)).

(** ** Collaborators outside this file

    The pure ones are functions of their arguments; the allocator, the raster
    I/O and the warp kernel also see the history of earlier calls. *)

Class Collaborators := {
  GDALGetDataTypeSize : GDALDataType -> Z;
  CSLFetchNameValue : list string -> string -> option string;
  CPLStringToComplex : string -> double * double;
  (** value, source type, destination type, destination pixel offset, word
      count: the destination words *)
  GDALCopyWords : double * double -> GDALDataType -> GDALDataType -> Z -> Z
                  -> bytes;
  (** no-data pair, working type, source window, band image, mask: the status
      and the updated mask *)
  GDALWarpNoDataMasker : double * double -> GDALDataType -> Z -> Z -> Z -> Z
                         -> option bytes -> option bytes
                         -> CPLErr * option bytes;
  VSIMalloc : history -> Z -> bool;
  RasterIO_Read : history -> Side -> Z -> Z -> Z -> Z -> Z -> GDALDataType
                  -> CPLErr * bytes;
  RasterIO_Write : history -> Side -> Z -> Z -> Z -> Z -> Z -> GDALDataType
                   -> bytes -> CPLErr;
  (** the status and the destination band planes after the warp *)
  PerformWarp : history -> GDALWarpKernel -> CPLErr * list bytes
}.

(** [EQUAL] of cpl_port.h compares without regard to case. *)
Definition toupper (c : ascii) : ascii :=
  let n := nat_of_ascii c in
  if (Nat.leb 97 n && Nat.leb n 122)%bool then ascii_of_nat (n - 32) else c.

Fixpoint EQUAL (a b : string) : bool :=
  match a, b with
  | EmptyString, EmptyString => true
  | String x a', String y b' =>
      Ascii.eqb (toupper x) (toupper y) && EQUAL a' b'
  | _, _ => false
  end.

(** ** CreateKernelMask *)

(** Modelled from the spec: the constructor of [GDALWarpKernel] is not part of
    this file; a fresh descriptor has no buffers and no mask planes, which are
    created on demand. *)
Definition new_GDALWarpKernel : GDALWarpKernel :=
  {| WK.papszWarpOptions := []; WK.eResample := GRA_NearestNeighbour;
     WK.eWorkingDataType := GDT_Unknown; WK.nBands := 0;
     WK.nSrcXSize := 0; WK.nSrcYSize := 0; WK.papabySrcImage := [];
     WK.papanBandSrcValid := None; WK.panUnifiedSrcValid := None;
     WK.pafUnifiedSrcDensity := None;
     WK.nDstXSize := 0; WK.nDstYSize := 0; WK.papabyDstImage := [];
     WK.panDstValid := None; WK.pafDstDensity := None;
     WK.nSrcXOff := 0; WK.nSrcYOff := 0; WK.nDstXOff := 0; WK.nDstYOff := 0;
     WK.dfProgressBase := 0%float; WK.dfProgressScale := 1%float |}.

(** What [ppMask] may point to. *)
Inductive MaskSlot :=
| SlotBandSrcValid (iBand : Z)
| SlotUnifiedSrcValid
| SlotUnifiedSrcDensity
| SlotDstValid
| SlotDstDensity.

Fixpoint list_set {A} (l : list A) (i : nat) (v : A) : list A :=
  match l, i with
  | [], _ => []
  | _ :: t, O => v :: t
  | h :: t, S j => h :: list_set t j v
  end.

Definition with_masks (k : GDALWarpKernel)
  (bsv : option (list (option bytes))) (usv usd dv dd : option bytes)
  : GDALWarpKernel :=
  {| WK.papszWarpOptions := WK.papszWarpOptions k; WK.eResample := WK.eResample k;
     WK.eWorkingDataType := WK.eWorkingDataType k; WK.nBands := WK.nBands k;
     WK.nSrcXSize := WK.nSrcXSize k; WK.nSrcYSize := WK.nSrcYSize k;
     WK.papabySrcImage := WK.papabySrcImage k;
     WK.papanBandSrcValid := bsv; WK.panUnifiedSrcValid := usv;
     WK.pafUnifiedSrcDensity := usd;
     WK.nDstXSize := WK.nDstXSize k; WK.nDstYSize := WK.nDstYSize k;
     WK.papabyDstImage := WK.papabyDstImage k;
     WK.panDstValid := dv; WK.pafDstDensity := dd;
     WK.nSrcXOff := WK.nSrcXOff k; WK.nSrcYOff := WK.nSrcYOff k;
     WK.nDstXOff := WK.nDstXOff k; WK.nDstYOff := WK.nDstYOff k;
     WK.dfProgressBase := WK.dfProgressBase k;
     WK.dfProgressScale := WK.dfProgressScale k |}.

(** [*ppMask]; outside the band array there is nothing to read. *)
Definition read_slot (k : GDALWarpKernel) (s : MaskSlot)
  : option (option bytes) :=
  match s with
  | SlotBandSrcValid iBand =>
      match WK.papanBandSrcValid k with
      | Some a => if iBand <? 0 then None else nth_error a (Z.to_nat iBand)
      | None => None
      end
  | SlotUnifiedSrcValid => Some (WK.panUnifiedSrcValid k)
  | SlotUnifiedSrcDensity => Some (WK.pafUnifiedSrcDensity k)
  | SlotDstValid => Some (WK.panDstValid k)
  | SlotDstDensity => Some (WK.pafDstDensity k)
  end.

(** [*ppMask = v]. *)
Definition write_slot (k : GDALWarpKernel) (s : MaskSlot) (v : option bytes)
  : GDALWarpKernel :=
  match s with
  | SlotBandSrcValid iBand =>
      with_masks k
        (option_map (fun a => list_set a (Z.to_nat iBand) v)
                    (WK.papanBandSrcValid k))
        (WK.panUnifiedSrcValid k) (WK.pafUnifiedSrcDensity k)
        (WK.panDstValid k) (WK.pafDstDensity k)
  | SlotUnifiedSrcValid =>
      with_masks k (WK.papanBandSrcValid k) v (WK.pafUnifiedSrcDensity k)
                 (WK.panDstValid k) (WK.pafDstDensity k)
  | SlotUnifiedSrcDensity =>
      with_masks k (WK.papanBandSrcValid k) (WK.panUnifiedSrcValid k) v
                 (WK.panDstValid k) (WK.pafDstDensity k)
  | SlotDstValid =>
      with_masks k (WK.papanBandSrcValid k) (WK.panUnifiedSrcValid k)
                 (WK.pafUnifiedSrcDensity k) v (WK.pafDstDensity k)
  | SlotDstDensity =>
      with_masks k (WK.papanBandSrcValid k) (WK.panUnifiedSrcValid k)
                 (WK.pafUnifiedSrcDensity k) (WK.panDstValid k) v
  end.

(** Get particulars of mask to be updated: the kernel (with the band array
    allocated if it was missing), [ppMask], [nXSize], [nYSize],
    [nBitsPerPixel], [nDefault]. *)
Definition mask_particulars (poKernel : GDALWarpKernel) (iBand : Z)
  (pszType : string)
  : option (GDALWarpKernel * MaskSlot * Z * Z * Z * Z) :=
  if EQUAL pszType "BandSrcValid" then
    let poKernel :=
      if is_null (WK.papanBandSrcValid poKernel)
      then with_masks poKernel
             (Some (repeat None (Z.to_nat (WK.nBands poKernel))))
             (WK.panUnifiedSrcValid poKernel) (WK.pafUnifiedSrcDensity poKernel)
             (WK.panDstValid poKernel) (WK.pafDstDensity poKernel)
      else poKernel in
    Some (poKernel, SlotBandSrcValid iBand,
          WK.nSrcXSize poKernel, WK.nSrcYSize poKernel, 1, 255)
  else if EQUAL pszType "UnifiedSrcValid" then
    Some (poKernel, SlotUnifiedSrcValid,
          WK.nSrcXSize poKernel, WK.nSrcYSize poKernel, 1, 255)
  else if EQUAL pszType "UnifiedSrcDensity" then
    Some (poKernel, SlotUnifiedSrcDensity,
          WK.nSrcXSize poKernel, WK.nSrcYSize poKernel, 32, 0)
  else if EQUAL pszType "DstValid" then
    Some (poKernel, SlotDstValid,
          WK.nDstXSize poKernel, WK.nDstYSize poKernel, 1, 255)
  else if EQUAL pszType "DstDensity" then
    Some (poKernel, SlotDstDensity,
          WK.nDstXSize poKernel, WK.nDstYSize poKernel, 32, 0)
  else None.

Section Warp.

Context {collaborators : Collaborators}.

Definition CreateKernelMask (poKernel : GDALWarpKernel) (iBand : Z)
  (pszType : string) : M (CPLErr * GDALWarpKernel) :=
  match mask_particulars poKernel iBand pszType with
  | None =>
      CPLError CE_Failure CPLE_AppDefined
               "Internal error in CreateKernelMask(%s)." ;;;
      ret (CE_Failure, poKernel)
  | Some (poKernel, ppMask, nXSize, nYSize, nBitsPerPixel, nDefault) =>
      mask <- defined (read_slot poKernel ppMask) ;;
      if is_null mask then
        (* int nBytes *)
        nBytes <- defined
          (if nBitsPerPixel =? 32 then
             obind (int_of (nXSize * nYSize)) (fun n => int_of (n * 4))
           else
             obind (int_of (nXSize * nYSize)) (fun n =>
             obind (int_of (n + 7)) (fun n => Some (Z.quot n 8)))) ;;
        st <- this ;;
        let ok := VSIMalloc (calls st) nBytes in
        emit (EvVSIMalloc nBytes ok) ;;;
        if negb ok then
          CPLError CE_Failure CPLE_OutOfMemory
                   "Out of memory allocating %d bytes for %s mask." ;;;
          ret (CE_Failure, poKernel)
        else
          ret (CE_None,
               write_slot poKernel ppMask (Some (memset nDefault nBytes)))
      else ret (CE_None, poKernel)
  end.

(** [for( i = 0; i < n && eErr == CE_None; i++ )], entered with
    [eErr == CE_None]; [s] is what the body updates. *)
Fixpoint for_ok {S} (l : list Z) (body : Z -> S -> M (CPLErr * S)) (s : S)
  : M (CPLErr * S) :=
  match l with
  | [] => ret (CE_None, s)
  | i :: rest =>
      '(eErr, s') <- body i s ;;
      if CPLErr_eqb eErr CE_None then for_ok rest body s' else ret (eErr, s')
  end.

(** The [len] bytes of [buf] from offset [off]. *)
Definition plane (buf : bytes) (off len : Z) : bytes :=
  firstn (Z.to_nat len) (skipn (Z.to_nat off) buf).

Definition malloc (nBytes : Z) : M bool :=
  st <- this ;;
  let ok := VSIMalloc (calls st) nBytes in
  emit (EvVSIMalloc nBytes ok) ;;;
  ret ok.

Definition GDALRasterIO_Read (ds : Side) (hDS : option GDALDataset)
  (nBand nXOff nYOff nXSize nYSize : Z) (eType : GDALDataType)
  : M (CPLErr * bytes) :=
  d <- defined hDS ;;
  _ <- defined (GDALGetRasterBand d nBand) ;;
  st <- this ;;
  let '(eErr, data) :=
    RasterIO_Read (calls st) ds nBand nXOff nYOff nXSize nYSize eType in
  emit (EvRasterIO GF_Read ds nBand nXOff nYOff nXSize nYSize data) ;;;
  ret (eErr, data).

Definition GDALRasterIO_Write (ds : Side) (hDS : option GDALDataset)
  (nBand nXOff nYOff nXSize nYSize : Z) (eType : GDALDataType) (data : bytes)
  : M CPLErr :=
  d <- defined hDS ;;
  _ <- defined (GDALGetRasterBand d nBand) ;;
  st <- this ;;
  let eErr :=
    RasterIO_Write (calls st) ds nBand nXOff nYOff nXSize nYSize eType data in
  emit (EvRasterIO GF_Write ds nBand nXOff nYOff nXSize nYSize data) ;;;
  ret eErr.

(** ** WarpRegionToBuffer *)

Definition WarpRegionToBuffer (nDstXOff nDstYOff nDstXSize nDstYSize : Z)
  (pDataBuf : bytes) (eBufDataType : GDALDataType)
  (nSrcXOff nSrcYOff nSrcXSize nSrcYSize : Z) : M (CPLErr * bytes) :=
  o <- options ;;
  let nWordSize := Z.quot (GDALGetDataTypeSize (eWorkingDataType o)) 8 in
  (* If not given a corresponding source window compute one now. *)
  '(eErr, win) <-
    (if (nSrcXSize =? 0) && (nSrcYSize =? 0) then
       ComputeSourceWindow nDstXOff nDstYOff nDstXSize nDstYSize
     else ret (CE_None, Some (nSrcXOff, nSrcYOff, nSrcXSize, nSrcYSize))) ;;
  if negb (CPLErr_eqb eErr CE_None) then ret (eErr, pDataBuf)
  else
    '(nSrcXOff, nSrcYOff, nSrcXSize, nSrcYSize) <- defined win ;;
    st <- this ;;
    (* Setup the source buffer. *)
    '(eErr, srcImage) <-
      for_ok (upto (nBandCount o))
        (fun i img =>
           nBand <- index (panSrcBands o) i ;;
           ok <- malloc (nWordSize * nSrcXSize * nSrcYSize) ;;
           if negb ok then
             CPLError CE_Failure CPLE_OutOfMemory
                      "Failed to allocate %d byte source buffer." ;;;
             ret (CE_Failure, img)
           else
             '(eErr, data) <-
               GDALRasterIO_Read SrcDS (hSrcDS o) nBand
                 nSrcXOff nSrcYOff nSrcXSize nSrcYSize (eWorkingDataType o) ;;
             ret (eErr, list_set img (Z.to_nat i) (Some data)))
        (repeat None (Z.to_nat (nBandCount o))) ;;
    (* Initialize destination buffer. *)
    let dstImage :=
      if CPLErr_eqb eErr CE_None
      then map (fun i => plane pDataBuf
                           (i * nDstXSize * nDstYSize * nWordSize)
                           (nDstXSize * nDstYSize * nWordSize))
               (upto (nBandCount o))
      else [] in
    let oWK :=
      {| WK.papszWarpOptions := papszWarpOptions o;
         WK.eResample := eResampleAlg o;
         WK.eWorkingDataType := eWorkingDataType o;
         WK.nBands := nBandCount o;
         WK.nSrcXSize := nSrcXSize; WK.nSrcYSize := nSrcYSize;
         WK.papabySrcImage := srcImage;
         WK.papanBandSrcValid := None; WK.panUnifiedSrcValid := None;
         WK.pafUnifiedSrcDensity := None;
         WK.nDstXSize := nDstXSize; WK.nDstYSize := nDstYSize;
         WK.papabyDstImage := dstImage;
         WK.panDstValid := None; WK.pafDstDensity := None;
         WK.nSrcXOff := nSrcXOff; WK.nSrcYOff := nSrcYOff;
         WK.nDstXOff := nDstXOff; WK.nDstYOff := nDstYOff;
         WK.dfProgressBase := dfProgressBase st;
         WK.dfProgressScale := dfProgressScale st |} in
    (* If we have source nodata values create, or update the validity mask. *)
    '(eErr, oWK) <-
      (if negb (is_null (padfSrcNoDataReal o)) && CPLErr_eqb eErr CE_None then
         for_ok (upto (nBandCount o))
           (fun i oWK =>
              '(eErr, oWK) <- CreateKernelMask oWK i "BandSrcValid" ;;
              if CPLErr_eqb eErr CE_None then
                re <- index (padfSrcNoDataReal o) i ;;
                im <- index (padfSrcNoDataImag o) i ;;
                img <- index (Some (WK.papabySrcImage oWK)) i ;;
                mask <- defined (read_slot oWK (SlotBandSrcValid i)) ;;
                let '(eErr, mask) :=
                  GDALWarpNoDataMasker (re, im) (eWorkingDataType o)
                    (WK.nSrcXOff oWK) (WK.nSrcYOff oWK)
                    (WK.nSrcXSize oWK) (WK.nSrcYSize oWK) img mask in
                ret (eErr, write_slot oWK (SlotBandSrcValid i) mask)
              else ret (eErr, oWK))
           oWK
       else ret (eErr, oWK)) ;;
    (* Perform the warp. *)
    '(eErr, pDataBuf) <-
      (if CPLErr_eqb eErr CE_None then
         st <- this ;;
         let '(eErr, planes) := PerformWarp (calls st) oWK in
         emit (EvPerformWarp oWK) ;;;
         ret (eErr, List.concat planes)
       else ret (eErr, pDataBuf)) ;;
    (* Cleanup. *)
    fold_right (fun img rest =>
                  (if is_null img then ret tt else emit EvVSIFree) ;;; rest)
               (ret tt) (WK.papabySrcImage oWK) ;;;
    ret (eErr, pDataBuf).

(** ** WarpRegion *)

(** The contents given to one band of the destination buffer when the
    [INIT_DEST] option is set. *)
Definition init_dest_band (o : GDALWarpOptions) (pszInitDest : string)
  (nWordSize nBandSize nDstXSize nDstYSize iBand : Z) : M bytes :=
  adfInitRealImag <-
    (if EQUAL pszInitDest "NO_DATA" && negb (is_null (padfDstNoDataReal o))
     then re <- index (padfDstNoDataReal o) iBand ;;
          im <- index (padfDstNoDataImag o) iBand ;;
          ret (re, im)
     else ret (CPLStringToComplex pszInitDest)) ;;
  let '(re, im) := adfInitRealImag in
  if eWorkingDataType o =? GDT_Byte then
    v <- defined (int_trunc re) ;;
    ret (memset (Z.max 0 (Z.min 255 v)) nBandSize)
  else if PrimFloat.eqb re 0.0%float && PrimFloat.eqb im 0%float then
    ret (memset 0 nBandSize)
  else if PrimFloat.eqb im 0.0%float then
    ret (GDALCopyWords (re, im) GDT_Float64 (eWorkingDataType o) nWordSize
                       (nDstXSize * nDstYSize))
  else
    ret (GDALCopyWords (re, im) GDT_CFloat64 (eWorkingDataType o) nWordSize
                       (nDstXSize * nDstYSize)).

Fixpoint init_dest (o : GDALWarpOptions) (pszInitDest : string)
  (nWordSize nBandSize nDstXSize nDstYSize : Z) (l : list Z) : M bytes :=
  match l with
  | [] => ret []
  | iBand :: rest =>
      b <- init_dest_band o pszInitDest nWordSize nBandSize
                          nDstXSize nDstYSize iBand ;;
      bs <- init_dest o pszInitDest nWordSize nBandSize
                      nDstXSize nDstYSize rest ;;
      ret (b ++ bs)
  end.

Definition WarpRegion (nDstXOff nDstYOff nDstXSize nDstYSize : Z)
  (nSrcXOff nSrcYOff nSrcXSize nSrcYSize : Z) : M CPLErr :=
  (* ghost: record the call *)
  emit (EvWarpRegion nDstXOff nDstYOff nDstXSize nDstYSize
                     nSrcXOff nSrcYOff nSrcXSize nSrcYSize) ;;;
  o <- options ;;
  (* Allocate the output buffer. *)
  let nWordSize := Z.quot (GDALGetDataTypeSize (eWorkingDataType o)) 8 in
  let nBandSize := nWordSize * nDstXSize * nDstYSize in
  ok <- malloc (nBandSize * nBandCount o) ;;
  if negb ok then
    CPLError CE_Failure CPLE_OutOfMemory
             "Out of memory allocatint %d byte destination buffer." ;;;
    ret CE_Failure
  else
    '(eErr, pDstBuffer) <-
      match CSLFetchNameValue (papszWarpOptions o) "INIT_DEST" with
      | Some pszInitDest =>
          buf <- init_dest o pszInitDest nWordSize nBandSize
                           nDstXSize nDstYSize (upto (nBandCount o)) ;;
          ret (CE_None, buf)
      | None =>
          (* read it from disk so we can overlay on existing imagery *)
          for_ok (upto (nBandCount o))
            (fun iBand buf =>
               nBand <- index (panDstBands o) iBand ;;
               '(eErr, data) <-
                 GDALRasterIO_Read DstDS (hDstDS o) nBand
                   nDstXOff nDstYOff nDstXSize nDstYSize
                   (eWorkingDataType o) ;;
               ret (eErr, buf ++ data))
            []
      end ;;
    if negb (CPLErr_eqb eErr CE_None) then
      emit EvVSIFree ;;; ret eErr
    else
      (* Perform the warp. *)
      '(eErr, pDstBuffer) <-
        WarpRegionToBuffer nDstXOff nDstYOff nDstXSize nDstYSize
                           pDstBuffer (eWorkingDataType o)
                           nSrcXOff nSrcYOff nSrcXSize nSrcYSize ;;
      (* Write the output data back to disk if all went well. *)
      '(eErr, _) <-
        (if CPLErr_eqb eErr CE_None then
           for_ok (upto (nBandCount o))
             (fun iBand (_ : unit) =>
                nBand <- index (panDstBands o) iBand ;;
                eErr <- GDALRasterIO_Write DstDS (hDstDS o) nBand
                          nDstXOff nDstYOff nDstXSize nDstYSize
                          (eWorkingDataType o)
                          (plane pDstBuffer (iBand * nBandSize) nBandSize) ;;
                ret (eErr, tt))
             tt
         else ret (eErr, tt)) ;;
      emit EvVSIFree ;;;
      ret eErr.

(** ** ChunkAndWarpImage *)

(** Based on the types of masks in use, how many bits will each source pixel
    cost us? *)
Definition nSrcPixelCostInBits (o : GDALWarpOptions) : Z :=
  let n := GDALGetDataTypeSize (eWorkingDataType o) * nBandCount o in
  let n := if negb (is_null (pfnSrcDensityMaskFunc o)) then n + 32 else n in
  let n := if negb (is_null (papfnSrcPerBandValidityMaskFunc o))
              || negb (is_null (padfSrcNoDataReal o))
           then n + nBandCount o else n in
  let n := if negb (is_null (pfnSrcValidityMaskFunc o)) then n + 1 else n in
  n.

(** What about the cost for the destination. *)
Definition nDstPixelCostInBits (o : GDALWarpOptions) : Z :=
  let n := GDALGetDataTypeSize (eWorkingDataType o) * nBandCount o in
  let n := if negb (is_null (pfnDstDensityMaskFunc o)) then n + 32 else n in
  let n := if negb (is_null (padfDstNoDataReal o))
              || negb (is_null (pfnDstValidityMaskFunc o))
           then n + nBandCount o else n in
  n.

Definition dfTotalMemoryUse (o : GDALWarpOptions)
  (nSrcXSize nSrcYSize nDstXSize nDstYSize : Z) : double :=
  ((double_of_int (nSrcPixelCostInBits o)
      * double_of_int nSrcXSize * double_of_int nSrcYSize
    + double_of_int (nDstPixelCostInBits o)
      * double_of_int nDstXSize * double_of_int nDstYSize) / 8.0)%float.

(** The body of [ChunkAndWarpImage]; [self] stands for the recursive calls. *)
Definition ChunkAndWarpImage_body (self : Z -> Z -> Z -> Z -> M CPLErr)
  (nDstXOff nDstYOff nDstXSize nDstYSize : Z) : M CPLErr :=
  '(eErr, win) <-
    ComputeSourceWindow nDstXOff nDstYOff nDstXSize nDstYSize ;;
  if negb (CPLErr_eqb eErr CE_None) then ret eErr
  else
    '(nSrcXOff, nSrcYOff, nSrcXSize, nSrcYSize) <- defined win ;;
    o <- options ;;
    if PrimFloat.ltb (dfWarpMemoryLimit o)
         (dfTotalMemoryUse o nSrcXSize nSrcYSize nDstXSize nDstYSize)
       && ((2 <? nDstXSize) || (2 <? nDstYSize))
    then
      st <- this ;;
      let dfSaveBase := dfProgressBase st in
      let dfSaveScale := dfProgressScale st in
      set_dfProgressScale (dfProgressScale st * 0.5)%float ;;;
      eErr <-
        (if nDstYSize <? nDstXSize then
           let nChunk1 := Z.quot nDstXSize 2 in
           let nChunk2 := nDstXSize - nChunk1 in
           eErr <- self nDstXOff nDstYOff nChunk1 nDstYSize ;;
           if CPLErr_eqb eErr CE_None then
             st <- this ;;
             set_dfProgressBase
               (dfProgressBase st + dfProgressScale st)%float ;;;
             self (nDstXOff + nChunk1) nDstYOff nChunk2 nDstYSize
           else ret eErr
         else
           let nChunk1 := Z.quot nDstYSize 2 in
           let nChunk2 := nDstYSize - nChunk1 in
           eErr <- self nDstXOff nDstYOff nDstXSize nChunk1 ;;
           if CPLErr_eqb eErr CE_None then
             st <- this ;;
             set_dfProgressBase
               (dfProgressBase st + dfProgressScale st)%float ;;;
             self nDstXOff (nDstYOff + nChunk1) nDstXSize nChunk2
           else ret eErr) ;;
      set_dfProgressBase dfSaveBase ;;;
      set_dfProgressScale dfSaveScale ;;;
      ret eErr
    else
      (* everything fits, so proceed to handle this whole chunk *)
      WarpRegion nDstXOff nDstYOff nDstXSize nDstYSize
                 nSrcXOff nSrcYOff nSrcXSize nSrcYSize.

(** The recursion is unfolded [fuel] times.  A split makes the longer side,
    which is above 2, strictly shorter, so [recursion_depth] unfoldings are
    enough (lemma [ChunkAndWarpImage_unfold]). *)
Fixpoint ChunkAndWarpImage_fuel (fuel : nat)
  : Z -> Z -> Z -> Z -> M CPLErr :=
  match fuel with
  | O => ChunkAndWarpImage_body (fun _ _ _ _ => undefined)
  | S n => ChunkAndWarpImage_body (ChunkAndWarpImage_fuel n)
  end.

Definition recursion_depth (nDstXSize nDstYSize : Z) : nat :=
  Z.to_nat (Z.max 0 nDstXSize + Z.max 0 nDstYSize).

Definition ChunkAndWarpImage (nDstXOff nDstYOff nDstXSize nDstYSize : Z)
  : M CPLErr :=
  ChunkAndWarpImage_fuel (recursion_depth nDstXSize nDstYSize)
                         nDstXOff nDstYOff nDstXSize nDstYSize.

End Warp.

(** ** The specification's side of the refinement claims *)

(** Resampling half-width: 0 for Nearest, 1 for Bilinear, 2 for Cubic. *)
Definition resampling_half_width (alg : GDALResampleAlg) : Z :=
  if alg =? GRA_Cubic then 2
  else if alg =? GRA_Bilinear then 1
  else 0.

(** The transformed points whose success flag is set, in array order. *)
Definition survivors (out : TransformOut) (n : nat) : list (double * double) :=
  map (fun i => (nth i (tr_x out) 0%float, nth i (tr_y out) 0%float))
      (filter (fun i => nth i (tr_success out) false) (seq 0 n)).

Definition failures (out : TransformOut) (n : nat) : Z :=
  Z.of_nat n - Z.of_nat (List.length (survivors out n)).

Definition extend_box (b : Bounds) (p : double * double) : Bounds :=
  {| dfMinXOut := dMIN (dfMinXOut b) (fst p);
     dfMinYOut := dMIN (dfMinYOut b) (snd p);
     dfMaxXOut := dMAX (dfMaxXOut b) (fst p);
     dfMaxYOut := dMAX (dfMaxYOut b) (snd p) |}.

(** The bounding box [min_x, max_x] x [min_y, max_y] of a list of points. *)
Definition bounding_box (pts : list (double * double)) : option Bounds :=
  match pts with
  | [] => None
  | p :: rest =>
      Some (fold_left extend_box rest
              {| dfMinXOut := fst p; dfMinYOut := snd p;
                 dfMaxXOut := fst p; dfMaxYOut := snd p |})
  end.

(** The last step of the estimator as the code computes it, in [int]
    arithmetic, from the bounds it collected:
    [sx = max(0, floor(min_x) + r)], [sy = max(0, floor(min_y) + r)],
    [sw = min(src_W - sx, ceil(max_x) - sx + r)],
    [sh = min(src_H - sy, ceil(max_y) - sy + r)]; nothing where a cast or a
    sum leaves the range of [int]. *)
Definition source_window (b : Bounds) (r src_W src_H : Z)
  : option (Z * Z * Z * Z) :=
  obind (int_floor (dfMinXOut b)) (fun floor_min_x =>
  obind (int_of (floor_min_x + r)) (fun ox =>
  let sx := Z.max 0 ox in
  obind (int_floor (dfMinYOut b)) (fun floor_min_y =>
  obind (int_of (floor_min_y + r)) (fun oy =>
  let sy := Z.max 0 oy in
  obind (int_of (src_W - sx)) (fun rx =>
  obind (int_ceil (dfMaxXOut b)) (fun ceil_max_x =>
  obind (int_of (ceil_max_x - sx)) (fun ex =>
  obind (int_of (ex + r)) (fun ex =>
  obind (int_of (src_H - sy)) (fun ry =>
  obind (int_ceil (dfMaxYOut b)) (fun ceil_max_y =>
  obind (int_of (ceil_max_y - sy)) (fun ey =>
  obind (int_of (ey + r)) (fun ey =>
  Some (sx, sy, Z.min rx ex, Z.min ry ey))))))))))))).

(** *** The window as the specification states it

    Floor and ceiling are those of the exact rational value of the double;
    the bounding box is given by least and greatest elements in the order of
    doubles; the formula is computed in unbounded integers. *)

Definition floor_of (x : double) : option Z :=
  option_map Qfloor (double_exact x).

Definition ceil_of (x : double) : option Z :=
  option_map Qceiling (double_exact x).

(** [m] is an element of [l] below (above) every element of [l]. *)
Definition least (m : double) (l : list double) : Prop :=
  In m l /\ forallb (fun x => PrimFloat.leb m x) l = true.

Definition greatest (m : double) (l : list double) : Prop :=
  In m l /\ forallb (fun x => PrimFloat.leb x m) l = true.

(** [sx = max(0, floor(min_x) + r)], [sy = max(0, floor(min_y) + r)],
    [sw = min(src_W - sx, ceil(max_x) - sx + r)],
    [sh = min(src_H - sy, ceil(max_y) - sy + r)], from the four integer
    parts. *)
Definition window_formula (floor_min_x floor_min_y ceil_max_x ceil_max_y : Z)
  (r src_W src_H : Z) : Z * Z * Z * Z :=
  let sx := Z.max 0 (floor_min_x + r) in
  let sy := Z.max 0 (floor_min_y + r) in
  let sw := Z.min (src_W - sx) (ceil_max_x - sx + r) in
  let sh := Z.min (src_H - sy) (ceil_max_y - sy + r) in
  (sx, sy, sw, sh).

Definition fits_int (z : Z) : Prop := INT_MIN <= z <= INT_MAX.

(** The four integer parts and every sum and difference of the formula are
    values of [int]. *)
Definition window_fits (floor_min_x floor_min_y ceil_max_x ceil_max_y : Z)
  (r src_W src_H : Z) : Prop :=
  let sx := Z.max 0 (floor_min_x + r) in
  let sy := Z.max 0 (floor_min_y + r) in
  fits_int floor_min_x /\ fits_int (floor_min_x + r)
  /\ fits_int floor_min_y /\ fits_int (floor_min_y + r)
  /\ fits_int (src_W - sx)
  /\ fits_int ceil_max_x /\ fits_int (ceil_max_x - sx)
  /\ fits_int (ceil_max_x - sx + r)
  /\ fits_int (src_H - sy)
  /\ fits_int ceil_max_y /\ fits_int (ceil_max_y - sy)
  /\ fits_int (ceil_max_y - sy + r).

(** The place of a double in the order of doubles: its class (negative
    infinity, negative, zero, positive, positive infinity), then exponent and
    mantissa; a NaN has none. *)
Definition rank (x : double) : option (Z * Z * Z) :=
  match Prim2SF x with
  | S754_nan => None
  | S754_infinity true => Some (-2, 0, 0)
  | S754_infinity false => Some (2, 0, 0)
  | S754_zero _ => Some (0, 0, 0)
  | S754_finite true m e => Some (-1, - e, Z.neg m)
  | S754_finite false m e => Some (1, e, Z.pos m)
  end.

(** Doubles that are not a NaN. *)
Definition ranked (x : double) : Prop := exists a, rank x = Some a.

Definition lex_le (a b : Z * Z * Z) : Prop :=
  let '(a1, a2, a3) := a in
  let '(b1, b2, b3) := b in
  a1 < b1 \/ (a1 = b1 /\ (a2 < b2 \/ (a2 = b2 /\ a3 <= b3))).

(** The two arrays handed to the transformer. *)
Definition sample_x (pts : list sample) : list double :=
  map (fun p => fst (fst p)) pts.
Definition sample_y (pts : list sample) : list double :=
  map (fun p => snd (fst p)) pts.
Definition sample_z (pts : list sample) : list double := map snd pts.

(** The 21 values of [dfRatio] at which the sampling loop emits points. *)
Definition sample_ratios : list double :=
  [ 0; 0.05; 0.1; 0.15000000000000002; 0.2; 0.25; 0.3; 0.35;
    0.39999999999999997; 0.44999999999999996; 0.49999999999999994;
    0.54999999999999993; 0.6; 0.65; 0.70000000000000007;
    0.75000000000000011; 0.80000000000000016; 0.8500000000000002;
    0.90000000000000024; 0.95000000000000029; 1 ]%float.


(** Bits per pixel of the memory cost model. *)

Section CostModel.
Context {collaborators : Collaborators}.

Definition working_type_bits (o : GDALWarpOptions) : Z :=
  GDALGetDataTypeSize (eWorkingDataType o).

Definition src_bits_per_pixel (o : GDALWarpOptions) : Z :=
  working_type_bits o * nBandCount o
  + (if is_null (pfnSrcDensityMaskFunc o) then 0 else 32)
  + (if is_null (papfnSrcPerBandValidityMaskFunc o)
        && is_null (padfSrcNoDataReal o) then 0 else nBandCount o)
  + (if is_null (pfnSrcValidityMaskFunc o) then 0 else 1).

Definition dst_bits_per_pixel (o : GDALWarpOptions) : Z :=
  working_type_bits o * nBandCount o
  + (if is_null (pfnDstDensityMaskFunc o) then 0 else 32)
  + (if is_null (padfDstNoDataReal o)
        && is_null (pfnDstValidityMaskFunc o) then 0 else nBandCount o).

(** Total bytes = (src_bits_per_pixel * sw * sh + dst_bits_per_pixel * dw * dh) / 8,
    in double arithmetic. *)
Definition total_bytes (o : GDALWarpOptions) (sw sh dw dh : Z) : double :=
  ((double_of_int (src_bits_per_pixel o) * double_of_int sw * double_of_int sh
    + double_of_int (dst_bits_per_pixel o) * double_of_int dw
      * double_of_int dh) / 8)%float.

(** The chunk is over budget and may still be split. *)
Definition must_split (o : GDALWarpOptions) (sw sh dw dh : Z) : bool :=
  PrimFloat.ltb (dfWarpMemoryLimit o) (total_bytes o sw sh dw dh)
  && ((2 <? dw) || (2 <? dh)).

End CostModel.

(** The two halves of a split along the longer dimension, lower half first. *)
Definition split_chunk (dx dy dw dh : Z) : (Z * Z * Z * Z) * (Z * Z * Z * Z) :=
  if dh <? dw then
    let c1 := Z.quot dw 2 in
    let c2 := dw - c1 in
    ((dx, dy, c1, dh), (dx + c1, dy, c2, dh))
  else
    let c1 := Z.quot dh 2 in
    let c2 := dh - c1 in
    ((dx, dy, dw, c1), (dx, dy + c1, dw, c2)).

(** Pixel [(px, py)] lies in the rectangle. *)
Definition in_rect (r : Z * Z * Z * Z) (px py : Z) : bool :=
  let '(x, y, w, h) := r in
  (x <=? px) && (px <? x + w) && (y <=? py) && (py <? y + h).

(** The destination rectangles of the calls of [WarpRegion] in a history. *)
Fixpoint leaf_chunks (evs : list event) : list (Z * Z * Z * Z) :=
  match evs with
  | [] => []
  | EvWarpRegion x y w h _ _ _ _ :: rest => (x, y, w, h) :: leaf_chunks rest
  | _ :: rest => leaf_chunks rest
  end.

(** How many of the rectangles hold the pixel. *)
Definition covering (l : list (Z * Z * Z * Z)) (px py : Z) : nat :=
  List.length (filter (fun r => in_rect r px py) l).

(** The rectangles tile [r]: each pixel of [r] lies in exactly one of them and
    no other pixel lies in any. *)
Definition tiles (l : list (Z * Z * Z * Z)) (r : Z * Z * Z * Z) : Prop :=
  forall px py, covering l px py = if in_rect r px py then 1%nat else 0%nat.

(** The events added to the history between two states. *)
Definition new_calls (st st' : GDALWarpOperation) : list event :=
  skipn (List.length (calls st)) (calls st').

Definition add_calls (st : GDALWarpOperation) (evs : list event)
  : GDALWarpOperation :=
  {| psOptions := psOptions st;
     dfProgressBase := dfProgressBase st;
     dfProgressScale := dfProgressScale st;
     calls := calls st ++ evs |}.

(** Ceiling of [n / 8]. *)
Definition ceil_div8 (n : Z) : Z := Qceiling (n # 8).

(** The byte size of a mask plane over a [W] x [H] window. *)
Definition plane_bytes (bits W H : Z) : Z :=
  if bits =? 32 then W * H * 4 else ceil_div8 (W * H).

(** The byte count of the plane can be computed in [int]: [W*H*4] for a
    density plane, [W*H + 7] for a validity plane, do not exceed the largest
    [int]. *)
Definition plane_fits (bits W H : Z) : Prop :=
  if bits =? 32 then W * H * 4 <= INT_MAX else W * H + 7 <= INT_MAX.

(** The 84 points on the edge of the destination rectangle. *)
Definition edge_points (dx dy dw dh : Z) : list sample :=
  flat_map (fun t => edge_samples t dx dy dw dh) sample_ratios.

(** The diagnostics of the estimator. *)
Definition ev_refused : event :=
  EvCPLError CE_Failure CPLE_AppDefined
    (String.append "GDALWarperOperation::ComputeSourceWindow() failed because"
       (String.append LF "the pfnTransformer failed.")).
Definition ev_too_many : event :=
  EvCPLError CE_Failure CPLE_AppDefined
    (String.append "Too many points (%d out of %d) failed to transform,"
       (String.append LF "unable to compute output bounds.")).
Definition ev_some_failed : event :=
  EvCPLDebug
    "GDALWarpOperation::ComputeSourceWindow() %d out of %d points failed to transform.".

(** Steps 3 to 7 of the estimator, from the answer of the transformer to the
    batch, the number of failed points and the bounding box of the
    survivors: the result and the diagnostics, or nothing where a bound has
    no integer part or the source dataset is missing. *)
Definition outcome_of (o : GDALWarpOptions) (ok : bool) (failed : Z)
  (box : option Bounds)
  : option ((CPLErr * option (Z * Z * Z * Z)) * list event) :=
  if negb ok then Some ((CE_Failure, None), [ev_refused])
  else if 84 - 10 <? failed then Some ((CE_Failure, None), [ev_too_many])
  else
    match box, hSrcDS o with
    | Some b, Some src =>
        match source_window b (resampling_half_width (eResampleAlg o))
                (GDALGetRasterXSize src) (GDALGetRasterYSize src) with
        | Some w =>
            Some ((CE_None, Some w),
                  if 0 <? failed then [ev_some_failed] else [])
        | None => None
        end
    | _, _ => None
    end.

Definition estimator_outcome (o : GDALWarpOptions) (out : TransformOut)
  : option ((CPLErr * option (Z * Z * Z * Z)) * list event) :=
  outcome_of o (tr_ok out) (failures out 84)
             (bounding_box (survivors out 84)).

(** What the transformer answers when [ComputeSourceWindow] runs in state
    [st] on a destination rectangle. *)
Definition transformed (f : GDALTransformerFunc) (st : GDALWarpOperation)
  (dx dy dw dh : Z) : TransformOut :=
  f (calls st) true (sample_x (edge_points dx dy dw dh))
    (sample_y (edge_points dx dy dw dh)) (sample_z (edge_points dx dy dw dh)).

Definition ev_transformer (dx dy dw dh : Z) : event :=
  EvTransformer true (sample_x (edge_points dx dy dw dh))
    (sample_y (edge_points dx dy dw dh)) (sample_z (edge_points dx dy dw dh)).

(** Auxiliaries of the proofs about the loop that collects the bounds. *)
Definition survivors_at (out : TransformOut) (l : list nat)
  : list (double * double) :=
  map (fun i => (nth i (tr_x out) 0%float, nth i (tr_y out) 0%float))
      (filter (fun i => nth i (tr_success out) false) l).

Definition grow (b : option Bounds) (pts : list (double * double))
  : option Bounds :=
  match b with
  | None => bounding_box pts
  | Some b => Some (fold_left extend_box pts b)
  end.

(** The operation with its two progress fields set. *)
Definition with_progress (st : GDALWarpOperation) (base scale : double)
  : GDALWarpOperation :=
  {| psOptions := psOptions st;
     dfProgressBase := base;
     dfProgressScale := scale;
     calls := calls st |}.

(** The split path of the chunker, from the state left by the estimator:
    save the progress pair and halve the scale, recurse on the lower half,
    on success advance the base by the halved scale and recurse on the upper
    half, restore the saved pair. *)
Definition split_path (recurse : Z -> Z -> Z -> Z -> M CPLErr)
  (dx dy dw dh : Z) (st1 : GDALWarpOperation)
  : option (CPLErr * GDALWarpOperation) :=
  let save_base := dfProgressBase st1 in
  let save_scale := dfProgressScale st1 in
  let '((x1, y1, w1, h1), (x2, y2, w2, h2)) := split_chunk dx dy dw dh in
  match recurse x1 y1 w1 h1
          (with_progress st1 save_base (save_scale * 0.5)%float) with
  | None => None
  | Some (CE_None, st2) =>
      match recurse x2 y2 w2 h2
              (with_progress st2
                 (dfProgressBase st2 + dfProgressScale st2)%float
                 (dfProgressScale st2)) with
      | None => None
      | Some (eErr, st3) => Some (eErr, with_progress st3 save_base save_scale)
      end
  | Some (eErr, st2) => Some (eErr, with_progress st2 save_base save_scale)
  end.

(** Every event but the record of a call of [WarpRegion]. *)
Definition not_WarpRegion (e : event) : Prop :=
  match e with
  | EvWarpRegion _ _ _ _ _ _ _ _ => False
  | _ => True
  end.

(** A computation that leaves the fields of the operation alone and only adds
    calls of collaborators to the history. *)
Definition appends {A} (c : M A) : Prop :=
  forall st a st', c st = Some (a, st') ->
    exists evs, st' = add_calls st evs /\ Forall not_WarpRegion evs.

(** No allocation, no raster I/O, no kernel and no region executor. *)
Definition harmless (e : event) : Prop :=
  match e with
  | EvVSIMalloc _ _ | EvVSIFree | EvRasterIO _ _ _ _ _ _ _ _
  | EvPerformWarp _ | EvWarpRegion _ _ _ _ _ _ _ _ => False
  | EvCPLError _ _ _ | EvCPLDebug _ | EvTransformer _ _ _ _ => True
  end.

(** The mask planes of the data model: name, window, bits per pixel and
    default fill byte. *)
Inductive MaskName :=
| BandSrcValid | UnifiedSrcValid | UnifiedSrcDensity | DstValid | DstDensity.

Definition mask_name (m : MaskName) : string :=
  match m with
  | BandSrcValid => "BandSrcValid"
  | UnifiedSrcValid => "UnifiedSrcValid"
  | UnifiedSrcDensity => "UnifiedSrcDensity"
  | DstValid => "DstValid"
  | DstDensity => "DstDensity"
  end.

Definition mask_bits (m : MaskName) : Z :=
  match m with
  | BandSrcValid | UnifiedSrcValid | DstValid => 1
  | UnifiedSrcDensity | DstDensity => 32
  end.

Definition mask_default (m : MaskName) : Z :=
  match m with
  | BandSrcValid | UnifiedSrcValid | DstValid => 255
  | UnifiedSrcDensity | DstDensity => 0
  end.

(** Source planes cover the source window, destination planes the
    destination window. *)
Definition mask_window (m : MaskName) (k : GDALWarpKernel) : Z * Z :=
  match m with
  | BandSrcValid | UnifiedSrcValid | UnifiedSrcDensity =>
      (WK.nSrcXSize k, WK.nSrcYSize k)
  | DstValid | DstDensity => (WK.nDstXSize k, WK.nDstYSize k)
  end.

Definition mask_slot (m : MaskName) (iBand : Z) : MaskSlot :=
  match m with
  | BandSrcValid => SlotBandSrcValid iBand
  | UnifiedSrcValid => SlotUnifiedSrcValid
  | UnifiedSrcDensity => SlotUnifiedSrcDensity
  | DstValid => SlotDstValid
  | DstDensity => SlotDstDensity
  end.

(** The kernel once the outer array of the per-band planes exists: it is
    allocated, all entries null, the first time BandSrcValid is asked for. *)
Definition with_band_array (m : MaskName) (k : GDALWarpKernel)
  : GDALWarpKernel :=
  match m, WK.papanBandSrcValid k with
  | BandSrcValid, None =>
      with_masks k (Some (repeat None (Z.to_nat (WK.nBands k))))
        (WK.panUnifiedSrcValid k) (WK.pafUnifiedSrcDensity k)
        (WK.panDstValid k) (WK.pafDstDensity k)
  | _, _ => k
  end.

Definition unknown_mask (name : string) : Prop :=
  forall m, EQUAL name (mask_name m) = false.

Definition ev_unknown_mask : event :=
  EvCPLError CE_Failure CPLE_AppDefined
    "Internal error in CreateKernelMask(%s).".

(** ** Test doubles and sample inputs *)

Module Example.

(** The bit widths of the raster types of gdal.h. *)
Definition type_bits (t : GDALDataType) : Z :=
  match t with
  | 1 => 8
  | 2 | 3 => 16
  | 4 | 5 | 6 | 8 => 32
  | 7 | 9 | 10 => 64
  | 11 => 128
  | _ => 0
  end.

(** An allocator that never fails, a raster whose pixels are all zero, a
    kernel that leaves the destination planes as they are, no option set. *)
#[export] Instance plain : Collaborators := {|
  GDALGetDataTypeSize := type_bits;
  CSLFetchNameValue := fun _ _ => None;
  CPLStringToComplex := fun _ => (0%float, 0%float);
  GDALCopyWords := fun _ _ _ nWordSize n => memset 0 (nWordSize * n);
  GDALWarpNoDataMasker := fun _ _ _ _ _ _ _ mask => (CE_None, mask);
  VSIMalloc := fun _ _ => true;
  RasterIO_Read := fun _ _ _ _ _ w h t =>
                     (CE_None, memset 0 (w * h * Z.quot (type_bits t) 8));
  RasterIO_Write := fun _ _ _ _ _ _ _ _ _ => CE_None;
  PerformWarp := fun _ k => (CE_None, WK.papabyDstImage k)
|}.

(** The same, but the allocator always runs out of memory. *)
Definition no_memory : Collaborators := {|
  GDALGetDataTypeSize := type_bits;
  CSLFetchNameValue := fun _ _ => None;
  CPLStringToComplex := fun _ => (0%float, 0%float);
  GDALCopyWords := fun _ _ _ nWordSize n => memset 0 (nWordSize * n);
  GDALWarpNoDataMasker := fun _ _ _ _ _ _ _ mask => (CE_None, mask);
  VSIMalloc := fun _ _ => false;
  RasterIO_Read := fun _ _ _ _ _ w h t =>
                     (CE_None, memset 0 (w * h * Z.quot (type_bits t) 8));
  RasterIO_Write := fun _ _ _ _ _ _ _ _ _ => CE_None;
  PerformWarp := fun _ k => (CE_None, WK.papabyDstImage k)
|}.

Definition all_true (l : list double) : list bool := map (fun _ => true) l.

(** Destination and source pixel coordinates coincide. *)
Definition identity : GDALTransformerFunc :=
  fun _ _ x y z =>
    {| tr_ok := true; tr_x := x; tr_y := y; tr_z := z;
       tr_success := all_true x |}.

(** The whole batch is refused. *)
Definition refuse : GDALTransformerFunc :=
  fun _ _ x y z =>
    {| tr_ok := false; tr_x := x; tr_y := y; tr_z := z;
       tr_success := map (fun _ => false) x |}.

(** Only the first [n] points transform. *)
Definition first_only (n : nat) : GDALTransformerFunc :=
  fun _ _ x y z =>
    {| tr_ok := true; tr_x := x; tr_y := y; tr_z := z;
       tr_success := map (fun i => Nat.ltb i n) (seq 0 (List.length x)) |}.

(** Source pixel = destination pixel + (dx, dy). *)
Definition shift (dx dy : double) : GDALTransformerFunc :=
  fun _ _ x y z =>
    {| tr_ok := true;
       tr_x := map (fun v => (v + dx)%float) x;
       tr_y := map (fun v => (v + dy)%float) y;
       tr_z := z;
       tr_success := all_true x |}.

(** Points land alternately on the two corners of a box. *)
Definition corners (x0 y0 x1 y1 : double) : GDALTransformerFunc :=
  fun _ _ x y z =>
    {| tr_ok := true;
       tr_x := map (fun i => if Nat.even i then x0 else x1)
                   (seq 0 (List.length x));
       tr_y := map (fun i => if Nat.even i then y0 else y1)
                   (seq 0 (List.length y));
       tr_z := z;
       tr_success := all_true x |}.

Definition byte_band : GDALRasterBand :=
  {| eAccess := GA_Update; eDataType := GDT_Byte |}.

Definition raster (w h : Z) : GDALDataset :=
  {| nRasterXSize := w; nRasterYSize := h; papoBands := [byte_band] |}.

(** One byte band on each side, everything else left to its default. *)
Definition warp_options (alg : GDALResampleAlg) (limit : double)
  (src dst : GDALDataset) (f : GDALTransformerFunc) : GDALWarpOptions :=
  {| papszWarpOptions := [];
     dfWarpMemoryLimit := limit;
     eResampleAlg := alg;
     eWorkingDataType := GDT_Unknown;
     hSrcDS := Some src; hDstDS := Some dst;
     nBandCount := 0; panSrcBands := None; panDstBands := None;
     padfSrcNoDataReal := None; padfSrcNoDataImag := None;
     padfDstNoDataReal := None; padfDstNoDataImag := None;
     pfnProgress := Some (Fn 0); pfnTransformer := Some f;
     papfnSrcPerBandValidityMaskFunc := None;
     pfnSrcValidityMaskFunc := None;
     pfnSrcDensityMaskFunc := None;
     pfnDstDensityMaskFunc := None;
     pfnDstValidityMaskFunc := None |}.

(** The operation after [Initialize] accepted the options. *)
Definition initialized (o : GDALWarpOptions) : GDALWarpOperation :=
  match Initialize o new_GDALWarpOperation with
  | Some (CE_None, st) => st
  | _ => new_GDALWarpOperation
  end.

(** The operation holding options that did not go through [Initialize]. *)
Definition holding (o : GDALWarpOptions) : GDALWarpOperation :=
  {| psOptions := Some o;
     dfProgressBase := 0%float; dfProgressScale := 1%float; calls := [] |}.

(** What [Initialize] makes of [warp_options]. *)
Definition defaulted (o : GDALWarpOptions) : GDALWarpOptions :=
  default_memory_limit (with_working_type (default_band_mapping o) GDT_Byte).

(** A 300 x 300 source and destination, 64MB of memory. *)
Definition options_300 (alg : GDALResampleAlg) (f : GDALTransformerFunc)
  : GDALWarpOptions :=
  warp_options alg 0 (raster 300 300) (raster 300 300) f.

Definition warp_300 (alg : GDALResampleAlg) (f : GDALTransformerFunc)
  : GDALWarpOperation :=
  initialized (options_300 alg f).

(** Cubic resampling; the edge points land on the corners of
    [100.3, 200.7] x [50.2, 60.9]. *)
Definition cubic_box : GDALWarpOperation :=
  warp_300 GRA_Cubic (corners 100.3 50.2 200.7 60.9).

(** Nearest neighbour; the destination maps 500 pixels to the right of and
    below its own position, off the 300 x 300 source. *)
Definition off_image : GDALWarpOperation :=
  warp_300 GRA_NearestNeighbour (shift 500 500).

(** A 10 x 10 byte raster warped onto itself with a budget of 100 bytes. *)
Definition tight_budget (f : GDALTransformerFunc) : GDALWarpOperation :=
  holding (default_band_mapping
             (with_working_type
                (warp_options GRA_NearestNeighbour 100 (raster 10 10)
                              (raster 10 10) f)
                GDT_Byte)).

(** Options with the destination no-data sequences replaced. *)
Definition with_dst_nodata (o : GDALWarpOptions)
  (re im : option (list double)) : GDALWarpOptions :=
  {| papszWarpOptions := papszWarpOptions o;
     dfWarpMemoryLimit := dfWarpMemoryLimit o;
     eResampleAlg := eResampleAlg o;
     eWorkingDataType := eWorkingDataType o;
     hSrcDS := hSrcDS o; hDstDS := hDstDS o;
     nBandCount := nBandCount o;
     panSrcBands := panSrcBands o; panDstBands := panDstBands o;
     padfSrcNoDataReal := padfSrcNoDataReal o;
     padfSrcNoDataImag := padfSrcNoDataImag o;
     padfDstNoDataReal := re;
     padfDstNoDataImag := im;
     pfnProgress := pfnProgress o; pfnTransformer := pfnTransformer o;
     papfnSrcPerBandValidityMaskFunc := papfnSrcPerBandValidityMaskFunc o;
     pfnSrcValidityMaskFunc := pfnSrcValidityMaskFunc o;
     pfnSrcDensityMaskFunc := pfnSrcDensityMaskFunc o;
     pfnDstDensityMaskFunc := pfnDstDensityMaskFunc o;
     pfnDstValidityMaskFunc := pfnDstValidityMaskFunc o |}.

(** A kernel over a 5 x 3 source window and a 4 x 4 destination window. *)
Definition small_kernel : GDALWarpKernel :=
  {| WK.papszWarpOptions := []; WK.eResample := GRA_NearestNeighbour;
     WK.eWorkingDataType := GDT_Byte; WK.nBands := 2;
     WK.nSrcXSize := 5; WK.nSrcYSize := 3; WK.papabySrcImage := [];
     WK.papanBandSrcValid := None; WK.panUnifiedSrcValid := None;
     WK.pafUnifiedSrcDensity := None;
     WK.nDstXSize := 4; WK.nDstYSize := 4; WK.papabyDstImage := [];
     WK.panDstValid := None; WK.pafDstDensity := None;
     WK.nSrcXOff := 0; WK.nSrcYOff := 0; WK.nDstXOff := 0; WK.nDstYOff := 0;
     WK.dfProgressBase := 0%float; WK.dfProgressScale := 1%float |}.

(** A kernel over 30000 x 30000 windows. *)
Definition large_kernel : GDALWarpKernel :=
  {| WK.papszWarpOptions := []; WK.eResample := GRA_NearestNeighbour;
     WK.eWorkingDataType := GDT_Byte; WK.nBands := 1;
     WK.nSrcXSize := 30000; WK.nSrcYSize := 30000; WK.papabySrcImage := [];
     WK.papanBandSrcValid := None; WK.panUnifiedSrcValid := None;
     WK.pafUnifiedSrcDensity := None;
     WK.nDstXSize := 30000; WK.nDstYSize := 30000; WK.papabyDstImage := [];
     WK.panDstValid := None; WK.pafDstDensity := None;
     WK.nSrcXOff := 0; WK.nSrcYOff := 0; WK.nDstXOff := 0; WK.nDstYOff := 0;
     WK.dfProgressBase := 0%float; WK.dfProgressScale := 1%float |}.

(** The status and the final state of a run, for runs that are defined. *)
Definition status {A} (r : option (A * GDALWarpOperation)) (d : A) : A :=
  match r with Some (a, _) => a | None => d end.

Definition final {A} (r : option (A * GDALWarpOperation))
  (d : GDALWarpOperation) : GDALWarpOperation :=
  match r with Some (_, st) => st | None => d end.

End Example.

(** ** Specifications of the remaining behaviour *)

(** The conditions under which one pair of the band mapping is accepted. *)
Definition band_ok (src dst : GDALDataset) (s d : Z) : bool :=
  (1 <=? s) && (s <=? GDALGetRasterCount src)
  && (1 <=? d) && (d <=? GDALGetRasterCount dst)
  && match GDALGetRasterBand dst d with
     | Some b => match GDALGetRasterAccess b with
                 | GA_Update => true
                 | GA_ReadOnly => false
                 end
     | None => false
     end.

(** What [ValidateOptions] requires of the options. *)
Definition options_valid (o : GDALWarpOptions) : bool :=
  negb (PrimFloat.ltb (dfWarpMemoryLimit o) 100000)
  && ((eResampleAlg o =? GRA_NearestNeighbour)
      || (eResampleAlg o =? GRA_Bilinear)
      || (eResampleAlg o =? GRA_Cubic))
  && match hSrcDS o, hDstDS o, panSrcBands o, panDstBands o with
     | Some src, Some dst, Some s, Some d =>
         negb (nBandCount o =? 0)
         && forallb (fun i => band_ok src dst (nth (Z.to_nat i) s 0)
                                      (nth (Z.to_nat i) d 0))
                    (upto (nBandCount o))
     | _, _, _, _ => false
     end
  && (is_null (padfSrcNoDataReal o) || negb (is_null (padfSrcNoDataImag o)))
  && negb (is_null (pfnProgress o))
  && negb (is_null (pfnTransformer o)).

(** Both band arrays, when set, hold at least [nBandCount] entries. *)
Definition bands_cover (o : GDALWarpOptions) : Prop :=
  match panSrcBands o, panDstBands o with
  | Some s, Some d =>
      nBandCount o <= Z.of_nat (List.length s)
      /\ nBandCount o <= Z.of_nat (List.length d)
  | _, _ => True
  end.

(** The verdict of a validation step: acceptance changes nothing, rejection
    adds exactly one error report. *)
Definition verdict (st : GDALWarpOperation) (b : bool)
  (st' : GDALWarpOperation) : Prop :=
  if b then st' = st
  else exists fmt,
      st' = add_calls st [EvCPLError CE_Failure CPLE_IllegalArg fmt].

(** The operation with its options replaced. *)
Definition with_options (st : GDALWarpOperation)
  (o : option GDALWarpOptions) : GDALWarpOperation :=
  {| psOptions := o;
     dfProgressBase := dfProgressBase st;
     dfProgressScale := dfProgressScale st;
     calls := calls st |}.

(** The fields of the options that [Initialize] never defaults. *)
Definition keeps_request (o0 o : GDALWarpOptions) : Prop :=
  papszWarpOptions o = papszWarpOptions o0
  /\ eResampleAlg o = eResampleAlg o0
  /\ hSrcDS o = hSrcDS o0 /\ hDstDS o = hDstDS o0
  /\ padfSrcNoDataReal o = padfSrcNoDataReal o0
  /\ padfSrcNoDataImag o = padfSrcNoDataImag o0
  /\ padfDstNoDataReal o = padfDstNoDataReal o0
  /\ padfDstNoDataImag o = padfDstNoDataImag o0
  /\ pfnProgress o = pfnProgress o0
  /\ pfnTransformer o = pfnTransformer o0
  /\ papfnSrcPerBandValidityMaskFunc o = papfnSrcPerBandValidityMaskFunc o0
  /\ pfnSrcValidityMaskFunc o = pfnSrcValidityMaskFunc o0
  /\ pfnSrcDensityMaskFunc o = pfnSrcDensityMaskFunc o0
  /\ pfnDstDensityMaskFunc o = pfnDstDensityMaskFunc o0
  /\ pfnDstValidityMaskFunc o = pfnDstValidityMaskFunc o0.

(** The band mapping 1, 2, ..., n. *)
Definition identity_mapping (n : Z) : list Z := map (fun i => i + 1) (upto n).


(** The diagnostics [ComputeSourceWindow] may add after the transformer
    call: none, or one of its three messages. *)
Definition estimator_diagnostics (l : list event) : Prop :=
  l = [] \/ l = [ev_refused] \/ l = [ev_too_many] \/ l = [ev_some_failed].

Section LeafSpecs.
Context {collaborators : Collaborators}.

(** A recorded call of [WarpRegion] respects the memory budget of [o]: its
    chunk is within budget, or has no side above 2 pixels. *)
Definition within_budget (o : GDALWarpOptions) (e : event) : Prop :=
  match e with
  | EvWarpRegion dx dy dw dh sx sy sw sh =>
      PrimFloat.ltb (dfWarpMemoryLimit o) (total_bytes o sw sh dw dh) = false
      \/ (dw <= 2 /\ dh <= 2)
  | _ => True
  end.

End LeafSpecs.

(** No pixel lies in two of the rectangles, and none outside [r] lies in
    any. *)
Definition packs (l : list (Z * Z * Z * Z)) (r : Z * Z * Z * Z) : Prop :=
  forall px py,
    (covering l px py <= if in_rect r px py then 1 else 0)%nat.

(** The fields of the operation other than the history. *)
Definition frame_of (st : GDALWarpOperation)
  : option GDALWarpOptions * double * double :=
  (psOptions st, dfProgressBase st, dfProgressScale st).

(** From a state with fields [fr], a completed run of [c] returns a value
    satisfying [Q], leaves the fields alone and adds to the history only
    events satisfying [P]. *)
Definition hoare {A} (fr : option GDALWarpOptions * double * double)
  (P : event -> Prop) (c : M A) (Q : A -> Prop) : Prop :=
  forall st a st',
    frame_of st = fr -> c st = Some (a, st') ->
    Q a /\ exists evs, st' = add_calls st evs /\ Forall P evs.

(** The window is the one handed in, unless both its sizes are zero, which
    asks for it to be computed. *)
Definition window_as_given (sx sy sw sh wx wy ww wh : Z) : Prop :=
  (sw =? 0) && (sh =? 0) = false -> (wx, wy, ww, wh) = (sx, sy, sw, sh).

(** The scalar part of the kernel descriptor set up by
    [WarpRegionToBuffer] for options [o], progress pair [(base, scale)],
    destination rectangle [(dx, dy, dw, dh)] and source window
    [(wx, wy, ww, wh)]. *)
Definition kernel_scalars (o : GDALWarpOptions) (base scale : double)
  (dx dy dw dh wx wy ww wh : Z) (k : GDALWarpKernel) : Prop :=
  WK.papszWarpOptions k = papszWarpOptions o
  /\ WK.eResample k = eResampleAlg o
  /\ WK.eWorkingDataType k = eWorkingDataType o
  /\ WK.nBands k = nBandCount o
  /\ WK.dfProgressBase k = base /\ WK.dfProgressScale k = scale
  /\ (WK.nDstXOff k, WK.nDstYOff k, WK.nDstXSize k, WK.nDstYSize k)
     = (dx, dy, dw, dh)
  /\ (WK.nSrcXOff k, WK.nSrcYOff k, WK.nSrcXSize k, WK.nSrcYSize k)
     = (wx, wy, ww, wh).

(** The kernel is handed a descriptor for this chunk, with every source band
    buffer in place. *)
Definition kernel_contract (o : GDALWarpOptions) (base scale : double)
  (dx dy dw dh sx sy sw sh : Z) (e : event) : Prop :=
  match e with
  | EvPerformWarp k =>
      exists wx wy ww wh,
        window_as_given sx sy sw sh wx wy ww wh
        /\ kernel_scalars o base scale dx dy dw dh wx wy ww wh k
  | _ => True
  end.

(** Raster I/O stays in its windows: the destination dataset is read and
    written on the chunk only, the source dataset is only read, and on the
    source window when one was handed in. *)
Definition io_confined (dx dy dw dh sx sy sw sh : Z) (e : event) : Prop :=
  match e with
  | EvRasterIO _ DstDS _ x y w h _ => (x, y, w, h) = (dx, dy, dw, dh)
  | EvRasterIO GF_Write SrcDS _ _ _ _ _ _ => False
  | EvRasterIO GF_Read SrcDS _ x y w h _ =>
      window_as_given sx sy sw sh x y w h
  | _ => True
  end.

Definition no_destination_read (e : event) : Prop :=
  match e with
  | EvRasterIO GF_Read DstDS _ _ _ _ _ _ => False
  | _ => True
  end.

(** Everything of the kernel descriptor but its mask planes. *)
Definition kernel_core (k : GDALWarpKernel) :=
  (WK.papszWarpOptions k, WK.eResample k, WK.eWorkingDataType k, WK.nBands k,
   (WK.nSrcXOff k, WK.nSrcYOff k, WK.nSrcXSize k, WK.nSrcYSize k),
   (WK.nDstXOff k, WK.nDstYOff k, WK.nDstXSize k, WK.nDstYSize k),
   (WK.dfProgressBase k, WK.dfProgressScale k),
   WK.papabySrcImage k, WK.papabyDstImage k).

Definition no_write (e : event) : Prop :=
  match e with
  | EvRasterIO GF_Write _ _ _ _ _ _ _ => False
  | _ => True
  end.

(** A window handed in is used as it is: the transformer is not consulted
    and the source bands are read on that window. *)
Definition uses_window (sx sy sw sh : Z) (e : event) : Prop :=
  match e with
  | EvTransformer _ _ _ _ => False
  | EvRasterIO GF_Read SrcDS _ x y w h _ => (x, y, w, h) = (sx, sy, sw, sh)
  | _ => True
  end.

Module Scenario.

(** As [Example.plain], with the INIT_DEST option set to 0. *)
Definition init_dest : Collaborators := {|
  GDALGetDataTypeSize := Example.type_bits;
  CSLFetchNameValue :=
    fun _ key => if String.eqb key "INIT_DEST" then Some "0"%string else None;
  CPLStringToComplex := fun _ => (0%float, 0%float);
  GDALCopyWords := fun _ _ _ nWordSize n => memset 0 (nWordSize * n);
  GDALWarpNoDataMasker := fun _ _ _ _ _ _ _ mask => (CE_None, mask);
  VSIMalloc := fun _ _ => true;
  RasterIO_Read := fun _ _ _ _ _ w h t =>
                     (CE_None,
                      memset 0 (w * h * Z.quot (Example.type_bits t) 8));
  RasterIO_Write := fun _ _ _ _ _ _ _ _ _ => CE_None;
  PerformWarp := fun _ k => (CE_None, WK.papabyDstImage k)
|}.

(** As [Example.plain], with a kernel that always fails. *)
Definition failing_kernel : Collaborators := {|
  GDALGetDataTypeSize := Example.type_bits;
  CSLFetchNameValue := fun _ _ => None;
  CPLStringToComplex := fun _ => (0%float, 0%float);
  GDALCopyWords := fun _ _ _ nWordSize n => memset 0 (nWordSize * n);
  GDALWarpNoDataMasker := fun _ _ _ _ _ _ _ mask => (CE_None, mask);
  VSIMalloc := fun _ _ => true;
  RasterIO_Read := fun _ _ _ _ _ w h t =>
                     (CE_None,
                      memset 0 (w * h * Z.quot (Example.type_bits t) 8));
  RasterIO_Write := fun _ _ _ _ _ _ _ _ _ => CE_None;
  PerformWarp := fun _ k => (CE_Failure, WK.papabyDstImage k)
|}.

(** The options of [Example.tight_budget]. *)
Definition options_10 (f : GDALTransformerFunc) : GDALWarpOptions :=
  default_band_mapping
    (with_working_type
       (Example.warp_options GRA_NearestNeighbour 100 (Example.raster 10 10)
                             (Example.raster 10 10) f)
       GDT_Byte).

End Scenario.

(** What an event does to the number of buffers held: a successful
    [VSIMalloc] takes one, [VSIFree] gives one back. *)
Definition allocation (e : event) : Z :=
  match e with
  | EvVSIMalloc _ true => 1
  | EvVSIFree => -1
  | _ => 0
  end.

(** The sum of the weights [mu] gives to the events of a run. *)
Definition weigh (mu : event -> Z) (evs : list event) : Z :=
  fold_right (fun e n => mu e + n) 0 evs.

(** Buffers taken and not given back over a run of events. *)
Definition held (evs : list event) : Z := weigh allocation evs.

(** As [hoare], for a sum over the events: a completed run of [c] leaves
    the fields alone and its value [a] and the sum [n] of the weights of its
    events satisfy [Q a n]. *)
Definition hoareN {A} (fr : option GDALWarpOptions * double * double)
  (mu : event -> Z) (c : M A) (Q : A -> Z -> Prop) : Prop :=
  forall st a st',
    frame_of st = fr -> c st = Some (a, st') ->
    exists evs, st' = add_calls st evs /\ Q a (weigh mu evs).

(** Weight [a] for a run of the kernel, [b] for a write of a raster band,
    nothing for any other event. *)
Definition tally (a b : Z) (e : event) : Z :=
  match e with
  | EvPerformWarp _ => a
  | EvRasterIO GF_Write _ _ _ _ _ _ _ => b
  | _ => 0
  end.

(** The source band buffers in place. *)
Definition buffers (img : list (option bytes)) : Z :=
  fold_right (fun b n => (if is_null b then 0 else 1) + n) 0 img.

(** Every pixel of window [w] is a pixel of rectangle [r]. *)
Definition within (r w : Z * Z * Z * Z) : Prop :=
  forall px py, in_rect w px py = true -> in_rect r px py = true.

(** Raster I/O that stays in rectangle [r] of the destination and does not
    write the source. *)
Definition io_within (r : Z * Z * Z * Z) (e : event) : Prop :=
  match e with
  | EvRasterIO _ DstDS _ x y w h _ => within r (x, y, w, h)
  | EvRasterIO GF_Write SrcDS _ _ _ _ _ _ => False
  | _ => True
  end.

(** The events of a call of [WarpRegion]: the record of the call, then calls
    of collaborators. *)
Definition region_record (r w : Z * Z * Z * Z) (e : CPLErr)
  (evs : list event) : Prop :=
  let '(dx, dy, dw, dh) := r in
  let '(sx, sy, sw, sh) := w in
  exists evs',
    evs = EvWarpRegion dx dy dw dh sx sy sw sh :: evs'
    /\ Forall not_WarpRegion evs'.

(** A call of the allocator or of the error reporter. *)
Definition allocator_or_error (e : event) : Prop :=
  match e with
  | EvVSIMalloc _ _ | EvCPLError _ _ _ => True
  | _ => False
  end.

(** Runs of the kernel and writes of a raster band in a history. *)
Definition kernel_runs (evs : list event) : Z := weigh (tally 1 0) evs.
Definition band_writes (evs : list event) : Z := weigh (tally 0 1) evs.
(** * Properties *)

(** ** Histories and the monad *)

Lemma add_calls_nil st : add_calls st [] = st.
Proof. destruct st; unfold add_calls; simpl. now rewrite app_nil_r. Qed.

Lemma add_calls_app st l1 l2 :
  add_calls (add_calls st l1) l2 = add_calls st (l1 ++ l2).
Proof. unfold add_calls; simpl. now rewrite app_assoc. Qed.

Lemma emit_run e st : emit e st = Some (tt, add_calls st [e]).
Proof. reflexivity. Qed.

Lemma new_calls_add st evs : new_calls st (add_calls st evs) = evs.
Proof.
  unfold new_calls, add_calls; simpl.
  rewrite skipn_app, skipn_all, Nat.sub_diag. reflexivity.
Qed.

Lemma bind_Some {A B} (c : M A) (k : A -> M B) st b st' :
  bind c k st = Some (b, st') ->
  exists a st1, c st = Some (a, st1) /\ k a st1 = Some (b, st').
Proof.
  unfold bind. destruct (c st) as [[a st1]|]; [|discriminate].
  intros H. now exists a, st1.
Qed.

(** ** Values of [int] *)

Lemma int_of_fits z : fits_int z -> int_of z = Some z.
Proof.
  unfold fits_int, int_of. intros [H1 H2].
  destruct (Z.leb_spec INT_MIN z), (Z.leb_spec z INT_MAX); try lia.
  reflexivity.
Qed.

Lemma int_of_Some z v : int_of z = Some v -> v = z /\ fits_int z.
Proof.
  unfold fits_int, int_of.
  destruct (Z.leb_spec INT_MIN z), (Z.leb_spec z INT_MAX); cbn [andb];
    try discriminate.
  intros E. injection E as <-. auto.
Qed.

(** ** The sampling loop *)

Lemma sample_points_spec dx dy dw dh :
  sample_points dx dy dw dh = Some (edge_points dx dy dw dh).
Proof.
  unfold sample_points, edge_points.
  cbv [sample_loop sample_ratios flat_map app
       PrimFloat.leb PrimFloat.ltb PrimFloat.add].
  reflexivity.
Qed.

Lemma edge_points_length dx dy dw dh :
  List.length (edge_points dx dy dw dh) = 84%nat.
Proof. reflexivity. Qed.

(** ** The loop that collects the bounds *)

Lemma collect_fold out l : forall b k,
  fold_left (collect_step out) l (b, k)
  = (grow b (survivors_at out l),
     k + (Z.of_nat (List.length l)
          - Z.of_nat (List.length (survivors_at out l)))).
Proof.
  induction l as [|i l IH]; intros b k.
  - simpl. destruct b; simpl; f_equal; lia.
  - cbn [fold_left]. unfold collect_step at 2. unfold survivors_at.
    cbn [filter]. destruct (nth i (tr_success out) false) eqn:E; cbn [negb].
    + destruct b as [b|]; rewrite IH; unfold survivors_at;
        cbn [map List.length grow bounding_box fold_left fst snd];
        f_equal; try lia; reflexivity.
    + rewrite IH. unfold survivors_at. cbn [List.length]. f_equal. lia.
Qed.

Lemma collect_bounds_spec out n :
  collect_bounds out n = (bounding_box (survivors out n), failures out n).
Proof.
  unfold collect_bounds. rewrite collect_fold.
  unfold grow, failures, survivors, survivors_at.
  rewrite length_seq. f_equal.
Qed.

Lemma failures_eq out n :
  failures out n
  = Z.of_nat n - Z.of_nat (List.length (survivors out n)).
Proof. reflexivity. Qed.


Lemma failures_range out n : 0 <= failures out n <= Z.of_nat n.
Proof.
  unfold failures, survivors. rewrite length_map.
  pose proof (filter_length_le (fun i => nth i (tr_success out) false)
                               (seq 0 n)) as H.
  rewrite length_seq in H. lia.
Qed.

Lemma bounding_box_nonempty pts :
  pts <> [] -> exists b, bounding_box pts = Some b.
Proof.
  destruct pts as [|p l]; intros H; [now elim H|]. simpl. eauto.
Qed.

(** ** ComputeSourceWindow, step by step *)

Lemma half_width_eq alg :
  (let r := 0 in
   let r := if alg =? GRA_Bilinear then 1 else r in
   let r := if alg =? GRA_Cubic then 2 else r in r)
  = resampling_half_width alg.
Proof.
  unfold resampling_half_width, GRA_Bilinear, GRA_Cubic. cbv zeta.
  destruct (alg =? 2); reflexivity.
Qed.

Lemma ComputeSourceWindow_run st o f dx dy dw dh :
  psOptions st = Some o -> pfnTransformer o = Some f ->
  ComputeSourceWindow dx dy dw dh st
  = match estimator_outcome o (transformed f st dx dy dw dh) with
    | Some (r, evs) =>
        Some (r, add_calls st (ev_transformer dx dy dw dh :: evs))
    | None => None
    end.
Proof.
  intros Ho Hf. unfold transformed, ev_transformer.
  set (pts := edge_points dx dy dw dh).
  set (out := f (calls st) true (sample_x pts) (sample_y pts) (sample_z pts)).
  unfold ComputeSourceWindow, bind at 1, options. rewrite Ho.
  unfold bind at 1. rewrite sample_points_spec. fold pts.
  cbn [defined ret].
  replace (List.length pts) with 84%nat by reflexivity.
  unfold bind at 1. cbn [Nat.eqb CPLAssert ret].
  unfold bind at 1. rewrite Hf. cbn [defined ret].
  unfold bind at 1, this.
  fold (sample_x pts) (sample_y pts) (sample_z pts). fold out.
  unfold bind at 1. rewrite emit_run.
  unfold estimator_outcome, outcome_of.
  destruct (tr_ok out); cbn [negb].
  2:{ unfold bind, CPLError, ret. rewrite emit_run, add_calls_app.
      reflexivity. }
  rewrite collect_bounds_spec.
  change (Z.of_nat 84 - 10) with (84 - 10).
  destruct (84 - 10 <? failures out 84).
  { unfold bind, CPLError, ret. rewrite emit_run, add_calls_app.
    reflexivity. }
  rewrite half_width_eq.
  set (r := resampling_half_width (eResampleAlg o)).
  unfold source_window.
  destruct (bounding_box (survivors out 84)) as [b|].
  2:{ destruct (0 <? failures out 84); reflexivity. }
  destruct (0 <? failures out 84);
    unfold bind, CPLDebug, defined, ret, undefined, obind;
    rewrite ?emit_run;
    repeat (match goal with
            | |- context [int_floor ?a] => destruct (int_floor a)
            | |- context [int_ceil ?a] => destruct (int_ceil a)
            | |- context [hSrcDS ?a] => destruct (hSrcDS a)
            | |- context [int_of ?a] => destruct (int_of a)
            end; cbv beta iota);
    rewrite ?add_calls_app; reflexivity.
Qed.

(** Without options or without a transformer nothing is defined. *)
Lemma ComputeSourceWindow_defined st dx dy dw dh r st' :
  ComputeSourceWindow dx dy dw dh st = Some (r, st') ->
  exists o f, psOptions st = Some o /\ pfnTransformer o = Some f.
Proof.
  unfold ComputeSourceWindow, bind at 1, options.
  destruct (psOptions st) as [o|] eqn:Ho; [|discriminate].
  unfold bind at 1. rewrite sample_points_spec. cbn [defined ret].
  unfold bind at 1.
  replace (List.length (edge_points dx dy dw dh)) with 84%nat by reflexivity.
  cbn [Nat.eqb CPLAssert ret]. unfold bind at 1.
  destruct (pfnTransformer o) as [f|] eqn:Hf; [|discriminate].
  intros _. now exists o, f.
Qed.

(** ** The sample points (C8) *)



(** ** Casts and the order of doubles *)

(** The cast of the floor is the floor of the exact value, when an [int]
    holds it. *)
Lemma int_floor_floor_of x : int_floor x = obind (floor_of x) int_of.
Proof.
  unfold int_floor, floor_of, double_exact.
  destruct (double_parts x) as [[m e]|]; [|reflexivity].
  cbn [option_map obind]. f_equal.
  destruct (Z.leb_spec 0 e) as [He|He].
  - now rewrite Qfloor_Z.
  - unfold Qfloor. rewrite Z2Pos.id; [reflexivity|].
    apply Z.pow_pos_nonneg; lia.
Qed.

Lemma int_ceil_ceil_of x : int_ceil x = obind (ceil_of x) int_of.
Proof.
  unfold int_ceil, ceil_of, double_exact.
  destruct (double_parts x) as [[m e]|]; [|reflexivity].
  cbn [option_map obind]. f_equal.
  destruct (Z.leb_spec 0 e) as [He|He].
  - now rewrite Qceiling_Z.
  - unfold Qceiling, Qfloor, Qopp. cbn [Qnum Qden].
    rewrite Z2Pos.id; [reflexivity|].
    apply Z.pow_pos_nonneg; lia.
Qed.

Lemma int_floor_parts x y :
  double_parts x = double_parts y -> int_floor x = int_floor y.
Proof. unfold int_floor. now intros ->. Qed.

Lemma int_ceil_parts x y :
  double_parts x = double_parts y -> int_ceil x = int_ceil y.
Proof. unfold int_ceil. now intros ->. Qed.

Lemma compare_cont_Eq m1 m2 :
  Pos.compare_cont Eq m1 m2 = (Z.pos m1 ?= Z.pos m2).
Proof. reflexivity. Qed.

(** The comparisons of doubles are the lexicographic order of the ranks. *)
Lemma rank_leb x y a b :
  rank x = Some a -> rank y = Some b ->
  (PrimFloat.leb x y = true <-> lex_le a b).
Proof.
  rewrite leb_spec. unfold rank, SFleb, SFcompare.
  destruct (Prim2SF x) as [s1|s1| |s1 m1 e1],
           (Prim2SF y) as [s2|s2| |s2 m2 e2];
    try destruct s1; try destruct s2; try discriminate;
    intros A B; injection A as <-; injection B as <-; cbn [lex_le];
    try (split; [intros _; lia | reflexivity]);
    try (split; [discriminate | lia]).
  - rewrite compare_cont_Eq.
    destruct (Z.compare_spec e1 e2), (Z.compare_spec (Z.pos m1) (Z.pos m2));
      cbn [CompOpp]; split; try discriminate; try reflexivity; lia.
  - rewrite compare_cont_Eq.
    destruct (Z.compare_spec e1 e2), (Z.compare_spec (Z.pos m1) (Z.pos m2));
      split; try discriminate; try reflexivity; lia.
Qed.

Lemma rank_ltb x y a b :
  rank x = Some a -> rank y = Some b ->
  (PrimFloat.ltb x y = false <-> lex_le b a).
Proof.
  rewrite ltb_spec. unfold rank, SFltb, SFcompare.
  destruct (Prim2SF x) as [s1|s1| |s1 m1 e1],
           (Prim2SF y) as [s2|s2| |s2 m2 e2];
    try destruct s1; try destruct s2; try discriminate;
    intros A B; injection A as <-; injection B as <-; cbn [lex_le];
    try (split; [intros _; lia | reflexivity]);
    try (split; [discriminate | lia]).
  - rewrite compare_cont_Eq.
    destruct (Z.compare_spec e1 e2), (Z.compare_spec (Z.pos m1) (Z.pos m2));
      cbn [CompOpp]; split; try discriminate; try reflexivity; lia.
  - rewrite compare_cont_Eq.
    destruct (Z.compare_spec e1 e2), (Z.compare_spec (Z.pos m1) (Z.pos m2));
      split; try discriminate; try reflexivity; lia.
Qed.

Lemma leb_ranked x y :
  PrimFloat.leb x y = true ->
  exists a b, rank x = Some a /\ rank y = Some b.
Proof.
  rewrite leb_spec. unfold rank, SFleb, SFcompare.
  destruct (Prim2SF x) as [s1|s1| |s1 m1 e1],
           (Prim2SF y) as [s2|s2| |s2 m2 e2];
    try destruct s1; try destruct s2; try discriminate; eauto.
Qed.

Lemma lex_le_refl a : lex_le a a.
Proof. destruct a as [[a1 a2] a3]. cbn. lia. Qed.

Lemma lex_le_trans a b c : lex_le a b -> lex_le b c -> lex_le a c.
Proof.
  destruct a as [[a1 a2] a3], b as [[b1 b2] b3], c as [[c1 c2] c3].
  cbn. lia.
Qed.

Lemma lex_le_total a b : lex_le a b \/ lex_le b a.
Proof.
  destruct a as [[a1 a2] a3], b as [[b1 b2] b3]. cbn. lia.
Qed.

(** Doubles that compare equal have the same value. *)
Lemma leb_antisym_parts x y :
  PrimFloat.leb x y = true -> PrimFloat.leb y x = true ->
  double_parts x = double_parts y.
Proof.
  intros H1 H2. destruct (leb_ranked _ _ H1) as [a [b [Ra Rb]]].
  apply (rank_leb _ _ _ _ Ra Rb) in H1.
  apply (rank_leb _ _ _ _ Rb Ra) in H2.
  revert Ra Rb H1 H2. unfold rank, double_parts.
  destruct (Prim2SF x) as [s1|s1| |s1 m1 e1],
           (Prim2SF y) as [s2|s2| |s2 m2 e2];
    try destruct s1; try destruct s2; try discriminate;
    intros A B; injection A as <-; injection B as <-; cbn [lex_le];
    intros L1 L2; try reflexivity; try lia.
  - assert (e1 = e2) by lia. assert (m1 = m2) by lia. now subst.
  - assert (e1 = e2) by lia. assert (m1 = m2) by lia. now subst.
Qed.

Lemma dMIN_cases a b : dMIN a b = a \/ dMIN a b = b.
Proof. unfold dMIN. destruct (PrimFloat.ltb a b); auto. Qed.

Lemma dMAX_cases a b : dMAX a b = a \/ dMAX a b = b.
Proof. unfold dMAX. destruct (PrimFloat.ltb b a); auto. Qed.

Lemma dMIN_below a b :
  ranked a -> ranked b ->
  PrimFloat.leb (dMIN a b) a = true /\ PrimFloat.leb (dMIN a b) b = true.
Proof.
  intros [ra Ra] [rb Rb]. unfold dMIN.
  destruct (PrimFloat.ltb a b) eqn:E.
  - split; [apply (rank_leb _ _ _ _ Ra Ra), lex_le_refl|].
    apply (rank_leb _ _ _ _ Ra Rb).
    destruct (lex_le_total ra rb) as [H|H]; [exact H|].
    apply (rank_ltb _ _ _ _ Ra Rb) in H. congruence.
  - split; [|apply (rank_leb _ _ _ _ Rb Rb), lex_le_refl].
    apply (rank_leb _ _ _ _ Rb Ra). now apply (rank_ltb _ _ _ _ Ra Rb).
Qed.

Lemma dMAX_above a b :
  ranked a -> ranked b ->
  PrimFloat.leb a (dMAX a b) = true /\ PrimFloat.leb b (dMAX a b) = true.
Proof.
  intros [ra Ra] [rb Rb]. unfold dMAX.
  destruct (PrimFloat.ltb b a) eqn:E.
  - split; [apply (rank_leb _ _ _ _ Ra Ra), lex_le_refl|].
    apply (rank_leb _ _ _ _ Rb Ra).
    destruct (lex_le_total rb ra) as [H|H]; [exact H|].
    apply (rank_ltb _ _ _ _ Rb Ra) in H. congruence.
  - split; [|apply (rank_leb _ _ _ _ Rb Rb), lex_le_refl].
    apply (rank_leb _ _ _ _ Ra Rb). now apply (rank_ltb _ _ _ _ Rb Ra).
Qed.

Lemma leb_trans x y z :
  PrimFloat.leb x y = true -> PrimFloat.leb y z = true ->
  PrimFloat.leb x z = true.
Proof.
  intros H1 H2.
  destruct (leb_ranked _ _ H1) as [a [b [Ra Rb]]].
  destruct (leb_ranked _ _ H2) as [b' [c [Rb' Rc]]].
  rewrite Rb in Rb'. injection Rb' as <-.
  apply (rank_leb _ _ _ _ Ra Rc).
  eapply lex_le_trans;
    [apply (rank_leb _ _ _ _ Ra Rb), H1 | apply (rank_leb _ _ _ _ Rb Rc), H2].
Qed.

(** The running minimum of the loop is an element of what it has seen, below
    every one of them, when none is a NaN. *)
Lemma fold_dMIN_in xs : forall acc,
  In (fold_left dMIN xs acc) (acc :: xs).
Proof.
  induction xs as [|x xs IH]; intros acc; cbn [fold_left]; [now left|].
  destruct (IH (dMIN acc x)) as [H|H]; [|right; now right].
  rewrite <- H. destruct (dMIN_cases acc x) as [-> | ->];
    [now left | right; now left].
Qed.

Lemma fold_dMAX_in xs : forall acc,
  In (fold_left dMAX xs acc) (acc :: xs).
Proof.
  induction xs as [|x xs IH]; intros acc; cbn [fold_left]; [now left|].
  destruct (IH (dMAX acc x)) as [H|H]; [|right; now right].
  rewrite <- H. destruct (dMAX_cases acc x) as [-> | ->];
    [now left | right; now left].
Qed.

Lemma fold_dMIN_below xs : forall acc,
  Forall ranked (acc :: xs) ->
  forall y, In y (acc :: xs) ->
            PrimFloat.leb (fold_left dMIN xs acc) y = true.
Proof.
  induction xs as [|x xs IH]; intros acc R y Hy; cbn [fold_left].
  - destruct Hy as [<-|[]]. apply Forall_inv in R. destruct R as [a Ra].
    apply (rank_leb _ _ _ _ Ra Ra), lex_le_refl.
  - pose proof (Forall_inv R) as Racc.
    pose proof (Forall_inv (Forall_inv_tail R)) as Rx.
    pose proof (Forall_inv_tail (Forall_inv_tail R)) as Rxs.
    destruct (dMIN_below acc x Racc Rx) as [B1 B2].
    assert (Rm : Forall ranked (dMIN acc x :: xs)).
    { constructor; [|exact Rxs].
      destruct (dMIN_cases acc x) as [-> | ->]; assumption. }
    assert (T : PrimFloat.leb (fold_left dMIN xs (dMIN acc x)) (dMIN acc x)
                = true) by (apply IH; [exact Rm | now left]).
    destruct Hy as [<-|[<-|Hy]].
    + eapply leb_trans; eassumption.
    + eapply leb_trans; eassumption.
    + apply IH; [exact Rm | now right].
Qed.

Lemma fold_dMAX_above xs : forall acc,
  Forall ranked (acc :: xs) ->
  forall y, In y (acc :: xs) ->
            PrimFloat.leb y (fold_left dMAX xs acc) = true.
Proof.
  induction xs as [|x xs IH]; intros acc R y Hy; cbn [fold_left].
  - destruct Hy as [<-|[]]. apply Forall_inv in R. destruct R as [a Ra].
    apply (rank_leb _ _ _ _ Ra Ra), lex_le_refl.
  - pose proof (Forall_inv R) as Racc.
    pose proof (Forall_inv (Forall_inv_tail R)) as Rx.
    pose proof (Forall_inv_tail (Forall_inv_tail R)) as Rxs.
    destruct (dMAX_above acc x Racc Rx) as [B1 B2].
    assert (Rm : Forall ranked (dMAX acc x :: xs)).
    { constructor; [|exact Rxs].
      destruct (dMAX_cases acc x) as [-> | ->]; assumption. }
    assert (T : PrimFloat.leb (dMAX acc x) (fold_left dMAX xs (dMAX acc x))
                = true) by (apply IH; [exact Rm | now left]).
    destruct Hy as [<-|[<-|Hy]].
    + eapply leb_trans; eassumption.
    + eapply leb_trans; eassumption.
    + apply IH; [exact Rm | now right].
Qed.

Lemma least_ranked m l : least m l -> Forall ranked l.
Proof.
  intros [_ H]. apply Forall_forall. intros x Hx.
  rewrite forallb_forall in H. destruct (leb_ranked _ _ (H x Hx)) as [a [b [_ R]]].
  now exists b.
Qed.

Lemma greatest_ranked m l : greatest m l -> Forall ranked l.
Proof.
  intros [_ H]. apply Forall_forall. intros x Hx.
  rewrite forallb_forall in H. destruct (leb_ranked _ _ (H x Hx)) as [a [b [R _]]].
  now exists a.
Qed.

(** The minimum the loop computes has the value of any least element. *)
Lemma fold_dMIN_least m x xs :
  least m (x :: xs) -> double_parts (fold_left dMIN xs x) = double_parts m.
Proof.
  intros L. pose proof (least_ranked _ _ L) as R. destruct L as [Hin Hle].
  rewrite forallb_forall in Hle.
  apply leb_antisym_parts.
  - now apply fold_dMIN_below.
  - apply Hle, fold_dMIN_in.
Qed.

Lemma fold_dMAX_greatest m x xs :
  greatest m (x :: xs) -> double_parts (fold_left dMAX xs x) = double_parts m.
Proof.
  intros L. pose proof (greatest_ranked _ _ L) as R. destruct L as [Hin Hle].
  rewrite forallb_forall in Hle.
  apply leb_antisym_parts.
  - apply Hle, fold_dMAX_in.
  - now apply fold_dMAX_above.
Qed.

(** The four bounds the loop keeps are four independent folds. *)
Lemma fold_extend_box pts : forall b,
  fold_left extend_box pts b
  = {| dfMinXOut := fold_left dMIN (map fst pts) (dfMinXOut b);
       dfMinYOut := fold_left dMIN (map snd pts) (dfMinYOut b);
       dfMaxXOut := fold_left dMAX (map fst pts) (dfMaxXOut b);
       dfMaxYOut := fold_left dMAX (map snd pts) (dfMaxYOut b) |}.
Proof.
  induction pts as [|p pts IH]; intros b; cbn [fold_left map].
  - now destruct b.
  - rewrite IH. reflexivity.
Qed.

(** ** The source window (C1, C4, C7) *)

Lemma source_window_formula b fx fy cx cy r W H :
  int_floor (dfMinXOut b) = Some fx -> int_floor (dfMinYOut b) = Some fy ->
  int_ceil (dfMaxXOut b) = Some cx -> int_ceil (dfMaxYOut b) = Some cy ->
  window_fits fx fy cx cy r W H ->
  source_window b r W H = Some (window_formula fx fy cx cy r W H).
Proof.
  intros Hfx Hfy Hcx Hcy F. unfold window_fits in F. cbv zeta in F.
  destruct F as [_ [F1 [_ [F2 [F3 [_ [F4 [F5 [F6 [_ [F7 F8]]]]]]]]]]].
  unfold source_window, window_formula. rewrite Hfx, Hfy, Hcx, Hcy.
  cbn [obind].
  rewrite (int_of_fits _ F1). cbn [obind].
  rewrite (int_of_fits _ F2). cbn [obind].
  rewrite (int_of_fits _ F3). cbn [obind].
  rewrite (int_of_fits _ F4). cbn [obind].
  rewrite (int_of_fits _ F5). cbn [obind].
  rewrite (int_of_fits _ F6). cbn [obind].
  rewrite (int_of_fits _ F7). cbn [obind].
  rewrite (int_of_fits _ F8). cbn [obind].
  reflexivity.
Qed.

Lemma estimator_success o out src b w :
  tr_ok out = true ->
  failures out 84 <= 84 - 10 ->
  hSrcDS o = Some src ->
  bounding_box (survivors out 84) = Some b ->
  source_window b (resampling_half_width (eResampleAlg o))
                (GDALGetRasterXSize src) (GDALGetRasterYSize src) = Some w ->
  estimator_outcome o out
  = Some ((CE_None, Some w),
          if 0 <? failures out 84 then [ev_some_failed] else []).
Proof.
  intros Hok Hf Hsrc Hb Hw.
  unfold estimator_outcome, outcome_of. rewrite Hok. cbn [negb].
  destruct (Z.ltb_spec (84 - 10) (failures out 84)) as [H|_]; [lia|].
  rewrite Hb, Hsrc, Hw. reflexivity.
Qed.

(** C1: when the transformer accepts the batch, at least 10 of the 84 edge
    points survive, min_x, min_y, max_x, max_y are the bounding box of the
    survivors (least and greatest coordinates in the order of doubles), and
    their floors and ceilings (those of their exact values) and every sum
    and difference of the formula fit a 32-bit int, ComputeSourceWindow
    returns success with sx = max(0, floor(min_x) + r),
    sy = max(0, floor(min_y) + r), sw = min(src_W - sx, ceil(max_x) - sx + r),
    sh = min(src_H - sy, ceil(max_y) - sy + r), with r = 0, 1, 2 for Nearest,
    Bilinear, Cubic; for Cubic, the box [100.3, 200.7] x [50.2, 60.9] and a
    300 x 300 source this is (102, 52, 101, 11). *)
Theorem ComputeSourceWindow_formula :
  forall st o f src dx dy dw dh min_x min_y max_x max_y
         floor_min_x floor_min_y ceil_max_x ceil_max_y,
    psOptions st = Some o ->
    pfnTransformer o = Some f ->
    hSrcDS o = Some src ->
    let pts := survivors (transformed f st dx dy dw dh) 84 in
    tr_ok (transformed f st dx dy dw dh) = true ->
    (10 <= List.length pts)%nat ->
    least min_x (map fst pts) -> least min_y (map snd pts) ->
    greatest max_x (map fst pts) -> greatest max_y (map snd pts) ->
    floor_of min_x = Some floor_min_x ->
    floor_of min_y = Some floor_min_y ->
    ceil_of max_x = Some ceil_max_x ->
    ceil_of max_y = Some ceil_max_y ->
    let r := resampling_half_width (eResampleAlg o) in
    let src_W := GDALGetRasterXSize src in
    let src_H := GDALGetRasterYSize src in
    window_fits floor_min_x floor_min_y ceil_max_x ceil_max_y r src_W src_H ->
    (exists st',
        ComputeSourceWindow dx dy dw dh st
        = Some ((CE_None,
                 Some (window_formula floor_min_x floor_min_y
                                      ceil_max_x ceil_max_y r src_W src_H)),
                st'))
    /\ resampling_half_width GRA_NearestNeighbour = 0
    /\ resampling_half_width GRA_Bilinear = 1
    /\ resampling_half_width GRA_Cubic = 2
    /\ floor_of 100.3 = Some 100 /\ floor_of 50.2 = Some 50
    /\ ceil_of 200.7 = Some 201 /\ ceil_of 60.9 = Some 61
    /\ window_formula 100 50 201 61 (resampling_half_width GRA_Cubic) 300 300
       = (102, 52, 101, 11).
Proof.
  intros st o f src dx dy dw dh min_x min_y max_x max_y fx fy cx cy
         Ho Hf Hsrc pts Hok Hn Lx Ly Gx Gy Hfx Hfy Hcx Hcy r W H Fits.
  split; [|repeat split; reflexivity].
  rewrite (ComputeSourceWindow_run st o f) by assumption.
  fold pts.
  destruct pts as [|p rest] eqn:Ep; [cbn in Hn; lia|].
  assert (Hb : bounding_box (survivors (transformed f st dx dy dw dh) 84)
               = Some (fold_left extend_box rest
                         {| dfMinXOut := fst p; dfMinYOut := snd p;
                            dfMaxXOut := fst p; dfMaxYOut := snd p |})).
  { fold pts. rewrite Ep. reflexivity. }
  rewrite fold_extend_box in Hb.
  cbn [dfMinXOut dfMinYOut dfMaxXOut dfMaxYOut map] in Hb, Lx, Ly, Gx, Gy.
  pose proof (fold_dMIN_least _ _ _ Lx) as Px.
  pose proof (fold_dMIN_least _ _ _ Ly) as Py.
  pose proof (fold_dMAX_greatest _ _ _ Gx) as Qx.
  pose proof (fold_dMAX_greatest _ _ _ Gy) as Qy.
  destruct Fits as [F0 Fits'].
  pose proof Fits' as [_ [F1 [_ [_ [F2 _]]]]].
  pose proof Fits' as [_ [_ [_ [_ [_ [_ [_ [_ [F3 _]]]]]]]]].
  erewrite estimator_success; [eexists; reflexivity|exact Hok| |exact Hsrc
                              |exact Hb|].
  - rewrite failures_eq. fold pts. rewrite Ep. lia.
  - apply source_window_formula; cbn [dfMinXOut dfMinYOut dfMaxXOut dfMaxYOut].
    + rewrite (int_floor_parts _ _ Px), int_floor_floor_of, Hfx.
      now apply int_of_fits.
    + rewrite (int_floor_parts _ _ Py), int_floor_floor_of, Hfy.
      now apply int_of_fits.
    + rewrite (int_ceil_parts _ _ Qx), int_ceil_ceil_of, Hcx.
      now apply int_of_fits.
    + rewrite (int_ceil_parts _ _ Qy), int_ceil_ceil_of, Hcy.
      now apply int_of_fits.
    + split; assumption.
Qed.

Lemma ComputeSourceWindow_formula_witness :
  exists st',
    ComputeSourceWindow 0 0 10 10 Example.cubic_box
    = Some ((CE_None, Some (window_formula 100 50 201 61 2 300 300)), st').
Proof.
  refine (proj1 (ComputeSourceWindow_formula Example.cubic_box
                   (Example.defaulted
                      (Example.options_300 GRA_Cubic
                         (Example.corners 100.3 50.2 200.7 60.9)))
                   (Example.corners 100.3 50.2 200.7 60.9)
                   (Example.raster 300 300) 0 0 10 10
                   100.3 50.2 200.7 60.9 100 50 201 61
                   _ _ _ _ _ _ _ _ _ _ _ _ _ _)).
  - vm_compute. reflexivity.
  - reflexivity.
  - reflexivity.
  - vm_compute. reflexivity.
  - vm_compute. lia.
  - split; vm_compute; [repeat (first [left; reflexivity | right])
                       |reflexivity].
  - split; vm_compute; [repeat (first [left; reflexivity | right])
                       |reflexivity].
  - split; vm_compute; [repeat (first [left; reflexivity | right])
                       |reflexivity].
  - split; vm_compute; [repeat (first [left; reflexivity | right])
                       |reflexivity].
  - vm_compute. reflexivity.
  - vm_compute. reflexivity.
  - vm_compute. reflexivity.
  - vm_compute. reflexivity.
  - vm_compute. repeat split; discriminate.
Defined.

(** C1, as stated, fails where the formula leaves the range of [int]: with
    every point mapped 3000000000 pixels to the right the bounding box is
    [3000000000, 3000000010] x [0, 10], floor(min_x) = 3000000000 is no
    [int], and ComputeSourceWindow does not return the window
    (3000000000, 0, -2999999700, 10) of the formula. *)
Lemma ComputeSourceWindow_formula_counterexample :
  ~ (forall st o f src dx dy dw dh min_x min_y max_x max_y
            floor_min_x floor_min_y ceil_max_x ceil_max_y,
        psOptions st = Some o ->
        pfnTransformer o = Some f ->
        hSrcDS o = Some src ->
        let pts := survivors (transformed f st dx dy dw dh) 84 in
        tr_ok (transformed f st dx dy dw dh) = true ->
        (10 <= List.length pts)%nat ->
        least min_x (map fst pts) -> least min_y (map snd pts) ->
        greatest max_x (map fst pts) -> greatest max_y (map snd pts) ->
        floor_of min_x = Some floor_min_x ->
        floor_of min_y = Some floor_min_y ->
        ceil_of max_x = Some ceil_max_x ->
        ceil_of max_y = Some ceil_max_y ->
        exists st',
          ComputeSourceWindow dx dy dw dh st
          = Some ((CE_None,
                   Some (window_formula floor_min_x floor_min_y
                           ceil_max_x ceil_max_y
                           (resampling_half_width (eResampleAlg o))
                           (GDALGetRasterXSize src)
                           (GDALGetRasterYSize src))),
                  st')).
Proof.
  intros H.
  assert (R : ComputeSourceWindow 0 0 10 10
                (Example.warp_300 GRA_NearestNeighbour
                                  (Example.shift 3000000000 0))
              = None) by (vm_compute; reflexivity).
  destruct (H (Example.warp_300 GRA_NearestNeighbour
                                (Example.shift 3000000000 0))
              (Example.defaulted
                 (Example.options_300 GRA_NearestNeighbour
                                      (Example.shift 3000000000 0)))
              (Example.shift 3000000000 0) (Example.raster 300 300)
              0 0 10 10 3000000000%float 0%float 3000000010%float 10%float
              3000000000 0 3000000010 10) as [st' E];
    try (vm_compute; reflexivity);
    try (split; vm_compute;
         [repeat (first [left; reflexivity | right]) | reflexivity]).
  - vm_compute. lia.
  - rewrite R in E. discriminate E.
Qed.


(** C4: on a 300 x 300 source, with a transformer that accepts every point
    and maps the destination rectangle (0, 0, 10, 10) to
    [500, 510] x [500, 510], ComputeSourceWindow returns success with the
    window (500, 500, -200, -200): its origin lies beyond the source and its
    size is negative. *)
Theorem ComputeSourceWindow_off_image :
  option_map (fun r => hSrcDS r) (psOptions Example.off_image)
  = Some (Some (Example.raster 300 300))
  /\ option_map fst (ComputeSourceWindow 0 0 10 10 Example.off_image)
     = Some (CE_None, Some (500, 500, -200, -200)).
Proof. split; vm_compute; reflexivity. Qed.

Lemma threshold_cases (st : GDALWarpOperation) (o : GDALWarpOptions)
  (ev : event) (failed : Z) (box : option Bounds) (n : nat)
  (run : option ((CPLErr * option (Z * Z * Z * Z)) * GDALWarpOperation)) :
  run = match outcome_of o true failed box with
        | Some (r, evs) => Some (r, add_calls st (ev :: evs))
        | None => None
        end ->
  failed = 84 - Z.of_nat n ->
  (n <> 0%nat -> exists b, box = Some b) ->
  let success w :=
    Some ((CE_None, Some w),
          add_calls st (ev :: if 0 <? failed then [ev_some_failed] else [])) in
  let failure :=
    Some ((CE_Failure, @None (Z * Z * Z * Z)),
          add_calls st [ev; ev_too_many]) in
  ((exists w st', run = Some ((CE_Failure, w), st')) <-> 84 - 10 < failed)
  /\ (84 - 10 < failed -> run = failure)
  /\ (n = 0%nat -> run = failure)
  /\ (failed <= 84 - 10 ->
      exists b, box = Some b
        /\ forall src w,
             hSrcDS o = Some src ->
             source_window b (resampling_half_width (eResampleAlg o))
               (GDALGetRasterXSize src) (GDALGetRasterYSize src) = Some w ->
             run = success w)
  /\ (n = 10%nat ->
      exists b, box = Some b
        /\ forall src w,
             hSrcDS o = Some src ->
             source_window b (resampling_half_width (eResampleAlg o))
               (GDALGetRasterXSize src) (GDALGetRasterYSize src) = Some w ->
             run = success w).
Proof.
  intros Hrun Hn Hbox success failure.
  assert (Hfail : 84 - 10 < failed -> run = failure).
  { intros H. rewrite Hrun. unfold outcome_of. cbn [negb].
    destruct (Z.ltb_spec (84 - 10) failed); [reflexivity|lia]. }
  assert (Hsucc : failed <= 84 - 10 ->
        exists b, box = Some b
          /\ forall src w,
               hSrcDS o = Some src ->
               source_window b (resampling_half_width (eResampleAlg o))
                 (GDALGetRasterXSize src) (GDALGetRasterYSize src) = Some w ->
               run = success w).
  { intros H. destruct Hbox as [b Hb]; [lia|].
    exists b. split; [exact Hb|]. intros src w Hsrc Hw.
    rewrite Hrun. unfold outcome_of. cbn [negb].
    destruct (Z.ltb_spec (84 - 10) failed); [lia|].
    rewrite Hb, Hsrc, Hw. reflexivity. }
  split; [|split; [exact Hfail|split; [|split; [exact Hsucc|]]]].
  - split.
    + intros [w [st' H]].
      destruct (Z.lt_ge_cases (84 - 10) failed) as [Hlt|Hge]; [exact Hlt|].
      exfalso. rewrite Hrun in H. unfold outcome_of in H. cbn [negb] in H.
      destruct (Z.ltb_spec (84 - 10) failed); [lia|].
      destruct box; [|discriminate].
      destruct (hSrcDS o); [|discriminate].
      destruct (source_window _ _ _ _); discriminate.
    + intros H. exists None. eexists. apply Hfail, H.
  - intros H. apply Hfail. lia.
  - intros H. apply Hsucc. lia.
Qed.

(** C7: when the transformer accepts the batch, ComputeSourceWindow returns
    failure exactly when more than 84 - 10 of the 84 points fail, and then
    reports the error; with no survivor it fails; with 74 failures or fewer
    (so with exactly 10 survivors) it succeeds with the window of the
    bounding box of the survivors alone, after a debug message when at least
    one point failed. *)
Theorem ComputeSourceWindow_threshold :
  forall st o f dx dy dw dh,
    psOptions st = Some o ->
    pfnTransformer o = Some f ->
    tr_ok (transformed f st dx dy dw dh) = true ->
    let out := transformed f st dx dy dw dh in
    let failed := failures out 84 in
    let run := ComputeSourceWindow dx dy dw dh st in
    let success w :=
      Some ((CE_None, Some w),
            add_calls st (ev_transformer dx dy dw dh
                          :: if 0 <? failed then [ev_some_failed] else [])) in
    let failure :=
      Some ((CE_Failure, @None (Z * Z * Z * Z)),
            add_calls st [ev_transformer dx dy dw dh; ev_too_many]) in
    ((exists w st', run = Some ((CE_Failure, w), st')) <-> 84 - 10 < failed)
    /\ (84 - 10 < failed -> run = failure)
    /\ (List.length (survivors out 84) = 0%nat -> run = failure)
    /\ (failed <= 84 - 10 ->
        exists b, bounding_box (survivors out 84) = Some b
          /\ forall src w,
               hSrcDS o = Some src ->
               source_window b (resampling_half_width (eResampleAlg o))
                 (GDALGetRasterXSize src) (GDALGetRasterYSize src) = Some w ->
               run = success w)
    /\ (List.length (survivors out 84) = 10%nat ->
        exists b, bounding_box (survivors out 84) = Some b
          /\ forall src w,
               hSrcDS o = Some src ->
               source_window b (resampling_half_width (eResampleAlg o))
                 (GDALGetRasterXSize src) (GDALGetRasterYSize src) = Some w ->
               run = success w).
Proof.
  intros st o f dx dy dw dh Ho Hf Hok.
  apply (threshold_cases st o (ev_transformer dx dy dw dh)
           (failures (transformed f st dx dy dw dh) 84)
           (bounding_box (survivors (transformed f st dx dy dw dh) 84))
           (List.length (survivors (transformed f st dx dy dw dh) 84))).
  - rewrite (ComputeSourceWindow_run st o f) by assumption.
    unfold estimator_outcome. rewrite Hok. reflexivity.
  - apply failures_eq.
  - intros H. apply bounding_box_nonempty. intros E. apply H.
    rewrite E. reflexivity.
Qed.
Lemma ComputeSourceWindow_threshold_witness :
  ComputeSourceWindow 0 0 10 10
    (Example.warp_300 GRA_NearestNeighbour (Example.first_only 10))
  = Some ((CE_None, Some (0, 0, 10, 10)),
          add_calls (Example.warp_300 GRA_NearestNeighbour
                                      (Example.first_only 10))
                    [ev_transformer 0 0 10 10; ev_some_failed]).
Proof.
  destruct (proj2 (proj2 (proj2 (proj2
    (ComputeSourceWindow_threshold
       (Example.warp_300 GRA_NearestNeighbour (Example.first_only 10))
       (Example.defaulted
          (Example.options_300 GRA_NearestNeighbour (Example.first_only 10)))
       (Example.first_only 10) 0 0 10 10
       ltac:(vm_compute; reflexivity) ltac:(reflexivity)
       ltac:(vm_compute; reflexivity)))))
    ltac:(vm_compute; reflexivity)) as [b [Hb H]].
  specialize (H (Example.raster 300 300) (0, 0, 10, 10) eq_refl).
  rewrite H.
  - vm_compute. reflexivity.
  - vm_compute in Hb. injection Hb as Hb. rewrite <- Hb.
    vm_compute. reflexivity.
Defined.

(** ** Computations that only add collaborator calls *)

Lemma Forall_not_WarpRegion_app l1 l2 :
  Forall not_WarpRegion l1 -> Forall not_WarpRegion l2 ->
  Forall not_WarpRegion (l1 ++ l2).
Proof. intros H1 H2. apply Forall_app. now split. Qed.

Lemma appends_ret {A} (a : A) : appends (ret a).
Proof.
  intros st a' st' H. injection H as <- <-. exists [].
  split; [now rewrite add_calls_nil | constructor].
Qed.

Lemma appends_undefined {A} : appends (@undefined A).
Proof. intros st a st' H. discriminate H. Qed.

Lemma appends_defined {A} (o : option A) : appends (defined o).
Proof. destruct o; [apply appends_ret | apply appends_undefined]. Qed.

Lemma appends_this : appends this.
Proof.
  intros st a st' H. injection H as <- <-. exists [].
  split; [now rewrite add_calls_nil | constructor].
Qed.

Lemma appends_options : appends options.
Proof.
  intros st a st' H. unfold options in H.
  destruct (psOptions st); [|discriminate]. injection H as <- <-.
  exists []. split; [now rewrite add_calls_nil | constructor].
Qed.

Lemma appends_emit e : not_WarpRegion e -> appends (emit e).
Proof.
  intros He st a st' H. injection H as <- <-. exists [e].
  split; [reflexivity | now constructor].
Qed.

Lemma appends_bind {A B} (c : M A) (k : A -> M B) :
  appends c -> (forall a, appends (k a)) -> appends (bind c k).
Proof.
  intros Hc Hk st b st' H.
  apply bind_Some in H. destruct H as [a [st1 [H1 H2]]].
  apply Hc in H1. destruct H1 as [e1 [-> F1]].
  apply Hk in H2. destruct H2 as [e2 [-> F2]].
  exists (e1 ++ e2). split; [apply add_calls_app|].
  now apply Forall_not_WarpRegion_app.
Qed.

Lemma appends_index {A} (a : option (list A)) i : appends (index a i).
Proof.
  unfold index. destruct a; [|apply appends_undefined].
  destruct (i <? 0); [apply appends_undefined | apply appends_defined].
Qed.

Lemma appends_for_ok {S} (body : Z -> S -> M (CPLErr * S)) :
  (forall i s, appends (body i s)) ->
  forall l s, appends (for_ok l body s).
Proof.
  intros Hb l. induction l as [|i l IH]; intros s; cbn [for_ok].
  - apply appends_ret.
  - apply appends_bind; [apply Hb|]. intros [e s'].
    destruct (CPLErr_eqb e CE_None); [apply IH | apply appends_ret].
Qed.

Ltac appends_step :=
  first
    [ apply appends_ret
    | apply appends_undefined
    | apply appends_this
    | apply appends_options
    | apply appends_defined
    | apply appends_index
    | apply appends_emit; exact I
    | apply appends_for_ok; intros
    | apply appends_bind; [|intros ?]
    | match goal with
      | |- appends (match ?x with _ => _ end) => destruct x
      end ].

Ltac appends_auto := repeat appends_step.

Lemma appends_CPLError c n fmt : appends (CPLError c n fmt).
Proof. apply appends_emit. exact I. Qed.

Lemma appends_CPLDebug fmt : appends (CPLDebug fmt).
Proof. apply appends_emit. exact I. Qed.

Lemma appends_CPLAssert b : appends (CPLAssert b).
Proof. destruct b; [apply appends_ret | apply appends_undefined]. Qed.

Lemma appends_ComputeSourceWindow dx dy dw dh :
  appends (ComputeSourceWindow dx dy dw dh).
Proof.
  intros st r st' H.
  destruct (ComputeSourceWindow_defined _ _ _ _ _ _ _ H)
    as [o [f [Ho Hf]]].
  rewrite (ComputeSourceWindow_run st o f) in H by assumption.
  destruct (estimator_outcome o (transformed f st dx dy dw dh))
    as [[r' evs]|] eqn:E; [|discriminate].
  injection H as <- <-. eexists. split; [reflexivity|].
  constructor; [exact I|].
  unfold estimator_outcome, outcome_of in E.
  destruct (negb _); [injection E as <- <-; repeat constructor|].
  destruct (84 - 10 <? _); [injection E as <- <-; repeat constructor|].
  destruct (bounding_box _); [|discriminate].
  destruct (hSrcDS o); [|discriminate].
  destruct (source_window _ _ _ _); [|discriminate].
  injection E as <- <-. destruct (0 <? _); repeat constructor.
Qed.

Section Region.
Context {collaborators : Collaborators}.

Lemma appends_malloc n : appends (malloc n).
Proof. unfold malloc. appends_auto. Qed.

Lemma appends_GDALRasterIO_Read ds hDS b x y w h t :
  appends (GDALRasterIO_Read ds hDS b x y w h t).
Proof. unfold GDALRasterIO_Read. appends_auto. Qed.

Lemma appends_GDALRasterIO_Write ds hDS b x y w h t d :
  appends (GDALRasterIO_Write ds hDS b x y w h t d).
Proof. unfold GDALRasterIO_Write. appends_auto. Qed.

Lemma appends_CreateKernelMask k i t : appends (CreateKernelMask k i t).
Proof.
  unfold CreateKernelMask.
  destruct (mask_particulars k i t) as [[[[[[k' s] nx] ny] nb] nd]|].
  - apply appends_bind; [apply appends_defined|]. intros mask.
    destruct (is_null mask); [|apply appends_ret].
    apply appends_bind; [apply appends_defined|]. intros nBytes.
    apply appends_bind; [apply appends_this|]. intros st.
    apply appends_bind; [apply appends_emit; exact I|]. intros _.
    destruct (negb _); [|apply appends_ret].
    apply appends_bind; [apply appends_CPLError | intros _; apply appends_ret].
  - apply appends_bind; [apply appends_CPLError | intros _; apply appends_ret].
Qed.

Lemma appends_free_images (l : list (option bytes)) :
  appends (fold_right
             (fun img rest =>
                (if is_null img then ret tt else emit EvVSIFree) ;;; rest)
             (ret tt) l).
Proof.
  induction l as [|img l IH]; cbn [fold_right]; [apply appends_ret|].
  apply appends_bind; [|intros _; exact IH].
  destruct (is_null img); [apply appends_ret | apply appends_emit; exact I].
Qed.

Lemma appends_WarpRegionToBuffer dx dy dw dh buf t sx sy sw sh :
  appends (WarpRegionToBuffer dx dy dw dh buf t sx sy sw sh).
Proof.
  unfold WarpRegionToBuffer.
  apply appends_bind; [apply appends_options|]. intros o.
  apply appends_bind.
  { destruct (_ && _); [apply appends_ComputeSourceWindow|apply appends_ret]. }
  intros [eErr win].
  destruct (negb _); [apply appends_ret|].
  apply appends_bind; [apply appends_defined|]. intros [[[sx' sy'] sw'] sh'].
  apply appends_bind; [apply appends_this|]. intros st.
  apply appends_bind.
  { apply appends_for_ok. intros i img.
    apply appends_bind; [apply appends_index|]. intros nBand.
    apply appends_bind; [apply appends_malloc|]. intros ok.
    destruct (negb ok).
    - apply appends_bind; [apply appends_CPLError|intros _; apply appends_ret].
    - apply appends_bind; [apply appends_GDALRasterIO_Read|].
      intros [e d]. apply appends_ret. }
  intros [eErr1 srcImage].
  apply appends_bind.
  { destruct (_ && _); [|apply appends_ret].
    apply appends_for_ok. intros i k.
    apply appends_bind; [apply appends_CreateKernelMask|]. intros [e k'].
    destruct (CPLErr_eqb e CE_None); [|apply appends_ret].
    apply appends_bind; [apply appends_index|]. intros re.
    apply appends_bind; [apply appends_index|]. intros im.
    apply appends_bind; [apply appends_index|]. intros img.
    apply appends_bind; [apply appends_defined|]. intros mask.
    destruct (GDALWarpNoDataMasker _ _ _ _ _ _ _ _). apply appends_ret. }
  intros [eErr2 oWK].
  apply appends_bind.
  { destruct (CPLErr_eqb eErr2 CE_None); [|apply appends_ret].
    apply appends_bind; [apply appends_this|]. intros st2.
    destruct (PerformWarp _ _).
    apply appends_bind; [apply appends_emit; exact I|].
    intros _. apply appends_ret. }
  intros [eErr3 buf'].
  apply appends_bind; [apply appends_free_images|].
  intros _. apply appends_ret.
Qed.

Lemma appends_init_dest_band o s ws bs w h i :
  appends (init_dest_band o s ws bs w h i).
Proof.
  unfold init_dest_band.
  apply appends_bind.
  { destruct (_ && _); [|apply appends_ret].
    apply appends_bind; [apply appends_index|]. intros re.
    apply appends_bind; [apply appends_index|]. intros im. apply appends_ret. }
  intros [re im].
  destruct (_ =? _).
  { apply appends_bind; [apply appends_defined|]. intros v. apply appends_ret. }
  destruct (_ && _); [apply appends_ret|].
  destruct (PrimFloat.eqb _ _); apply appends_ret.
Qed.

Lemma appends_init_dest o s ws bs w h l :
  appends (init_dest o s ws bs w h l).
Proof.
  induction l as [|i l IH]; cbn [init_dest]; [apply appends_ret|].
  apply appends_bind; [apply appends_init_dest_band|]. intros b.
  apply appends_bind; [exact IH|]. intros bs'. apply appends_ret.
Qed.

(** [WarpRegion] records its call and then only calls collaborators. *)
Lemma WarpRegion_calls dx dy dw dh sx sy sw sh st e st' :
  WarpRegion dx dy dw dh sx sy sw sh st = Some (e, st') ->
  exists evs,
    st' = add_calls st (EvWarpRegion dx dy dw dh sx sy sw sh :: evs)
    /\ Forall not_WarpRegion evs.
Proof.
  unfold WarpRegion. intros H.
  apply bind_Some in H. destruct H as [[] [st1 [H1 H2]]].
  rewrite emit_run in H1. injection H1 as <-.
  match type of H2 with ?c _ = _ => assert (A : appends c) end.
  { apply appends_bind; [apply appends_options|]. intros o.
    apply appends_bind; [apply appends_malloc|]. intros ok.
    destruct (negb ok).
    { apply appends_bind; [apply appends_CPLError|intros _; apply appends_ret]. }
    apply appends_bind.
    { destruct (CSLFetchNameValue _ _).
      - apply appends_bind; [apply appends_init_dest|]. intros b.
        apply appends_ret.
      - apply appends_for_ok. intros i b.
        apply appends_bind; [apply appends_index|]. intros nBand.
        apply appends_bind; [apply appends_GDALRasterIO_Read|].
        intros [e1 d]. apply appends_ret. }
    intros [eErr buf].
    destruct (negb _).
    { apply appends_bind; [apply appends_emit; exact I|].
      intros _; apply appends_ret. }
    apply appends_bind; [apply appends_WarpRegionToBuffer|].
    intros [eErr2 buf2].
    apply appends_bind.
    { destruct (CPLErr_eqb eErr2 CE_None); [|apply appends_ret].
      apply appends_for_ok. intros i u.
      apply appends_bind; [apply appends_index|]. intros nBand.
      apply appends_bind; [apply appends_GDALRasterIO_Write|].
      intros e1. apply appends_ret. }
    intros [eErr3 u].
    apply appends_bind; [apply appends_emit; exact I|].
    intros _. apply appends_ret. }
  apply A in H2. destruct H2 as [evs [-> F]].
  exists evs. split; [|exact F]. apply add_calls_app.
Qed.

End Region.

(** ** The chunker, one call at a time *)

Section Chunker.
Context {collaborators : Collaborators}.

Lemma nSrcPixelCostInBits_spec o :
  nSrcPixelCostInBits o = src_bits_per_pixel o.
Proof.
  unfold nSrcPixelCostInBits, src_bits_per_pixel, working_type_bits.
  destruct (is_null (pfnSrcDensityMaskFunc o)),
           (is_null (papfnSrcPerBandValidityMaskFunc o)),
           (is_null (padfSrcNoDataReal o)),
           (is_null (pfnSrcValidityMaskFunc o)); cbn; lia.
Qed.

Lemma nDstPixelCostInBits_spec o :
  nDstPixelCostInBits o = dst_bits_per_pixel o.
Proof.
  unfold nDstPixelCostInBits, dst_bits_per_pixel, working_type_bits.
  destruct (is_null (pfnDstDensityMaskFunc o)),
           (is_null (padfDstNoDataReal o)),
           (is_null (pfnDstValidityMaskFunc o)); cbn; lia.
Qed.

Lemma dfTotalMemoryUse_spec o sw sh dw dh :
  dfTotalMemoryUse o sw sh dw dh = total_bytes o sw sh dw dh.
Proof.
  unfold dfTotalMemoryUse, total_bytes.
  now rewrite nSrcPixelCostInBits_spec, nDstPixelCostInBits_spec.
Qed.

(** What one call of the body does after a successful estimate. *)
Lemma ChunkAndWarpImage_body_run self dx dy dw dh st st1 o sx sy sw sh :
  ComputeSourceWindow dx dy dw dh st
  = Some ((CE_None, Some (sx, sy, sw, sh)), st1) ->
  psOptions st1 = Some o ->
  ChunkAndWarpImage_body self dx dy dw dh st
  = if must_split o sw sh dw dh
    then split_path self dx dy dw dh st1
    else WarpRegion dx dy dw dh sx sy sw sh st1.
Proof.
  intros Hc Ho.
  unfold ChunkAndWarpImage_body, bind at 1. rewrite Hc.
  cbn [CPLErr_eqb negb]. unfold bind at 1. cbn [defined ret].
  unfold bind at 1, options. rewrite Ho.
  rewrite dfTotalMemoryUse_spec. fold (must_split o sw sh dw dh).
  destruct (must_split o sw sh dw dh); [|reflexivity].
  unfold split_path, split_chunk, bind, this, set_dfProgressScale,
    set_dfProgressBase, ret, with_progress.
  destruct (dh <? dw).
  - destruct (self dx dy (Z.quot dw 2) dh _) as [[[] st2]|]; reflexivity.
  - destruct (self dx dy dw (Z.quot dh 2) _) as [[[] st2]|]; reflexivity.
Qed.

(** A failed estimate is returned at once. *)
Lemma ChunkAndWarpImage_body_failure self dx dy dw dh st st1 eErr win :
  ComputeSourceWindow dx dy dw dh st = Some ((eErr, win), st1) ->
  eErr <> CE_None ->
  ChunkAndWarpImage_body self dx dy dw dh st = Some (eErr, st1).
Proof.
  intros Hc He. unfold ChunkAndWarpImage_body, bind at 1. rewrite Hc.
  destruct eErr; try reflexivity. now elim He.
Qed.

Lemma split_chunk_depth dw dh x1 y1 w1 h1 x2 y2 w2 h2 dx dy :
  (2 <? dw) || (2 <? dh) = true ->
  split_chunk dx dy dw dh = ((x1, y1, w1, h1), (x2, y2, w2, h2)) ->
  (recursion_depth w1 h1 < recursion_depth dw dh)%nat
  /\ (recursion_depth w2 h2 < recursion_depth dw dh)%nat.
Proof.
  unfold split_chunk, recursion_depth. intros Hc Hs.
  apply orb_true_iff in Hc.
  destruct (Z.ltb_spec dh dw) as [Hlt|Hge];
    injection Hs as <- <- <- <- <- <- <- <-.
  - assert (2 < dw) by (destruct Hc as [Hc|Hc]; apply Z.ltb_lt in Hc; lia).
    rewrite Z.quot_div_nonneg by lia.
    pose proof (Z.div_lt_upper_bound dw 2 dw) as U.
    pose proof (Z.div_le_lower_bound dw 2 1) as L. lia.
  - assert (2 < dh) by (destruct Hc as [Hc|Hc]; apply Z.ltb_lt in Hc; lia).
    rewrite Z.quot_div_nonneg by lia.
    pose proof (Z.div_lt_upper_bound dh 2 dh) as U.
    pose proof (Z.div_le_lower_bound dh 2 1) as L. lia.
Qed.

Lemma must_split_size o sw sh dw dh :
  must_split o sw sh dw dh = true -> (2 <? dw) || (2 <? dh) = true.
Proof. unfold must_split. intros H. apply andb_true_iff in H. apply H. Qed.

Lemma split_path_ext self1 self2 dx dy dw dh st1 :
  (2 <? dw) || (2 <? dh) = true ->
  (forall x y w h st,
      (recursion_depth w h < recursion_depth dw dh)%nat ->
      self1 x y w h st = self2 x y w h st) ->
  split_path self1 dx dy dw dh st1 = split_path self2 dx dy dw dh st1.
Proof.
  intros Hc Hs. unfold split_path.
  destruct (split_chunk dx dy dw dh) as [[[[x1 y1] w1] h1] [[[x2 y2] w2] h2]]
    eqn:E.
  destruct (split_chunk_depth _ _ _ _ _ _ _ _ _ _ _ _ Hc E) as [D1 D2].
  rewrite (Hs x1 y1 w1 h1 _ D1).
  destruct (self2 x1 y1 w1 h1 _) as [[[] st2]|]; try reflexivity.
  now rewrite (Hs x2 y2 w2 h2 _ D2).
Qed.

Lemma ChunkAndWarpImage_body_undefined self dx dy dw dh st :
  ComputeSourceWindow dx dy dw dh st = None
  \/ (exists st1,
        ComputeSourceWindow dx dy dw dh st = Some ((CE_None, None), st1))
  \/ (exists w st1,
        ComputeSourceWindow dx dy dw dh st = Some ((CE_None, Some w), st1)
        /\ psOptions st1 = None) ->
  ChunkAndWarpImage_body self dx dy dw dh st = None.
Proof.
  unfold ChunkAndWarpImage_body, bind at 1.
  intros [Hc|[[st1 Hc]|[[[[sx sy] sw] sh] [st1 [Hc Ho]]]]]; rewrite Hc;
    [reflexivity|reflexivity|].
  cbn [CPLErr_eqb negb]. unfold bind at 1. cbn [defined ret].
  unfold bind at 1, options. now rewrite Ho.
Qed.

Lemma ChunkAndWarpImage_body_ext self1 self2 dx dy dw dh st :
  (forall x y w h st,
      (recursion_depth w h < recursion_depth dw dh)%nat ->
      self1 x y w h st = self2 x y w h st) ->
  ChunkAndWarpImage_body self1 dx dy dw dh st
  = ChunkAndWarpImage_body self2 dx dy dw dh st.
Proof.
  intros Hs.
  destruct (ComputeSourceWindow dx dy dw dh st) as [[[eErr win] st1]|] eqn:Hc.
  2:{ rewrite !ChunkAndWarpImage_body_undefined; auto. }
  destruct (CPLErr_eqb eErr CE_None) eqn:He.
  2:{ rewrite !(ChunkAndWarpImage_body_failure _ _ _ _ _ _ _ _ _ Hc);
        [reflexivity | | ]; intros ->; discriminate He. }
  destruct eErr; try discriminate He.
  destruct win as [w|].
  2:{ rewrite !ChunkAndWarpImage_body_undefined; eauto. }
  destruct (psOptions st1) as [o|] eqn:Ho.
  2:{ rewrite !ChunkAndWarpImage_body_undefined; eauto 6. }
  destruct w as [[[sx sy] sw] sh].
  rewrite !(ChunkAndWarpImage_body_run _ _ _ _ _ _ _ _ _ _ _ _ Hc Ho).
  destruct (must_split o sw sh dw dh) eqn:Hm; [|reflexivity].
  apply split_path_ext; [|exact Hs]. eapply must_split_size, Hm.
Qed.

Lemma ChunkAndWarpImage_fuel_agree n : forall m dx dy dw dh st,
  (recursion_depth dw dh <= n)%nat -> (recursion_depth dw dh <= m)%nat ->
  ChunkAndWarpImage_fuel n dx dy dw dh st
  = ChunkAndWarpImage_fuel m dx dy dw dh st.
Proof.
  induction n as [|n IH]; intros [|m] dx dy dw dh st Hn Hm;
    cbn [ChunkAndWarpImage_fuel]; apply ChunkAndWarpImage_body_ext;
    intros x y w h st' D; try lia.
  apply IH; lia.
Qed.

(** The recursion equation of the source function. *)
Lemma ChunkAndWarpImage_unfold dx dy dw dh st :
  ChunkAndWarpImage dx dy dw dh st
  = ChunkAndWarpImage_body ChunkAndWarpImage dx dy dw dh st.
Proof.
  unfold ChunkAndWarpImage at 1.
  destruct (recursion_depth dw dh) as [|n] eqn:E;
    cbn [ChunkAndWarpImage_fuel]; apply ChunkAndWarpImage_body_ext;
    intros x y w h st' D; try lia.
  unfold ChunkAndWarpImage. apply ChunkAndWarpImage_fuel_agree; lia.
Qed.

End Chunker.

(** ** Leaf chunks and tilings *)

Lemma leaf_chunks_app l1 l2 :
  leaf_chunks (l1 ++ l2) = leaf_chunks l1 ++ leaf_chunks l2.
Proof.
  induction l1 as [|e l1 IH]; [reflexivity|].
  destruct e; cbn [leaf_chunks app]; rewrite IH; reflexivity.
Qed.

Lemma leaf_chunks_none l : Forall not_WarpRegion l -> leaf_chunks l = [].
Proof.
  induction 1 as [|e l He _ IH]; [reflexivity|].
  destruct e; cbn [leaf_chunks]; try exact IH. elim He.
Qed.

Lemma covering_app l1 l2 px py :
  covering (l1 ++ l2) px py = (covering l1 px py + covering l2 px py)%nat.
Proof. unfold covering. now rewrite filter_app, length_app. Qed.

Lemma tiles_single r : tiles [r] r.
Proof.
  intros px py. unfold covering. cbn [filter].
  destruct (in_rect r px py); reflexivity.
Qed.

Lemma quot2_bounds d :
  (0 <= d -> 0 <= Z.quot d 2 <= d) /\ (d < 0 -> d <= Z.quot d 2 <= 0).
Proof.
  assert (P : forall a, 0 <= a -> 0 <= Z.quot a 2 <= a).
  { intros a H. pose proof (Z.quot_rem' a 2).
    pose proof (Z.rem_bound_pos a 2 H). lia. }
  split; intros H; [now apply P|].
  pose proof (P (- d)) as Q. rewrite Z.quot_opp_l in Q by lia. lia.
Qed.

(** The two halves of a split are disjoint and cover the parent. *)
Lemma split_chunk_partition dx dy dw dh px py :
  let '(lower, upper) := split_chunk dx dy dw dh in
  in_rect lower px py && in_rect upper px py = false
  /\ in_rect (dx, dy, dw, dh) px py
     = in_rect lower px py || in_rect upper px py.
Proof.
  unfold split_chunk.
  destruct (dh <? dw); cbn [in_rect].
  - destruct (quot2_bounds dw) as [P N].
    split;
      repeat match goal with
             | |- context [?a <=? ?b] => destruct (Z.leb_spec a b)
             | |- context [?a <? ?b] => destruct (Z.ltb_spec a b)
             end; cbn; try reflexivity; lia.
  - destruct (quot2_bounds dh) as [P N].
    split;
      repeat match goal with
             | |- context [?a <=? ?b] => destruct (Z.leb_spec a b)
             | |- context [?a <? ?b] => destruct (Z.ltb_spec a b)
             end; cbn; try reflexivity; lia.
Qed.

Lemma tiles_split dx dy dw dh l1 l2 :
  tiles l1 (fst (split_chunk dx dy dw dh)) ->
  tiles l2 (snd (split_chunk dx dy dw dh)) ->
  tiles (l1 ++ l2) (dx, dy, dw, dh).
Proof.
  intros T1 T2 px py. rewrite covering_app, T1, T2.
  pose proof (split_chunk_partition dx dy dw dh px py) as P.
  destruct (split_chunk dx dy dw dh) as [lower upper]. cbn [fst snd].
  destruct P as [D U]. rewrite U.
  destruct (in_rect lower px py), (in_rect upper px py);
    try reflexivity; discriminate D.
Qed.

Lemma with_progress_add st a b evs c d :
  with_progress (add_calls (with_progress st a b) evs) c d
  = add_calls (with_progress st c d) evs.
Proof. reflexivity. Qed.

Lemma with_progress_same st :
  with_progress st (dfProgressBase st) (dfProgressScale st) = st.
Proof. now destruct st. Qed.

Lemma with_progress_of_add st evs :
  with_progress (add_calls st evs) (dfProgressBase st) (dfProgressScale st)
  = add_calls st evs.
Proof. reflexivity. Qed.

Ltac state_eq :=
  unfold with_progress, add_calls;
  cbn [psOptions dfProgressBase dfProgressScale calls];
  rewrite ?app_nil_r, <- ?app_assoc; reflexivity.

Section Recursion.
Context {collaborators : Collaborators}.

(** Every completed call restores the operation and, on success, has run
    the region executor on a tiling of its rectangle. *)
Lemma ChunkAndWarpImage_calls n : forall dx dy dw dh st e st',
  (recursion_depth dw dh <= n)%nat ->
  ChunkAndWarpImage dx dy dw dh st = Some (e, st') ->
  exists evs,
    st' = add_calls st evs
    /\ (e = CE_None -> tiles (leaf_chunks evs) (dx, dy, dw, dh)).
Proof.
  induction n as [n IH] using lt_wf_ind.
  intros dx dy dw dh st e st' Hn H.
  rewrite ChunkAndWarpImage_unfold in H.
  destruct (ComputeSourceWindow dx dy dw dh st) as [[[eErr win] st1]|] eqn:Hc.
  2:{ rewrite ChunkAndWarpImage_body_undefined in H by auto. discriminate H. }
  destruct (appends_ComputeSourceWindow _ _ _ _ _ _ _ Hc) as [ev0 [-> F0]].
  destruct (CPLErr_eqb eErr CE_None) eqn:He.
  2:{ rewrite (ChunkAndWarpImage_body_failure _ _ _ _ _ _ _ _ _ Hc) in H
        by (intros ->; discriminate He).
      injection H as <- <-. exists ev0. split; [reflexivity|].
      intros ->. discriminate He. }
  destruct eErr; try discriminate He.
  destruct win as [w|].
  2:{ rewrite ChunkAndWarpImage_body_undefined in H by eauto.
      discriminate H. }
  destruct (psOptions (add_calls st ev0)) as [o|] eqn:Ho.
  2:{ rewrite ChunkAndWarpImage_body_undefined in H by eauto 6.
      discriminate H. }
  destruct w as [[[sx sy] sw] sh].
  rewrite (ChunkAndWarpImage_body_run _ _ _ _ _ _ _ _ _ _ _ _ Hc Ho) in H.
  destruct (must_split o sw sh dw dh) eqn:Hm.
  - (* split *)
    apply must_split_size in Hm.
    unfold split_path in H.
    pose proof (tiles_split dx dy dw dh) as TS.
    destruct (split_chunk dx dy dw dh)
      as [[[[x1 y1] w1] h1] [[[x2 y2] w2] h2]] eqn:E.
    destruct (split_chunk_depth _ _ _ _ _ _ _ _ _ _ _ _ Hm E) as [D1 D2].
    cbn [fst snd] in TS.
    destruct (ChunkAndWarpImage x1 y1 w1 h1 _) as [[e1 st2]|] eqn:H1;
      [|discriminate H].
    apply (IH (recursion_depth w1 h1)) in H1; [|lia|lia].
    destruct H1 as [evs1 [-> T1]].
    assert (R : forall e2 evs2,
               (e2 = CE_None -> e1 = CE_None /\ tiles (leaf_chunks evs2)
                                                  (x2, y2, w2, h2)) ->
               exists evs,
                 add_calls (add_calls st ev0) (evs1 ++ evs2)
                 = add_calls st evs
                 /\ (e2 = CE_None ->
                     tiles (leaf_chunks evs) (dx, dy, dw, dh))).
    { intros e2 evs2 T. exists (ev0 ++ evs1 ++ evs2).
      split; [apply add_calls_app|]. intros E2.
      destruct (T E2) as [E1 T2].
      rewrite leaf_chunks_app, (leaf_chunks_none ev0 F0), leaf_chunks_app.
      cbn [app]. apply TS; [apply T1, E1 | exact T2]. }
    destruct e1.
    + destruct (ChunkAndWarpImage x2 y2 w2 h2 _) as [[e3 st3]|] eqn:H2;
        [|discriminate H].
      apply (IH (recursion_depth w2 h2)) in H2; [|lia|lia].
      destruct H2 as [evs2 [-> T2]].
      injection H as <- <-.
      destruct (R e3 evs2) as [evs [Eq T]]; [auto|].
      exists evs. split; [|exact T]. rewrite <- Eq. state_eq.
    + injection H as <- <-.
      destruct (R CE_Debug []) as [evs [Eq T]]; [discriminate|].
      exists evs. split; [|exact T]. rewrite <- Eq. state_eq.
    + injection H as <- <-.
      destruct (R CE_Warning []) as [evs [Eq T]]; [discriminate|].
      exists evs. split; [|exact T]. rewrite <- Eq. state_eq.
    + injection H as <- <-.
      destruct (R CE_Failure []) as [evs [Eq T]]; [discriminate|].
      exists evs. split; [|exact T]. rewrite <- Eq. state_eq.
    + injection H as <- <-.
      destruct (R CE_Fatal []) as [evs [Eq T]]; [discriminate|].
      exists evs. split; [|exact T]. rewrite <- Eq. state_eq.
  - (* the chunk fits *)
    apply WarpRegion_calls in H. destruct H as [evs [-> F]].
    exists (ev0 ++ EvWarpRegion dx dy dw dh sx sy sw sh :: evs).
    split; [apply add_calls_app|]. intros _.
    rewrite leaf_chunks_app, (leaf_chunks_none ev0 F0).
    cbn [leaf_chunks app]. rewrite (leaf_chunks_none evs F).
    apply tiles_single.
Qed.

End Recursion.

(** ** The chunker (C2, C5, C6, C10) *)

Section ChunkerClaims.
Context {collaborators : Collaborators}.

(** C2: after a successful estimate (sx, sy, sw, sh), ChunkAndWarpImage
    prices the chunk at (src_bits_per_pixel * sw * sh + dst_bits_per_pixel
    * dw * dh) / 8 bytes, with the bits per pixel of the cost model; it takes
    the split path (longer dimension cut into dim/2 and dim - dim/2, lower
    half first) exactly when that price is above the memory limit and dw > 2
    or dh > 2, and otherwise runs WarpRegion on the whole chunk with the
    source window already computed. *)
Theorem ChunkAndWarpImage_cost_and_split :
  forall st st1 o dx dy dw dh sx sy sw sh,
    ComputeSourceWindow dx dy dw dh st
    = Some ((CE_None, Some (sx, sy, sw, sh)), st1) ->
    psOptions st1 = Some o ->
    dfTotalMemoryUse o sw sh dw dh = total_bytes o sw sh dw dh
    /\ ChunkAndWarpImage dx dy dw dh st
       = if PrimFloat.ltb (dfWarpMemoryLimit o) (total_bytes o sw sh dw dh)
            && ((2 <? dw) || (2 <? dh))
         then split_path ChunkAndWarpImage dx dy dw dh st1
         else WarpRegion dx dy dw dh sx sy sw sh st1.
Proof.
  intros st st1 o dx dy dw dh sx sy sw sh Hc Ho.
  split; [apply dfTotalMemoryUse_spec|].
  rewrite ChunkAndWarpImage_unfold.
  apply (ChunkAndWarpImage_body_run _ _ _ _ _ _ _ _ _ _ _ _ Hc Ho).
Qed.

(** C5: whatever a call of ChunkAndWarpImage returns, success or failure,
    with or without splits, dfProgressBase and dfProgressScale are afterwards
    what they were before the call. *)
Theorem ChunkAndWarpImage_progress_restored :
  forall st dx dy dw dh e st',
    ChunkAndWarpImage dx dy dw dh st = Some (e, st') ->
    dfProgressBase st' = dfProgressBase st
    /\ dfProgressScale st' = dfProgressScale st.
Proof.
  intros st dx dy dw dh e st' H.
  apply (ChunkAndWarpImage_calls (recursion_depth dw dh)) in H; [|lia].
  destruct H as [evs [-> _]]. split; reflexivity.
Qed.

(** C6, as amended: whenever ChunkAndWarpImage returns success, the
    rectangles on which it has run WarpRegion tile the destination
    rectangle: every pixel of the rectangle lies in exactly one of them and
    no other pixel lies in any; and the two halves of any split are disjoint
    and their union is the parent rectangle. *)
Theorem ChunkAndWarpImage_tiles :
  forall st dx dy dw dh st',
    ChunkAndWarpImage dx dy dw dh st = Some (CE_None, st') ->
    tiles (leaf_chunks (new_calls st st')) (dx, dy, dw, dh)
    /\ forall x y w h px py,
         in_rect (fst (split_chunk x y w h)) px py
         && in_rect (snd (split_chunk x y w h)) px py = false
         /\ in_rect (x, y, w, h) px py
            = in_rect (fst (split_chunk x y w h)) px py
              || in_rect (snd (split_chunk x y w h)) px py.
Proof.
  intros st dx dy dw dh st' H. split.
  - apply (ChunkAndWarpImage_calls (recursion_depth dw dh)) in H; [|lia].
    destruct H as [evs [-> T]]. rewrite new_calls_add. now apply T.
  - intros x y w h px py.
    pose proof (split_chunk_partition x y w h px py) as P.
    destruct (split_chunk x y w h). exact P.
Qed.

(** C10: when the estimate for the rectangle fails, because the transformer
    refuses the batch or because fewer than 10 points survive,
    ChunkAndWarpImage returns failure having only called the transformer and
    reported the error: no allocation, no raster read or write, no kernel,
    no region executor; and the progress pair is untouched. *)
Theorem ChunkAndWarpImage_estimation_failure :
  forall st o f dx dy dw dh,
    psOptions st = Some o ->
    pfnTransformer o = Some f ->
    tr_ok (transformed f st dx dy dw dh) = false
    \/ 84 - 10 < failures (transformed f st dx dy dw dh) 84 ->
    let diag :=
      if tr_ok (transformed f st dx dy dw dh) then ev_too_many
      else ev_refused in
    let st' := add_calls st [ev_transformer dx dy dw dh; diag] in
    ChunkAndWarpImage dx dy dw dh st = Some (CE_Failure, st')
    /\ Forall harmless (new_calls st st')
    /\ dfProgressBase st' = dfProgressBase st
    /\ dfProgressScale st' = dfProgressScale st.
Proof.
  intros st o f dx dy dw dh Ho Hf Hfail diag st'.
  assert (E : estimator_outcome o (transformed f st dx dy dw dh)
              = Some ((CE_Failure, None), [diag])).
  { unfold estimator_outcome, outcome_of, diag.
    destruct (tr_ok (transformed f st dx dy dw dh)); cbn [negb].
    - destruct Hfail as [Hfail|Hfail]; [discriminate|].
      apply Z.ltb_lt in Hfail. now rewrite Hfail.
    - reflexivity. }
  split.
  { rewrite ChunkAndWarpImage_unfold.
    apply ChunkAndWarpImage_body_failure with (win := None);
      [|discriminate].
    rewrite (ComputeSourceWindow_run st o f) by assumption.
    now rewrite E. }
  split; [|split; reflexivity].
  unfold st'. rewrite new_calls_add.
  constructor; [exact I|]. constructor; [|constructor].
  unfold diag. destruct (tr_ok _); exact I.
Qed.

End ChunkerClaims.

(** C6, as stated, fails when the run fails: with a transformer that refuses
    every batch the region executor runs on no chunk at all, and pixel
    (0, 0) of the rectangle (0, 0, 10, 10) is left uncovered. *)
Lemma ChunkAndWarpImage_tiles_counterexample :
  ~ (forall (c : Collaborators) st dx dy dw dh e st',
        @ChunkAndWarpImage c dx dy dw dh st = Some (e, st') ->
        tiles (leaf_chunks (new_calls st st')) (dx, dy, dw, dh)).
Proof.
  intros H.
  specialize
    (H Example.plain
       (Example.warp_300 GRA_NearestNeighbour Example.refuse) 0 0 10 10
       CE_Failure
       (add_calls (Example.warp_300 GRA_NearestNeighbour Example.refuse)
                  [ev_transformer 0 0 10 10; ev_refused])).
  assert (R : @ChunkAndWarpImage Example.plain 0 0 10 10
                (Example.warp_300 GRA_NearestNeighbour Example.refuse)
              = Some (CE_Failure,
                      add_calls
                        (Example.warp_300 GRA_NearestNeighbour Example.refuse)
                        [ev_transformer 0 0 10 10; ev_refused]))
    by (vm_compute; reflexivity).
  specialize (H R 0 0). rewrite new_calls_add in H.
  vm_compute in H. discriminate H.
Qed.

Lemma ChunkAndWarpImage_cost_and_split_witness :
  @dfTotalMemoryUse Example.plain
    (Example.defaulted
       (Example.warp_options GRA_NearestNeighbour 100 (Example.raster 10 10)
                             (Example.raster 10 10) Example.identity))
    10 10 10 10
  = 200%float
  /\ @ChunkAndWarpImage Example.plain 0 0 10 10
       (Example.tight_budget Example.identity)
     = split_path (@ChunkAndWarpImage Example.plain) 0 0 10 10
         (add_calls (Example.tight_budget Example.identity)
                    [ev_transformer 0 0 10 10]).
Proof.
  destruct (@ChunkAndWarpImage_cost_and_split Example.plain
              (Example.tight_budget Example.identity)
              (add_calls (Example.tight_budget Example.identity)
                         [ev_transformer 0 0 10 10])
              (Example.defaulted
                 (Example.warp_options GRA_NearestNeighbour 100
                    (Example.raster 10 10) (Example.raster 10 10)
                    Example.identity))
              0 0 10 10 0 0 10 10
              ltac:(vm_compute; reflexivity) ltac:(vm_compute; reflexivity))
    as [Hcost Hrun].
  split.
  - rewrite Hcost. vm_compute. reflexivity.
  - rewrite Hrun. reflexivity.
Defined.

Lemma ChunkAndWarpImage_progress_restored_witness :
  let st := Example.tight_budget Example.identity in
  let r := @ChunkAndWarpImage Example.plain 0 0 10 10 st in
  Example.status r CE_Failure = CE_None
  /\ leaf_chunks (calls (Example.final r st)) = [(0, 0, 10, 5); (0, 5, 10, 5)]
  /\ dfProgressBase (Example.final r st) = dfProgressBase st
  /\ dfProgressScale (Example.final r st) = dfProgressScale st.
Proof.
  intros st r.
  split; [vm_compute; reflexivity|].
  split; [vm_compute; reflexivity|].
  apply (@ChunkAndWarpImage_progress_restored Example.plain st 0 0 10 10
           (Example.status r CE_Failure)).
  vm_compute. reflexivity.
Defined.

Lemma ChunkAndWarpImage_tiles_witness :
  let st := Example.tight_budget Example.identity in
  let r := @ChunkAndWarpImage Example.plain 0 0 10 10 st in
  tiles (leaf_chunks (new_calls st (Example.final r st))) (0, 0, 10, 10).
Proof.
  intros st r.
  apply (proj1 (@ChunkAndWarpImage_tiles Example.plain st 0 0 10 10
                  (Example.final r st) ltac:(vm_compute; reflexivity))).
Defined.

Lemma ChunkAndWarpImage_estimation_failure_witness :
  @ChunkAndWarpImage Example.plain 0 0 10 10
    (Example.warp_300 GRA_NearestNeighbour (Example.first_only 9))
  = Some (CE_Failure,
          add_calls (Example.warp_300 GRA_NearestNeighbour
                                      (Example.first_only 9))
                    [ev_transformer 0 0 10 10; ev_too_many]).
Proof.
  exact (proj1 (@ChunkAndWarpImage_estimation_failure Example.plain
              (Example.warp_300 GRA_NearestNeighbour (Example.first_only 9))
              (Example.defaulted
                 (Example.options_300 GRA_NearestNeighbour
                                      (Example.first_only 9)))
              (Example.first_only 9) 0 0 10 10
              ltac:(vm_compute; reflexivity) ltac:(reflexivity)
              ltac:(right; vm_compute; reflexivity))).
Defined.

(** ** CreateKernelMask (C9) *)

Lemma ceil_div8_quot n : 0 <= n -> Z.quot (n + 7) 8 = ceil_div8 n.
Proof.
  intros H. rewrite Z.quot_div_nonneg by lia.
  unfold ceil_div8, Qceiling, Qfloor. cbn [Qopp Qnum Qden].
  pose proof (Z.div_mod (n + 7) 8). pose proof (Z.mod_pos_bound (n + 7) 8).
  pose proof (Z.div_mod (- n) 8). pose proof (Z.mod_pos_bound (- n) 8).
  lia.
Qed.

Lemma nth_error_list_set {A} (l : list A) i v :
  (i < List.length l)%nat -> nth_error (list_set l i v) i = Some v.
Proof.
  revert i. induction l as [|a l IH]; intros [|i] H; cbn in *;
    try lia; [reflexivity|]. apply IH. lia.
Qed.

Lemma read_write_slot k s v old :
  read_slot k s = Some old -> read_slot (write_slot k s v) s = Some v.
Proof.
  destruct s as [iBand| | | |]; cbn; try reflexivity.
  destruct (WK.papanBandSrcValid k) as [a|]; [|discriminate]. cbn.
  destruct (iBand <? 0); [discriminate|]. intros H.
  apply nth_error_list_set. apply nth_error_Some. congruence.
Qed.

Lemma mask_particulars_known m k iBand :
  mask_particulars k iBand (mask_name m)
  = Some (with_band_array m k, mask_slot m iBand,
          fst (mask_window m k), snd (mask_window m k),
          mask_bits m, mask_default m).
Proof.
  destruct m; unfold mask_particulars; cbn [mask_name]; try reflexivity.
  unfold with_band_array.
  change (EQUAL "BandSrcValid" "BandSrcValid") with true. cbv iota.
  destruct (WK.papanBandSrcValid k); reflexivity.
Qed.

Lemma mask_particulars_unknown name k iBand :
  unknown_mask name -> mask_particulars k iBand name = None.
Proof.
  intros U. unfold mask_particulars.
  pose proof (U BandSrcValid) as U1. pose proof (U UnifiedSrcValid) as U2.
  pose proof (U UnifiedSrcDensity) as U3. pose proof (U DstValid) as U4.
  pose proof (U DstDensity) as U5. cbn [mask_name] in *.
  now rewrite U1, U2, U3, U4, U5.
Qed.

Lemma with_band_array_present m k iBand buf :
  read_slot k (mask_slot m iBand) = Some (Some buf) ->
  with_band_array m k = k.
Proof.
  destruct m; try reflexivity. unfold with_band_array. cbn.
  destruct (WK.papanBandSrcValid k); [reflexivity|discriminate].
Qed.

Section Masks.
Context {collaborators : Collaborators}.

Lemma CreateKernelMask_present m k iBand buf st :
  read_slot k (mask_slot m iBand) = Some (Some buf) ->
  CreateKernelMask k iBand (mask_name m) st = Some ((CE_None, k), st).
Proof.
  intros H. unfold CreateKernelMask.
  rewrite mask_particulars_known,
    (with_band_array_present m k iBand buf H).
  unfold bind. rewrite H. reflexivity.
Qed.

Lemma CreateKernelMask_nBytes m W H :
  0 <= W * H ->
  plane_fits (mask_bits m) W H ->
  (if mask_bits m =? 32 then
     obind (int_of (W * H)) (fun n => int_of (n * 4))
   else
     obind (int_of (W * H)) (fun n =>
     obind (int_of (n + 7)) (fun n => Some (Z.quot n 8))))
  = Some (plane_bytes (mask_bits m) W H).
Proof.
  intros P F. unfold plane_fits, plane_bytes in *.
  destruct (mask_bits m =? 32).
  - rewrite (int_of_fits (W * H)) by (unfold fits_int, INT_MIN, INT_MAX in *; lia).
    cbn [obind]. apply int_of_fits. unfold fits_int, INT_MIN, INT_MAX in *. lia.
  - rewrite (int_of_fits (W * H)) by (unfold fits_int, INT_MIN, INT_MAX in *; lia).
    cbn [obind].
    rewrite (int_of_fits (W * H + 7))
      by (unfold fits_int, INT_MIN, INT_MAX in *; lia).
    cbn [obind]. f_equal. now apply ceil_div8_quot.
Qed.

(** C9: for each of the five plane names, CreateKernelMask returns success
    and changes nothing when the selected plane exists; when it does not, the
    byte count can be computed in int (W*H*4, or W*H + 7, does not exceed
    the largest int) and the allocation succeeds, it allocates ceil(W*H/8)
    bytes for a validity plane or W*H*4 bytes for a density plane, W x H
    being the source window for source planes and the destination window for
    destination planes, fills every byte with the default (0xFF for
    validity, 0 for density), and a second call then leaves the kernel as it
    is; a name that is none of the five gives failure. *)
Theorem CreateKernelMask_idempotent :
  forall (m : MaskName) (k : GDALWarpKernel) (iBand : Z)
         (st : GDALWarpOperation),
    let slot := mask_slot m iBand in
    let W := fst (mask_window m k) in
    let H := snd (mask_window m k) in
    let n := plane_bytes (mask_bits m) W H in
    let created :=
      write_slot (with_band_array m k) slot
                 (Some (repeat (mask_default m) (Z.to_nat n))) in
    (forall buf,
        read_slot k slot = Some (Some buf) ->
        CreateKernelMask k iBand (mask_name m) st = Some ((CE_None, k), st))
    /\ (read_slot (with_band_array m k) slot = Some None ->
        0 <= W * H ->
        plane_fits (mask_bits m) W H ->
        VSIMalloc (calls st) n = true ->
        CreateKernelMask k iBand (mask_name m) st
        = Some ((CE_None, created), add_calls st [EvVSIMalloc n true])
        /\ read_slot created slot
           = Some (Some (repeat (mask_default m) (Z.to_nat n)))
        /\ CreateKernelMask created iBand (mask_name m)
             (add_calls st [EvVSIMalloc n true])
           = Some ((CE_None, created), add_calls st [EvVSIMalloc n true]))
    /\ (forall name,
          unknown_mask name ->
          CreateKernelMask k iBand name st
          = Some ((CE_Failure, k), add_calls st [ev_unknown_mask])).
Proof.
  intros m k iBand st slot W H n created.
  split; [intros buf Hb; now apply CreateKernelMask_present with buf|].
  split.
  - intros Hnull Hpos Hfit Hok.
    assert (R : read_slot created slot
                = Some (Some (repeat (mask_default m) (Z.to_nat n))))
      by (eapply read_write_slot; exact Hnull).
    split; [|split; [exact R|]].
    + unfold CreateKernelMask. rewrite mask_particulars_known.
      fold slot W H. unfold bind at 1. rewrite Hnull.
      cbn [defined ret is_null].
      unfold bind at 1.
      rewrite (CreateKernelMask_nBytes m W H Hpos Hfit). fold n.
      cbn [defined ret].
      unfold bind, this. rewrite Hok, emit_run. reflexivity.
    + eapply CreateKernelMask_present. exact R.
  - intros name U. unfold CreateKernelMask.
    rewrite (mask_particulars_unknown name k iBand U).
    unfold bind, CPLError. rewrite emit_run. reflexivity.
Qed.

End Masks.

Lemma CreateKernelMask_idempotent_witness :
  @CreateKernelMask Example.plain Example.small_kernel 1 "BandSrcValid"
    new_GDALWarpOperation
  = Some ((CE_None,
           write_slot (with_band_array BandSrcValid Example.small_kernel)
                      (SlotBandSrcValid 1) (Some [255; 255])),
          add_calls new_GDALWarpOperation [EvVSIMalloc 2 true]).
Proof.
  exact (proj1 (proj1 (proj2 (@CreateKernelMask_idempotent Example.plain
                  BandSrcValid Example.small_kernel 1 new_GDALWarpOperation))
                  ltac:(reflexivity) ltac:(vm_compute; discriminate)
                  ltac:(vm_compute; discriminate)
                  ltac:(reflexivity))).
Defined.

(** C9, as stated, fails where the byte count leaves the range of [int]: for
    a density plane over a 30000 x 30000 destination window W*H*4 is
    3600000000, which no [int] holds, and CreateKernelMask does not allocate
    that many bytes. *)
Lemma CreateKernelMask_idempotent_counterexample :
  ~ (forall (c : Collaborators) (m : MaskName) (k : GDALWarpKernel)
            (iBand : Z) (st : GDALWarpOperation),
        let W := fst (mask_window m k) in
        let H := snd (mask_window m k) in
        let n := plane_bytes (mask_bits m) W H in
        read_slot (with_band_array m k) (mask_slot m iBand) = Some None ->
        0 <= W * H ->
        @VSIMalloc c (calls st) n = true ->
        exists k',
          @CreateKernelMask c k iBand (mask_name m) st
          = Some ((CE_None, k'), add_calls st [EvVSIMalloc n true])).
Proof.
  intros H.
  assert (R : @CreateKernelMask Example.plain Example.large_kernel 0
                (mask_name DstDensity) new_GDALWarpOperation
              = None) by (vm_compute; reflexivity).
  destruct (H Example.plain DstDensity Example.large_kernel 0
              new_GDALWarpOperation) as [k' E].
  - reflexivity.
  - vm_compute. discriminate.
  - reflexivity.
  - rewrite R in E. discriminate E.
Qed.

(** ** ValidateOptions (C3) *)

(** The test on the working type can never reject. *)
Lemma working_type_test_never_fires t :
  (t <? 1) && (GDT_TypeCount <=? t) = false.
Proof.
  unfold GDT_TypeCount.
  destruct (Z.ltb_spec t 1), (Z.leb_spec 12 t); try reflexivity. lia.
Qed.

(** C3: Initialize accepts, with CE_None, options whose working type is the
    code 99, which is no raster type, and options whose destination no-data
    has a real sequence and no imaginary one; each record is kept as the
    options in effect. *)
Theorem Initialize_accepts_invalid_options :
  let base :=
    Example.warp_options GRA_NearestNeighbour 0 (Example.raster 10 10)
                         (Example.raster 10 10) Example.identity in
  let bad_type := with_working_type base 99 in
  let bad_nodata := Example.with_dst_nodata base (Some [0%float]) None in
  (Example.status (Initialize bad_type new_GDALWarpOperation) CE_Failure
   = CE_None
   /\ option_map eWorkingDataType
        (psOptions (Example.final (Initialize bad_type new_GDALWarpOperation)
                                  new_GDALWarpOperation))
      = Some 99)
  /\ (Example.status (Initialize bad_nodata new_GDALWarpOperation) CE_Failure
      = CE_None
      /\ option_map (fun o => (is_null (padfDstNoDataReal o),
                               is_null (padfDstNoDataImag o)))
           (psOptions (Example.final
                         (Initialize bad_nodata new_GDALWarpOperation)
                         new_GDALWarpOperation))
         = Some (false, true)).
Proof. repeat split; vm_compute; reflexivity. Qed.

(** * Further properties *)

(** ** ValidateOptions and Initialize *)

Lemma reject_run fmt st :
  reject fmt st
  = Some (false,
          add_calls st
            [EvCPLError CE_Failure CPLE_IllegalArg
               (String.append "GDALWarpOptions.Validate()"
                  (String.append LF (String.append "  " fmt)))]).
Proof. reflexivity. Qed.

Lemma index_run {A} (l : list A) (i : Z) (dflt : A) st :
  0 <= i < Z.of_nat (List.length l) ->
  index (Some l) i st = Some (nth (Z.to_nat i) l dflt, st).
Proof.
  intros H. unfold index.
  destruct (Z.ltb_spec i 0); [lia|].
  rewrite (nth_error_nth' l dflt) by lia. reflexivity.
Qed.

Lemma upto_range n i : In i (upto n) -> 0 <= i < n.
Proof.
  unfold upto. intros H. apply in_map_iff in H.
  destruct H as [k [<- H]]. apply in_seq in H. lia.
Qed.

Lemma ValidateOptions_bands_run o src dst s d l st :
  panSrcBands o = Some s -> panDstBands o = Some d ->
  (forall i, In i l ->
     0 <= i < Z.of_nat (List.length s) /\ 0 <= i < Z.of_nat (List.length d)) ->
  let ok := forallb (fun i => band_ok src dst (nth (Z.to_nat i) s 0)
                                      (nth (Z.to_nat i) d 0)) l in
  exists st',
    ValidateOptions_bands o src dst l st = Some (ok, st')
    /\ (if ok then st' = st
        else exists fmt,
            st' = add_calls st [EvCPLError CE_Failure CPLE_IllegalArg fmt]).
Proof.
  intros Hs Hd. induction l as [|i l IH]; intros Hr ok.
  - exists st. split; reflexivity.
  - destruct (Hr i (or_introl eq_refl)) as [Ri Rd].
    cbn [ValidateOptions_bands]. unfold bind at 1.
    rewrite Hs, (index_run s i 0 st Ri).
    subst ok. cbn [forallb].
    set (sv := nth (Z.to_nat i) s 0). set (dv := nth (Z.to_nat i) d 0).
    set (rest := forallb _ l).
    assert (Eb : band_ok src dst sv dv
                 = (1 <=? sv) && (sv <=? GDALGetRasterCount src)
                   && (1 <=? dv) && (dv <=? GDALGetRasterCount dst)
                   && match GDALGetRasterBand dst dv with
                      | Some b => match GDALGetRasterAccess b with
                                  | GA_Update => true
                                  | GA_ReadOnly => false
                                  end
                      | None => false
                      end) by reflexivity.
    rewrite Eb. clear Eb.
    rewrite (Z.ltb_antisym 1 sv), (Z.ltb_antisym sv (GDALGetRasterCount src)).
    destruct (1 <=? sv); cbn [negb orb andb].
    2:{ unfold bind, CPLError, ret. rewrite emit_run.
        eexists; split; [reflexivity | eexists; reflexivity]. }
    destruct (sv <=? GDALGetRasterCount src); cbn [negb orb andb].
    2:{ unfold bind, CPLError, ret. rewrite emit_run.
        eexists; split; [reflexivity | eexists; reflexivity]. }
    unfold bind at 1. rewrite Hd, (index_run d i 0 st Rd). fold dv.
    rewrite (Z.ltb_antisym 1 dv), (Z.ltb_antisym dv (GDALGetRasterCount dst)).
    destruct (Z.leb_spec 1 dv) as [D1|D1]; cbn [negb orb andb].
    2:{ unfold bind, CPLError, ret. rewrite emit_run.
        eexists; split; [reflexivity | eexists; reflexivity]. }
    destruct (Z.leb_spec dv (GDALGetRasterCount dst)) as [D2|D2];
      cbn [negb orb andb].
    2:{ unfold bind, CPLError, ret. rewrite emit_run.
        eexists; split; [reflexivity | eexists; reflexivity]. }
    unfold bind at 1.
    destruct (GDALGetRasterBand dst dv) as [hBand|] eqn:Hb.
    2:{ exfalso. unfold GDALGetRasterBand in Hb.
        destruct (Z.leb_spec 1 dv); [|lia].
        destruct (Z.leb_spec dv (GDALGetRasterCount dst)); [|lia].
        cbn [andb] in Hb. apply nth_error_None in Hb.
        unfold GDALGetRasterCount in *. lia. }
    cbn [defined ret].
    destruct (GDALGetRasterAccess hBand).
    + unfold bind, CPLError, ret. rewrite emit_run.
      eexists; split; [reflexivity | eexists; reflexivity].
    + cbn [andb]. apply IH. intros j Hj. apply Hr. now right.
Qed.

(** X1: on an operation holding options whose band arrays are long enough,
    ValidateOptions answers TRUE exactly when [options_valid] holds; it then
    changes nothing, and otherwise reports exactly one error. *)
Theorem ValidateOptions_decides :
  forall st o,
    psOptions st = Some o ->
    bands_cover o ->
    exists st',
      ValidateOptions st = Some (options_valid o, st')
      /\ (if options_valid o then st' = st
          else exists fmt,
              st' = add_calls st [EvCPLError CE_Failure CPLE_IllegalArg fmt]).
Proof.
  intros st o Ho Hcover.
  assert (Rej : forall fmt,
             exists st',
               reject fmt st = Some (false, st')
               /\ exists fmt',
                   st' = add_calls st
                           [EvCPLError CE_Failure CPLE_IllegalArg fmt']).
  { intros fmt. rewrite reject_run. eauto. }
  unfold ValidateOptions, bind at 1, this. rewrite Ho.
  unfold options_valid.
  destruct (PrimFloat.ltb (dfWarpMemoryLimit o) 100000); cbn [negb andb];
    [apply Rej|].
  destruct (eResampleAlg o =? GRA_NearestNeighbour),
           (eResampleAlg o =? GRA_Bilinear),
           (eResampleAlg o =? GRA_Cubic); cbn [negb andb orb];
    try apply Rej; rewrite working_type_test_never_fires.
  all: destruct (hSrcDS o) as [src|]; [|apply Rej].
  all: destruct (hDstDS o) as [dst|]; [|apply Rej].
  all: unfold bands_cover in Hcover.
  all: destruct (nBandCount o =? 0) eqn:En;
    [destruct (panSrcBands o), (panDstBands o); cbn [negb andb]; apply Rej|].
  all: destruct (panSrcBands o) as [s|] eqn:Es; [|apply Rej].
  all: destruct (panDstBands o) as [d|] eqn:Ed; [|apply Rej].
  all: cbn [is_null orb negb andb].
  all: destruct (ValidateOptions_bands_run o src dst s d
                   (upto (nBandCount o)) st Es Ed) as [st1 [Hrun Hst]];
    [intros i Hi; apply upto_range in Hi; lia|].
  all: unfold bind at 1; rewrite Hrun.
  all: destruct (forallb _ (upto (nBandCount o)));
    [subst st1|cbn [negb andb]; eexists; split; [reflexivity|exact Hst]].
  all: cbn [negb andb].
  all: destruct (is_null (padfSrcNoDataReal o)),
                (is_null (padfSrcNoDataImag o)); cbn [negb andb orb];
    try apply Rej.
  all: destruct (is_null (pfnProgress o)); cbn [negb andb]; [apply Rej|].
  all: destruct (is_null (pfnTransformer o)); cbn [negb andb]; [apply Rej|].
  all: eexists; split; reflexivity.
Qed.

Lemma ValidateOptions_decides_witness :
  exists st',
    ValidateOptions Example.cubic_box
    = Some (options_valid
              (Example.defaulted
                 (Example.options_300 GRA_Cubic
                    (Example.corners 100.3 50.2 200.7 60.9))), st')
    /\ (if options_valid
             (Example.defaulted
                (Example.options_300 GRA_Cubic
                   (Example.corners 100.3 50.2 200.7 60.9)))
        then st' = Example.cubic_box
        else exists fmt,
            st' = add_calls Example.cubic_box
                    [EvCPLError CE_Failure CPLE_IllegalArg fmt]).
Proof.
  apply (ValidateOptions_decides Example.cubic_box
           (Example.defaulted
              (Example.options_300 GRA_Cubic
                 (Example.corners 100.3 50.2 200.7 60.9)))).
  - vm_compute. reflexivity.
  - vm_compute. split; discriminate.
Defined.

Lemma index_inv {A} (a : option (list A)) (i : Z) (dflt : A) st v st' :
  index a i st = Some (v, st') ->
  exists l, a = Some l /\ 0 <= i < Z.of_nat (List.length l)
            /\ v = nth (Z.to_nat i) l dflt /\ st' = st.
Proof.
  unfold index. destruct a as [l|]; [|discriminate].
  destruct (Z.ltb_spec i 0); [discriminate|].
  unfold defined. destruct (nth_error l (Z.to_nat i)) as [x|] eqn:E;
    [|discriminate].
  intros Hr. injection Hr as <- <-. exists l.
  assert (Z.to_nat i < List.length l)%nat
    by (apply nth_error_Some; congruence).
  repeat split; try lia.
  symmetry. now apply nth_error_nth.
Qed.

Lemma ValidateOptions_bands_verdict o src dst l : forall st b st',
  ValidateOptions_bands o src dst l st = Some (b, st') ->
  verdict st b st'
  /\ (b = true ->
      forall s d, panSrcBands o = Some s -> panDstBands o = Some d ->
        forall i, In i l ->
          0 <= i < Z.of_nat (List.length s)
          /\ 0 <= i < Z.of_nat (List.length d)
          /\ band_ok src dst (nth (Z.to_nat i) s 0) (nth (Z.to_nat i) d 0)
             = true).
Proof.
  induction l as [|i l IH]; intros st b st' H.
  - injection H as <- <-. split; [reflexivity|]. intros _ s d _ _ j [].
  - cbn [ValidateOptions_bands] in H.
    apply bind_Some in H. destruct H as [sv [st1 [Hs H]]].
    destruct (index_inv _ _ 0 _ _ _ Hs) as [s [Es [Rs [Vs ->]]]].
    destruct ((sv <? 1) || (GDALGetRasterCount src <? sv)) eqn:Cs.
    { unfold bind, CPLError, ret in H. rewrite emit_run in H.
      injection H as <- <-.
      split; [cbn; eauto | discriminate]. }
    apply bind_Some in H. destruct H as [dv [st1 [Hd H]]].
    destruct (index_inv _ _ 0 _ _ _ Hd) as [d [Ed [Rd [Vd ->]]]].
    destruct ((dv <? 1) || (GDALGetRasterCount dst <? dv)) eqn:Cd.
    { unfold bind, CPLError, ret in H. rewrite emit_run in H.
      injection H as <- <-.
      split; [cbn; eauto | discriminate]. }
    apply bind_Some in H. destruct H as [hBand [st1 [Hb H]]].
    destruct (GDALGetRasterBand dst dv) as [hb|] eqn:Eb; [|discriminate Hb].
    injection Hb as <- <-.
    destruct (GDALGetRasterAccess hb) eqn:Ea.
    { unfold bind, CPLError, ret in H. rewrite emit_run in H.
      injection H as <- <-.
      split; [cbn; eauto | discriminate]. }
    apply IH in H. destruct H as [V F]. split; [exact V|].
    intros Hb s' d' Es' Ed' j [<-|Hj].
    + rewrite Es in Es'. rewrite Ed in Ed'.
      injection Es' as <-. injection Ed' as <-.
      split; [exact Rs|]. split; [exact Rd|].
      unfold band_ok. rewrite <- Vs, <- Vd, Eb, Ea.
      apply orb_false_iff in Cs. apply orb_false_iff in Cd.
      destruct Cs as [C1 C2], Cd as [C3 C4].
      apply Z.ltb_ge in C1, C2, C3, C4.
      apply Z.leb_le in C1, C2, C3, C4. now rewrite C1, C2, C3, C4.
    + now apply F.
Qed.

(** Acceptance changes nothing, rejection adds exactly one report. *)
Lemma ValidateOptions_verdict st b st' :
  ValidateOptions st = Some (b, st') -> verdict st b st'.
Proof.
  intros H.
  unfold ValidateOptions, bind at 1, this in H.
  assert (Rej : forall fmt, reject fmt st = Some (b, st') ->
                            verdict st b st').
  { intros fmt R. rewrite reject_run in R. injection R as <- <-.
    cbn. eauto. }
  destruct (psOptions st) as [o|]; [|eapply Rej, H].
  destruct (PrimFloat.ltb _ _); [eapply Rej, H|].
  destruct (_ && _); [eapply Rej, H|].
  destruct (_ && _); [eapply Rej, H|].
  destruct (hSrcDS o) as [src|]; [|eapply Rej, H].
  destruct (hDstDS o) as [dst|]; [|eapply Rej, H].
  destruct (nBandCount o =? 0); [eapply Rej, H|].
  destruct (_ || _); [eapply Rej, H|].
  apply bind_Some in H. destruct H as [ok [st1 [Hl H]]].
  apply ValidateOptions_bands_verdict in Hl. destruct Hl as [Vl _].
  destruct ok; cbn [negb] in H.
  - cbn in Vl. subst st1.
    destruct (_ && _); [eapply Rej, H|].
    destruct (is_null (pfnProgress o)); [eapply Rej, H|].
    destruct (is_null (pfnTransformer o)); [eapply Rej, H|].
    injection H as <- <-. reflexivity.
  - injection H as <- <-. exact Vl.
Qed.

(** X2: whenever ValidateOptions completes, it has left the operation as it
    was if it answers TRUE, and has added exactly one CE_Failure /
    CPLE_IllegalArg report, and nothing else, if it answers FALSE; this
    holds also when no options are held. *)
Theorem ValidateOptions_one_report :
  forall st b st',
    ValidateOptions st = Some (b, st') ->
    (b = true /\ st' = st)
    \/ (b = false
        /\ exists fmt,
            st' = add_calls st [EvCPLError CE_Failure CPLE_IllegalArg fmt]).
Proof.
  intros st b st' H. apply ValidateOptions_verdict in H.
  destruct b; [left|right]; split; try reflexivity; exact H.
Qed.

Lemma ValidateOptions_one_report_witness :
  (false = true
   /\ add_calls new_GDALWarpOperation
        [EvCPLError CE_Failure CPLE_IllegalArg
           (String.append "GDALWarpOptions.Validate()"
              (String.append LF "  no options currently initialized."))]
      = new_GDALWarpOperation)
  \/ (false = false
      /\ exists fmt,
          add_calls new_GDALWarpOperation
            [EvCPLError CE_Failure CPLE_IllegalArg
               (String.append "GDALWarpOptions.Validate()"
                  (String.append LF "  no options currently initialized."))]
          = add_calls new_GDALWarpOperation
              [EvCPLError CE_Failure CPLE_IllegalArg fmt]).
Proof.
  apply (ValidateOptions_one_report new_GDALWarpOperation false).
  reflexivity.
Defined.

(** What acceptance tells about the options held. *)
Lemma ValidateOptions_accepted st o st' :
  psOptions st = Some o ->
  ValidateOptions st = Some (true, st') ->
  options_valid o = true /\ bands_cover o.
Proof.
  intros Ho H.
  unfold ValidateOptions, bind at 1, this in H. rewrite Ho in H.
  unfold options_valid, bands_cover.
  destruct (PrimFloat.ltb _ _); [discriminate H|].
  destruct (eResampleAlg o =? GRA_NearestNeighbour),
           (eResampleAlg o =? GRA_Bilinear),
           (eResampleAlg o =? GRA_Cubic); cbn [negb andb orb] in *;
    try discriminate H.
  all: rewrite working_type_test_never_fires in H.
  all: destruct (hSrcDS o) as [src|]; [|discriminate H].
  all: destruct (hDstDS o) as [dst|]; [|discriminate H].
  all: destruct (nBandCount o =? 0) eqn:En; [discriminate H|].
  all: destruct (panSrcBands o) as [s|] eqn:Es; [|discriminate H].
  all: destruct (panDstBands o) as [d|] eqn:Ed; [|discriminate H].
  all: cbn [is_null orb negb andb] in *.
  all: apply bind_Some in H; destruct H as [ok [st1 [Hl H]]].
  all: apply ValidateOptions_bands_verdict in Hl; destruct Hl as [_ F].
  all: destruct ok; [|discriminate H].
  all: specialize (F eq_refl s d Es Ed).
  all: cbn [negb] in H.
  all: destruct (is_null (padfSrcNoDataReal o)),
                (is_null (padfSrcNoDataImag o)); cbn [negb andb orb] in *;
    try discriminate H.
  all: destruct (is_null (pfnProgress o)); [discriminate H|].
  all: destruct (is_null (pfnTransformer o)); [discriminate H|].
  all: cbn [negb andb].
  all: split;
    [ rewrite !andb_true_r; apply forallb_forall; intros i Hi; apply F, Hi
    | destruct (Z.le_gt_cases (nBandCount o) 0) as [Hn|Hn]; [lia|];
      destruct (F (nBandCount o - 1)) as [R1 [R2 _]];
      [ unfold upto; apply in_map_iff; exists (Z.to_nat (nBandCount o - 1));
        split; [lia | apply in_seq; lia]
      | lia ] ].
Qed.

(** X3: if ValidateOptions answers TRUE, options are held, they satisfy
    [options_valid], and both band arrays hold at least nBandCount
    entries. *)
Theorem ValidateOptions_sound :
  forall st st',
    ValidateOptions st = Some (true, st') ->
    exists o,
      psOptions st = Some o /\ options_valid o = true /\ bands_cover o.
Proof.
  intros st st' H.
  destruct (psOptions st) as [o|] eqn:Ho.
  - exists o. split; [reflexivity|]. exact (ValidateOptions_accepted _ _ _ Ho H).
  - unfold ValidateOptions, bind at 1, this in H. rewrite Ho in H.
    rewrite reject_run in H. discriminate H.
Qed.

Lemma ValidateOptions_sound_witness :
  exists o,
    psOptions Example.cubic_box = Some o
    /\ options_valid o = true /\ bands_cover o.
Proof.
  apply (ValidateOptions_sound Example.cubic_box Example.cubic_box).
  vm_compute. reflexivity.
Defined.

Lemma with_options_same st : with_options st (psOptions st) = st.
Proof. now destruct st. Qed.

Lemma WipeOptions_run st : WipeOptions st = Some (tt, with_options st None).
Proof.
  unfold WipeOptions, bind, this.
  destruct (psOptions st) eqn:E; [reflexivity|].
  unfold ret. now rewrite <- E, with_options_same.
Qed.

Lemma default_working_type_inv o st o' st' :
  default_working_type o st = Some (o', st') ->
  st' = st
  /\ (o' = o
      \/ (eWorkingDataType o = GDT_Unknown
          /\ exists t, o' = with_working_type o t)).
Proof.
  unfold default_working_type.
  destruct (hDstDS o) as [dst|];
    [|intros H; injection H as <- <-; auto].
  destruct (Z.eqb_spec (eWorkingDataType o) GDT_Unknown) as [Et|Et];
    cbn [andb]; [|intros H; injection H as <- <-; auto].
  destruct (1 <=? nBandCount o); [|intros H; injection H as <- <-; auto].
  intros H. apply bind_Some in H. destruct H as [d [st1 [Hi H]]].
  destruct (index_inv _ _ 0 _ _ _ Hi) as [l [_ [_ [_ ->]]]].
  destruct (GDALGetRasterBand dst d); injection H as <- <-; eauto.
Qed.

(** How a completed [Initialize] went: the options it validated, and what it
    made of the verdict. *)
Lemma Initialize_inv o0 st e st' :
  Initialize o0 st = Some (e, st') ->
  exists o2 b stv,
    default_working_type (default_band_mapping o0)
      (with_options st (Some (default_band_mapping o0)))
    = Some (o2, with_options st (Some (default_band_mapping o0)))
    /\ ValidateOptions (with_options st (Some (default_memory_limit o2)))
       = Some (b, stv)
    /\ (if b then e = CE_None /\ st' = stv
        else e = CE_Failure /\ st' = with_options stv None).
Proof.
  unfold Initialize. intros H.
  unfold bind at 1 in H. rewrite WipeOptions_run in H.
  unfold bind at 1 in H. cbn [set_psOptions with_options psOptions
    dfProgressBase dfProgressScale calls] in H.
  unfold bind at 1, options in H. cbn [psOptions] in H.
  unfold GDALCloneWarpOptions in H.
  unfold bind at 1 in H. cbn [set_psOptions psOptions
    dfProgressBase dfProgressScale calls] in H.
  unfold bind at 1 in H. cbn [psOptions] in H.
  apply bind_Some in H. destruct H as [o2 [st1 [Hd H]]].
  fold (with_options st (Some (default_band_mapping o0))) in Hd.
  destruct (default_working_type_inv _ _ _ _ Hd) as [-> _].
  unfold bind at 1 in H. cbn [set_psOptions with_options psOptions
    dfProgressBase dfProgressScale calls] in H.
  fold (with_options st (Some (default_memory_limit o2))) in H.
  apply bind_Some in H. destruct H as [b [stv [Hv H]]].
  exists o2, b, stv. split; [exact Hd|]. split; [exact Hv|].
  destruct b.
  - injection H as <- <-. auto.
  - unfold bind in H. rewrite WipeOptions_run in H.
    injection H as <- <-. auto.
Qed.

(** X4: whenever Initialize completes, the progress pair is untouched and
    either it returns CE_None, the history is unchanged and the options in
    effect satisfy [options_valid] with band arrays of at least nBandCount
    entries, or it returns CE_Failure, no options are held any longer and
    exactly one error report was added. *)
Theorem Initialize_outcome :
  forall o0 st e st',
    Initialize o0 st = Some (e, st') ->
    dfProgressBase st' = dfProgressBase st
    /\ dfProgressScale st' = dfProgressScale st
    /\ ((e = CE_None /\ calls st' = calls st
         /\ exists o, psOptions st' = Some o
                      /\ options_valid o = true /\ bands_cover o)
        \/ (e = CE_Failure /\ psOptions st' = None
            /\ exists fmt,
                calls st'
                = calls st ++ [EvCPLError CE_Failure CPLE_IllegalArg fmt])).
Proof.
  intros o0 st e st' H.
  destruct (Initialize_inv _ _ _ _ H) as [o2 [b [stv [_ [Hv Hb]]]]].
  pose proof (ValidateOptions_verdict _ _ _ Hv) as R.
  destruct b; cbn [verdict] in R.
  - destruct Hb as [-> ->]. subst stv.
    destruct (ValidateOptions_accepted
              (with_options st (Some (default_memory_limit o2)))
              (default_memory_limit o2) _ eq_refl Hv)
      as [Hvalid Hcover].
    split; [reflexivity|]. split; [reflexivity|]. left.
    split; [reflexivity|]. split; [reflexivity|].
    eexists. split; [reflexivity|]. auto.
  - destruct Hb as [-> ->]. destruct R as [fmt ->].
    split; [reflexivity|]. split; [reflexivity|]. right.
    split; [reflexivity|]. split; [reflexivity|].
    exists fmt. reflexivity.
Qed.

Lemma Initialize_outcome_witness :
  let r := Initialize
             (Example.options_300 GRA_Cubic Example.identity)
             new_GDALWarpOperation in
  dfProgressBase (Example.final r new_GDALWarpOperation) = 0%float
  /\ dfProgressScale (Example.final r new_GDALWarpOperation) = 1%float
  /\ ((Example.status r CE_Failure = CE_None
       /\ calls (Example.final r new_GDALWarpOperation) = []
       /\ exists o,
           psOptions (Example.final r new_GDALWarpOperation) = Some o
           /\ options_valid o = true /\ bands_cover o)
      \/ (Example.status r CE_Failure = CE_Failure
          /\ psOptions (Example.final r new_GDALWarpOperation) = None
          /\ exists fmt,
              calls (Example.final r new_GDALWarpOperation)
              = [] ++ [EvCPLError CE_Failure CPLE_IllegalArg fmt])).
Proof.
  intros r.
  apply (Initialize_outcome
           (Example.options_300 GRA_Cubic Example.identity)
           new_GDALWarpOperation (Example.status r CE_Failure)
           (Example.final r new_GDALWarpOperation)).
  vm_compute. reflexivity.
Defined.

Lemma default_band_mapping_keeps o : keeps_request o (default_band_mapping o).
Proof.
  unfold default_band_mapping.
  destruct (hSrcDS o), (hDstDS o); try (repeat split; reflexivity).
  destruct (_ && _); repeat split; reflexivity.
Qed.

Lemma default_memory_limit_keeps o : keeps_request o (default_memory_limit o).
Proof.
  unfold default_memory_limit.
  destruct (PrimFloat.eqb _ _); repeat split; reflexivity.
Qed.

Lemma keeps_request_trans a b c :
  keeps_request a b -> keeps_request b c -> keeps_request a c.
Proof.
  unfold keeps_request. intros H1 H2.
  repeat match goal with H : _ /\ _ |- _ => destruct H end.
  repeat split; congruence.
Qed.

Lemma options_valid_bands o : options_valid o = true -> nBandCount o <> 0.
Proof.
  unfold options_valid. intros H.
  repeat (apply andb_true_iff in H; destruct H as [H ?]).
  destruct (hSrcDS o), (hDstDS o), (panSrcBands o), (panDstBands o);
    try discriminate.
  match goal with
  | H : negb (nBandCount o =? 0) && _ = true |- _ =>
      apply andb_true_iff in H; destruct H as [H _];
      apply negb_true_iff, Z.eqb_neq in H; exact H
  end.
Qed.

(** X5: after a successful Initialize the options in effect are the
    requested ones except for defaults: the band mapping is kept when
    nBandCount was not 0 and is otherwise the identity 1..n over the n bands
    of the source dataset; the working type is kept unless it was
    GDT_Unknown; the memory limit is kept unless it was 0, in which case it
    is 64 MiB; every other field is kept. *)
Theorem Initialize_defaults :
  forall o0 st st',
    Initialize o0 st = Some (CE_None, st') ->
    exists o,
      psOptions st' = Some o
      /\ keeps_request o0 o
      /\ (nBandCount o0 <> 0 ->
          nBandCount o = nBandCount o0
          /\ panSrcBands o = panSrcBands o0
          /\ panDstBands o = panDstBands o0)
      /\ (nBandCount o0 = 0 ->
          exists src,
            hSrcDS o0 = Some src
            /\ nBandCount o = GDALGetRasterCount src
            /\ panSrcBands o = Some (identity_mapping (nBandCount o))
            /\ panDstBands o = Some (identity_mapping (nBandCount o)))
      /\ (eWorkingDataType o0 <> GDT_Unknown ->
          eWorkingDataType o = eWorkingDataType o0)
      /\ dfWarpMemoryLimit o
         = (if PrimFloat.eqb (dfWarpMemoryLimit o0) 0 then 67108864%float
            else dfWarpMemoryLimit o0).
Proof.
  intros o0 st st' H.
  destruct (Initialize_inv _ _ _ _ H) as [o2 [b [stv [Hd [Hv Hb]]]]].
  destruct b; [|destruct Hb; discriminate].
  destruct Hb as [_ ->].
  pose proof (ValidateOptions_verdict _ _ _ Hv) as R.
  cbn [verdict] in R. subst stv.
  destruct (ValidateOptions_accepted
              (with_options st (Some (default_memory_limit o2)))
              (default_memory_limit o2) _ eq_refl Hv)
    as [Hvalid _].
  exists (default_memory_limit o2). split; [reflexivity|].
  destruct (default_working_type_inv _ _ _ _ Hd) as [_ Ht].
  pose proof (options_valid_bands _ Hvalid) as Hn.
  assert (K : keeps_request o0 (default_memory_limit o2)).
  { eapply keeps_request_trans; [apply default_band_mapping_keeps|].
    eapply keeps_request_trans; [|apply default_memory_limit_keeps].
    destruct Ht as [->|[_ [t ->]]]; repeat split; reflexivity. }
  split; [exact K|].
  assert (B : nBandCount (default_memory_limit o2)
              = nBandCount (default_band_mapping o0)
              /\ panSrcBands (default_memory_limit o2)
                 = panSrcBands (default_band_mapping o0)
              /\ panDstBands (default_memory_limit o2)
                 = panDstBands (default_band_mapping o0)).
  { unfold default_memory_limit.
    destruct Ht as [->|[_ [t ->]]]; destruct (PrimFloat.eqb _ _);
      repeat split; reflexivity. }
  destruct B as [B1 [B2 B3]].
  split; [|split; [|split]].
  - intros N0. rewrite B1, B2, B3. unfold default_band_mapping.
    destruct (hSrcDS o0), (hDstDS o0); try (repeat split; reflexivity).
    destruct (Z.eqb_spec (nBandCount o0) 0); [contradiction|].
    repeat split; reflexivity.
  - intros N0. rewrite B1 in Hn. rewrite B1, B2, B3.
    unfold default_band_mapping in *.
    destruct (hSrcDS o0) as [src|]; [|contradiction].
    destruct (hDstDS o0) as [dst|]; [|contradiction].
    rewrite N0 in *. cbn [Z.eqb andb] in *.
    destruct (GDALGetRasterCount src =? GDALGetRasterCount dst);
      [|contradiction].
    exists src. repeat split; reflexivity.
  - intros T. unfold default_memory_limit.
    assert (T2 : eWorkingDataType o2 = eWorkingDataType o0).
    { destruct Ht as [->|[E _]].
      - unfold default_band_mapping.
        destruct (hSrcDS o0), (hDstDS o0); try reflexivity.
        destruct (_ && _); reflexivity.
      - exfalso. apply T. rewrite <- E. unfold default_band_mapping.
        destruct (hSrcDS o0), (hDstDS o0); try reflexivity.
        destruct (_ && _); reflexivity. }
    destruct (PrimFloat.eqb _ _); exact T2.
  - assert (L : dfWarpMemoryLimit o2 = dfWarpMemoryLimit o0).
    { destruct Ht as [->|[_ [t ->]]]; unfold default_band_mapping;
        destruct (hSrcDS o0), (hDstDS o0); try reflexivity;
        destruct (_ && _); reflexivity. }
    unfold default_memory_limit. rewrite L.
    destruct (PrimFloat.eqb (dfWarpMemoryLimit o0) 0) eqn:E; [reflexivity|].
    exact L.
Qed.

Lemma Initialize_defaults_witness :
  exists o,
    psOptions Example.cubic_box = Some o
    /\ nBandCount o = 1
    /\ panSrcBands o = Some [1]
    /\ eWorkingDataType o = GDT_Byte
    /\ dfWarpMemoryLimit o = 67108864%float.
Proof.
  destruct (Initialize_defaults
              (Example.options_300 GRA_Cubic
                 (Example.corners 100.3 50.2 200.7 60.9))
              new_GDALWarpOperation Example.cubic_box
              ltac:(vm_compute; reflexivity))
    as [o [Ho [_ [_ [Hm [_ Hl]]]]]].
  exists o. split; [exact Ho|].
  vm_compute in Ho. injection Ho as <-.
  repeat split; reflexivity.
Defined.

(** ** ComputeSourceWindow *)

Lemma source_window_bounds b r W H sx sy sw sh :
  source_window b r W H = Some (sx, sy, sw, sh) ->
  0 <= sx /\ 0 <= sy /\ sx + sw <= W /\ sy + sh <= H.
Proof.
  unfold source_window. intros E.
  repeat match type of E with
         | obind ?x _ = _ =>
             destruct x eqn:?; cbn [obind] in E; [|discriminate E]
         end.
  injection E as <- <- <- <-.
  repeat match goal with
         | H : int_of _ = Some _ |- _ =>
             apply int_of_Some in H; destruct H as [-> _]
         end.
  lia.
Qed.

Lemma outcome_of_shape o ok failed box r evs :
  outcome_of o ok failed box = Some (r, evs) ->
  estimator_diagnostics evs
  /\ (r = (CE_Failure, None)
      \/ exists b src w,
          box = Some b /\ hSrcDS o = Some src
          /\ source_window b (resampling_half_width (eResampleAlg o))
               (GDALGetRasterXSize src) (GDALGetRasterYSize src) = Some w
          /\ r = (CE_None, Some w)).
Proof.
  unfold outcome_of, estimator_diagnostics.
  destruct (negb ok); [intros E; injection E as <- <-; auto|].
  destruct (84 - 10 <? failed); [intros E; injection E as <- <-; auto|].
  destruct box as [b|]; [|discriminate].
  destruct (hSrcDS o) as [src|]; [|discriminate].
  destruct (source_window _ _ _ _) as [w|] eqn:Ew; [|discriminate].
  intros E. injection E as <- <-.
  split; [destruct (0 <? failed); auto|].
  right. exists b, src, w. auto.
Qed.

(** X7: whenever ComputeSourceWindow completes it has called the transformer
    exactly once, in the destination-to-source direction, on the 84 edge
    points of the rectangle, added at most one diagnostic of its own, and
    left the fields of the operation alone; it returns either CE_Failure
    without a window or CE_None with one. *)
Theorem ComputeSourceWindow_one_transformer_call :
  forall st dx dy dw dh r st',
    ComputeSourceWindow dx dy dw dh st = Some (r, st') ->
    (exists diag,
        st' = add_calls st (ev_transformer dx dy dw dh :: diag)
        /\ estimator_diagnostics diag)
    /\ ev_transformer dx dy dw dh
       = EvTransformer true (sample_x (edge_points dx dy dw dh))
                       (sample_y (edge_points dx dy dw dh))
                       (sample_z (edge_points dx dy dw dh))
    /\ List.length (sample_x (edge_points dx dy dw dh)) = 84%nat
    /\ (r = (CE_Failure, None) \/ exists w, r = (CE_None, Some w)).
Proof.
  intros st dx dy dw dh r st' H.
  destruct (ComputeSourceWindow_defined _ _ _ _ _ _ _ H) as [o [f [Ho Hf]]].
  rewrite (ComputeSourceWindow_run st o f) in H by assumption.
  unfold estimator_outcome in H.
  destruct (outcome_of _ _ _ _) as [[r' evs]|] eqn:E; [|discriminate].
  injection H as <- <-.
  destruct (outcome_of_shape _ _ _ _ _ _ E) as [D S].
  split; [eauto|]. split; [reflexivity|]. split; [reflexivity|].
  destruct S as [->|[b [src [w [_ [_ [_ ->]]]]]]]; eauto.
Qed.

Lemma ComputeSourceWindow_one_transformer_call_witness :
  exists diag,
    Example.final (ComputeSourceWindow 0 0 10 10 Example.cubic_box)
                  Example.cubic_box
    = add_calls Example.cubic_box (ev_transformer 0 0 10 10 :: diag)
    /\ estimator_diagnostics diag.
Proof.
  apply (ComputeSourceWindow_one_transformer_call Example.cubic_box
           0 0 10 10 (CE_None, Some (102, 52, 101, 11))).
  vm_compute. reflexivity.
Defined.

(** X6: a window returned by ComputeSourceWindow never starts left of or
    above the source raster and never extends past its right or bottom
    edge: 0 <= sx, 0 <= sy, sx + sw <= src_W, sy + sh <= src_H. *)
Theorem ComputeSourceWindow_clamped :
  forall st dx dy dw dh e sx sy sw sh st',
    ComputeSourceWindow dx dy dw dh st
    = Some ((e, Some (sx, sy, sw, sh)), st') ->
    exists o src,
      psOptions st = Some o /\ hSrcDS o = Some src
      /\ 0 <= sx /\ 0 <= sy
      /\ sx + sw <= GDALGetRasterXSize src
      /\ sy + sh <= GDALGetRasterYSize src.
Proof.
  intros st dx dy dw dh e sx sy sw sh st' H.
  destruct (ComputeSourceWindow_defined _ _ _ _ _ _ _ H) as [o [f [Ho Hf]]].
  rewrite (ComputeSourceWindow_run st o f) in H by assumption.
  unfold estimator_outcome in H.
  destruct (outcome_of _ _ _ _) as [[r' evs]|] eqn:E; [|discriminate].
  injection H as -> _.
  destruct (outcome_of_shape _ _ _ _ _ _ E)
    as [_ [S|[b [src [w [_ [Hsrc [Hw S]]]]]]]]; [discriminate S|].
  injection S as _ <-.
  exists o, src. split; [exact Ho|]. split; [exact Hsrc|].
  eapply source_window_bounds, Hw.
Qed.

Lemma ComputeSourceWindow_clamped_witness :
  exists o src,
    psOptions Example.off_image = Some o /\ hSrcDS o = Some src
    /\ 0 <= 500 /\ 0 <= 500
    /\ 500 + -200 <= GDALGetRasterXSize src
    /\ 500 + -200 <= GDALGetRasterYSize src.
Proof.
  apply (ComputeSourceWindow_clamped Example.off_image 0 0 10 10 CE_None
           500 500 (-200) (-200)
           (Example.final (ComputeSourceWindow 0 0 10 10 Example.off_image)
                          Example.off_image)).
  vm_compute. reflexivity.
Defined.







(** ** A small program logic for the region executor *)

Lemma frame_of_add st evs : frame_of (add_calls st evs) = frame_of st.
Proof. reflexivity. Qed.

Lemma hoare_ret {A} fr P (a : A) (Q : A -> Prop) :
  Q a -> hoare fr P (ret a) Q.
Proof.
  intros Hq st a' st' _ H. injection H as <- <-. split; [exact Hq|].
  exists []. split; [now rewrite add_calls_nil | constructor].
Qed.

Lemma hoare_undefined {A} fr P (Q : A -> Prop) : hoare fr P undefined Q.
Proof. intros st a st' _ H. discriminate H. Qed.

Lemma hoare_defined {A} fr P (x : option A) :
  hoare fr P (defined x) (fun a => x = Some a).
Proof.
  destruct x; [now apply hoare_ret | apply hoare_undefined].
Qed.

Lemma hoare_this fr P : hoare fr P this (fun s => frame_of s = fr).
Proof.
  intros st a st' F H. injection H as <- <-. split; [exact F|].
  exists []. split; [now rewrite add_calls_nil | constructor].
Qed.

Lemma hoare_options fr P :
  hoare fr P options (fun o => fst (fst fr) = Some o).
Proof.
  intros st a st' F H. unfold options in H.
  destruct (psOptions st) eqn:E; [|discriminate]. injection H as <- <-.
  split; [now rewrite <- F|].
  exists []. split; [now rewrite add_calls_nil | constructor].
Qed.

Lemma hoare_emit fr (P : event -> Prop) e :
  P e -> hoare fr P (emit e) (fun _ => True).
Proof.
  intros He st a st' _ H. injection H as <- <-. split; [exact I|].
  exists [e]. split; [reflexivity | now constructor].
Qed.

Lemma hoare_bind {A B} fr P (c : M A) (k : A -> M B) Q1 Q :
  hoare fr P c Q1 -> (forall a, Q1 a -> hoare fr P (k a) Q) ->
  hoare fr P (bind c k) Q.
Proof.
  intros Hc Hk st b st' F H.
  apply bind_Some in H. destruct H as [a [st1 [H1 H2]]].
  destruct (Hc _ _ _ F H1) as [Qa [e1 [-> F1]]].
  destruct (Hk a Qa (add_calls st e1) _ _ F H2) as [Qb [e2 [-> F2]]].
  split; [exact Qb|]. exists (e1 ++ e2).
  split; [apply add_calls_app | apply Forall_app; now split].
Qed.

Lemma hoare_weaken {A} fr P (c : M A) (Q Q' : A -> Prop) :
  hoare fr P c Q -> (forall a, Q a -> Q' a) -> hoare fr P c Q'.
Proof.
  intros Hc Hq st a st' F H. destruct (Hc _ _ _ F H) as [Qa E].
  split; [now apply Hq | exact E].
Qed.

Lemma hoare_index {A} fr P (a : option (list A)) i :
  hoare fr P (index a i) (fun _ => True).
Proof.
  unfold index. destruct a; [|apply hoare_undefined].
  destruct (i <? 0); [apply hoare_undefined|].
  eapply hoare_weaken; [apply hoare_defined | auto].
Qed.

Lemma hoare_for_ok {S} fr P (Inv : S -> Prop)
  (body : Z -> S -> M (CPLErr * S)) :
  (forall i s, Inv s -> hoare fr P (body i s) (fun r => Inv (snd r))) ->
  forall l s, Inv s -> hoare fr P (for_ok l body s) (fun r => Inv (snd r)).
Proof.
  intros Hb l. induction l as [|i l IH]; intros s Hs; cbn [for_ok].
  - now apply hoare_ret.
  - eapply hoare_bind; [apply Hb, Hs|]. intros [e s'] Hs'.
    destruct (CPLErr_eqb e CE_None); [apply IH, Hs' | now apply hoare_ret].
Qed.

Lemma hoare_CPLError fr (P : event -> Prop) c n fmt :
  P (EvCPLError c n fmt) -> hoare fr P (CPLError c n fmt) (fun _ => True).
Proof. apply hoare_emit. Qed.

(** The events of the estimator, for the logic. *)
Lemma hoare_ComputeSourceWindow fr (P : event -> Prop) dx dy dw dh :
  P (ev_transformer dx dy dw dh) -> P ev_refused -> P ev_too_many ->
  P ev_some_failed ->
  hoare fr P (ComputeSourceWindow dx dy dw dh)
        (fun r => fst r <> CE_None \/ exists w, snd r = Some w).
Proof.
  intros Pt Pr Pm Ps st r st' _ H.
  destruct (ComputeSourceWindow_defined _ _ _ _ _ _ _ H) as [o [f [Ho Hf]]].
  rewrite (ComputeSourceWindow_run st o f) in H by assumption.
  unfold estimator_outcome in H.
  destruct (outcome_of _ _ _ _) as [[r' evs]|] eqn:E; [|discriminate].
  injection H as <- <-.
  destruct (outcome_of_shape _ _ _ _ _ _ E) as [D S].
  split.
  - destruct S as [->|[b [src [w [_ [_ [_ ->]]]]]]];
      cbn; [left; discriminate | right; eauto].
  - eexists. split; [reflexivity|]. constructor; [exact Pt|].
    destruct D as [D|[D|[D|D]]]; rewrite D; repeat constructor; assumption.
Qed.

(** ** The region executor *)

Lemma kernel_core_with_masks k a b c d e :
  kernel_core (with_masks k a b c d e) = kernel_core k.
Proof. reflexivity. Qed.

Lemma kernel_core_write_slot k s v :
  kernel_core (write_slot k s v) = kernel_core k.
Proof. destruct s; reflexivity. Qed.

Lemma kernel_core_mask_particulars k i t k' s w h b d :
  mask_particulars k i t = Some (k', s, w, h, b, d) ->
  kernel_core k' = kernel_core k.
Proof.
  unfold mask_particulars.
  destruct (EQUAL t "BandSrcValid").
  { intros E. injection E as <- _ _ _ _ _.
    now destruct (is_null (WK.papanBandSrcValid k)). }
  repeat (match goal with
          | |- context [if ?c then _ else _] => destruct c
          end; [intros E; now injection E as <- _ _ _ _ _|]).
  discriminate.
Qed.

Lemma kernel_scalars_core o base scale dx dy dw dh wx wy ww wh k k' :
  kernel_core k' = kernel_core k ->
  kernel_scalars o base scale dx dy dw dh wx wy ww wh k ->
  kernel_scalars o base scale dx dy dw dh wx wy ww wh k'.
Proof.
  unfold kernel_core, kernel_scalars. intros E.
  injection E as -> -> -> -> -> -> -> -> -> -> -> -> -> -> _ _. auto.
Qed.

Section RegionLogic.
Context {collaborators : Collaborators}.
Variables (o : GDALWarpOptions) (base scale : double).
Variable P : event -> Prop.
Hypothesis P_malloc : forall n ok, P (EvVSIMalloc n ok).
Hypothesis P_free : P EvVSIFree.
Hypothesis P_error : forall c n f, P (EvCPLError c n f).

Lemma hoare_malloc n :
  hoare (Some o, base, scale) P (malloc n) (fun _ => True).
Proof.
  unfold malloc. eapply hoare_bind; [apply hoare_this|]. intros st _.
  eapply hoare_bind; [apply hoare_emit, P_malloc|]. intros _ _.
  now apply hoare_ret.
Qed.

Lemma hoare_GDALRasterIO_Read ds hDS band x y w h t :
  (forall data, P (EvRasterIO GF_Read ds band x y w h data)) ->
  hoare (Some o, base, scale) P (GDALRasterIO_Read ds hDS band x y w h t)
        (fun _ => True).
Proof.
  intros Pr. unfold GDALRasterIO_Read.
  eapply hoare_bind; [apply hoare_defined|]. intros d _.
  eapply hoare_bind; [apply hoare_defined|]. intros b _.
  eapply hoare_bind; [apply hoare_this|]. intros st _.
  destruct (RasterIO_Read _ _ _ _ _ _ _ _) as [e data].
  eapply hoare_bind; [apply hoare_emit, Pr|]. intros _ _.
  now apply hoare_ret.
Qed.

Lemma hoare_GDALRasterIO_Write ds hDS band x y w h t data :
  P (EvRasterIO GF_Write ds band x y w h data) ->
  hoare (Some o, base, scale) P
        (GDALRasterIO_Write ds hDS band x y w h t data) (fun _ => True).
Proof.
  intros Pw. unfold GDALRasterIO_Write.
  eapply hoare_bind; [apply hoare_defined|]. intros d _.
  eapply hoare_bind; [apply hoare_defined|]. intros b _.
  eapply hoare_bind; [apply hoare_this|]. intros st _.
  eapply hoare_bind; [apply hoare_emit, Pw|]. intros _ _.
  now apply hoare_ret.
Qed.

Lemma hoare_CreateKernelMask k i t :
  hoare (Some o, base, scale) P (CreateKernelMask k i t)
        (fun r => kernel_core (snd r) = kernel_core k).
Proof.
  unfold CreateKernelMask.
  destruct (mask_particulars k i t) as [[[[[[k' s] w] h] b] d]|] eqn:E.
  - pose proof (kernel_core_mask_particulars _ _ _ _ _ _ _ _ _ E) as C.
    eapply hoare_bind; [apply hoare_defined|]. intros m _.
    destruct (is_null m); [|now apply hoare_ret].
    eapply hoare_bind; [apply hoare_defined|]. intros nBytes _.
    eapply hoare_bind; [apply hoare_this|]. intros st _.
    eapply hoare_bind; [apply hoare_emit, P_malloc|]. intros _ _.
    destruct (negb _).
    + eapply hoare_bind; [apply hoare_CPLError, P_error|]. intros _ _.
      now apply hoare_ret.
    + apply hoare_ret. cbn [snd]. now rewrite kernel_core_write_slot.
  - eapply hoare_bind; [apply hoare_CPLError, P_error|]. intros _ _.
    now apply hoare_ret.
Qed.

Lemma hoare_cleanup (l : list (option bytes)) :
  hoare (Some o, base, scale) P
        (fold_right (fun img rest =>
                       (if is_null img then ret tt else emit EvVSIFree) ;;;
                       rest)
                    (ret tt) l)
        (fun _ => True).
Proof.
  induction l as [|img l IH]; cbn [fold_right]; [now apply hoare_ret|].
  eapply hoare_bind with (Q1 := fun _ => True); [|intros _ _; exact IH].
  destruct (is_null img); [now apply hoare_ret | apply hoare_emit, P_free].
Qed.

Variables dx dy dw dh sx sy sw sh : Z.
Hypothesis P_estimator :
  (sw =? 0) && (sh =? 0) = true ->
  P (ev_transformer dx dy dw dh) /\ P ev_refused /\ P ev_too_many
  /\ P ev_some_failed.
Hypothesis P_source_read :
  forall band wx wy ww wh data,
    window_as_given sx sy sw sh wx wy ww wh ->
    P (EvRasterIO GF_Read SrcDS band wx wy ww wh data).
Hypothesis P_kernel :
  forall k wx wy ww wh,
    window_as_given sx sy sw sh wx wy ww wh ->
    kernel_scalars o base scale dx dy dw dh wx wy ww wh k ->
    P (EvPerformWarp k).

Lemma hoare_WarpRegionToBuffer buf t :
  hoare (Some o, base, scale) P
        (WarpRegionToBuffer dx dy dw dh buf t sx sy sw sh)
        (fun r => fst r = CE_None ->
                  exists h k, fst (PerformWarp h k) = CE_None).
Proof.
  unfold WarpRegionToBuffer.
  eapply hoare_bind; [apply hoare_options|]. intros o' Ho.
  cbn in Ho. injection Ho as <-.
  eapply hoare_bind with
    (Q1 := fun r => fst r <> CE_None
                    \/ exists wx wy ww wh,
                         snd r = Some (wx, wy, ww, wh)
                         /\ window_as_given sx sy sw sh wx wy ww wh).
  { destruct ((sw =? 0) && (sh =? 0)) eqn:G.
    - destruct (P_estimator eq_refl) as [Pt [Pr [Pm Ps]]].
      eapply hoare_weaken;
        [apply hoare_ComputeSourceWindow; assumption|].
      intros r [N|[[[[wx wy] ww] wh] W]]; [now left|right].
      exists wx, wy, ww, wh. split; [exact W|].
      unfold window_as_given. rewrite G. discriminate.
    - apply hoare_ret. right. exists sx, sy, sw, sh.
      split; [reflexivity|]. now intros _. }
  intros [e win] HQ. cbn [fst snd] in HQ.
  destruct (CPLErr_eqb e CE_None) eqn:Ee; cbn [negb].
  2:{ apply hoare_ret. cbn [fst]. intros ->. discriminate Ee. }
  destruct HQ as [N|[wx [wy [ww [wh [-> W]]]]]].
  { destruct e; try discriminate Ee. now elim N. }
  eapply hoare_bind; [apply hoare_defined|].
  intros [[[wx' wy'] ww'] wh'] Ew. injection Ew as <- <- <- <-.
  eapply hoare_bind; [apply hoare_this|]. intros st F.
  unfold frame_of in F. injection F as _ Fb Fs.
  eapply hoare_bind with (Q1 := fun _ => True).
  { eapply hoare_weaken;
      [apply (hoare_for_ok _ P (fun _ : list (option bytes) => True))|auto].
    2: exact I.
    intros i img _.
    eapply hoare_bind; [apply hoare_index|]. intros nBand _.
    eapply hoare_bind; [apply hoare_malloc|]. intros ok _.
    destruct (negb ok).
    - eapply hoare_bind; [apply hoare_CPLError, P_error|]. intros _ _.
      now apply hoare_ret.
    - eapply hoare_bind;
        [apply hoare_GDALRasterIO_Read; intros; now apply P_source_read|].
      intros [e1 data] _. now apply hoare_ret. }
  intros [e1 srcImage] _.
  match goal with
  | |- context [bind (if _ then for_ok _ _ ?k0 else _)] => set (oWK := k0)
  end.
  assert (K0 : kernel_scalars o base scale dx dy dw dh wx wy ww wh oWK).
  { unfold kernel_scalars, oWK. cbn. rewrite Fb, Fs. repeat split. }
  clearbody oWK.
  eapply hoare_bind with
    (Q1 := fun r => kernel_scalars o base scale dx dy dw dh wx wy ww wh
                                   (snd r)).
  { destruct (negb (is_null (padfSrcNoDataReal o)) && CPLErr_eqb e1 CE_None);
      [|now apply hoare_ret].
    apply hoare_for_ok; [|exact K0].
    intros i k Hk.
    eapply hoare_bind; [apply hoare_CreateKernelMask|].
    intros [e2 k2] C. cbn [snd] in C.
    pose proof (kernel_scalars_core _ _ _ _ _ _ _ _ _ _ _ _ _ C Hk) as Hk2.
    destruct (CPLErr_eqb e2 CE_None); [|now apply hoare_ret].
    eapply hoare_bind; [apply hoare_index|]. intros re _.
    eapply hoare_bind; [apply hoare_index|]. intros im _.
    eapply hoare_bind; [apply hoare_index|]. intros img _.
    eapply hoare_bind; [apply hoare_defined|]. intros mask _.
    destruct (GDALWarpNoDataMasker _ _ _ _ _ _ _ _) as [e3 mask'].
    apply hoare_ret. cbn [snd].
    eapply kernel_scalars_core; [apply kernel_core_write_slot | exact Hk2]. }
  intros [e2 k2] Hk2. cbn [snd] in Hk2.
  eapply hoare_bind with
    (Q1 := fun r => fst r = CE_None ->
                    exists h k, fst (PerformWarp h k) = CE_None).
  { destruct (CPLErr_eqb e2 CE_None) eqn:E2.
    - eapply hoare_bind; [apply hoare_this|]. intros st2 _.
      destruct (PerformWarp (calls st2) k2) as [e3 planes] eqn:Ep.
      eapply hoare_bind; [apply hoare_emit, (P_kernel _ _ _ _ _ W Hk2)|].
      intros _ _. apply hoare_ret. cbn [fst]. intros ->.
      exists (calls st2), k2. now rewrite Ep.
    - apply hoare_ret. cbn [fst]. intros ->. discriminate E2. }
  intros [e3 buf3] H3. cbn [fst] in H3.
  eapply hoare_bind; [apply hoare_cleanup|]. intros _ _.
  now apply hoare_ret.
Qed.

Lemma hoare_init_dest_band s ws bs w h i :
  hoare (Some o, base, scale) P (init_dest_band o s ws bs w h i)
        (fun _ => True).
Proof.
  unfold init_dest_band.
  eapply hoare_bind with (Q1 := fun _ => True).
  { destruct (EQUAL s "NO_DATA" && negb (is_null (padfDstNoDataReal o)));
      [|now apply hoare_ret].
    eapply hoare_bind; [apply hoare_index|]. intros re _.
    eapply hoare_bind; [apply hoare_index|]. intros im _.
    now apply hoare_ret. }
  intros [re im] _.
  destruct (eWorkingDataType o =? GDT_Byte).
  { eapply hoare_bind; [apply hoare_defined|]. intros v _.
    now apply hoare_ret. }
  destruct (PrimFloat.eqb re 0 && PrimFloat.eqb im 0);
    [now apply hoare_ret|].
  destruct (PrimFloat.eqb im 0); now apply hoare_ret.
Qed.

Lemma hoare_init_dest s ws bs w h l :
  hoare (Some o, base, scale) P (init_dest o s ws bs w h l) (fun _ => True).
Proof.
  induction l as [|i l IH]; cbn [init_dest]; [now apply hoare_ret|].
  eapply hoare_bind; [apply hoare_init_dest_band|]. intros b _.
  eapply hoare_bind; [exact IH|]. intros b' _. now apply hoare_ret.
Qed.

Hypothesis P_region : P (EvWarpRegion dx dy dw dh sx sy sw sh).
Hypothesis P_destination_read :
  CSLFetchNameValue (papszWarpOptions o) "INIT_DEST" = None ->
  forall band data, P (EvRasterIO GF_Read DstDS band dx dy dw dh data).
Hypothesis P_destination_write :
  (exists h k, fst (PerformWarp h k) = CE_None) ->
  forall band data, P (EvRasterIO GF_Write DstDS band dx dy dw dh data).

Lemma hoare_WarpRegion :
  hoare (Some o, base, scale) P
        (WarpRegion dx dy dw dh sx sy sw sh)
        (fun e => e = CE_None ->
                  exists h k, fst (PerformWarp h k) = CE_None).
Proof.
  unfold WarpRegion.
  eapply hoare_bind; [apply hoare_emit, P_region|]. intros _ _.
  eapply hoare_bind; [apply hoare_options|]. intros o' Ho.
  cbn in Ho. injection Ho as <-.
  eapply hoare_bind; [apply hoare_malloc|]. intros ok _.
  destruct (negb ok).
  { eapply hoare_bind; [apply hoare_CPLError, P_error|]. intros _ _.
    apply hoare_ret. discriminate. }
  eapply hoare_bind with (Q1 := fun _ => True).
  { destruct (CSLFetchNameValue (papszWarpOptions o) "INIT_DEST")
      as [s|] eqn:Ei.
    - eapply hoare_bind; [apply hoare_init_dest|]. intros b _.
      now apply hoare_ret.
    - eapply hoare_weaken;
        [apply (hoare_for_ok _ P (fun _ : bytes => True))|auto].
      2: exact I.
      intros i buf _.
      eapply hoare_bind; [apply hoare_index|]. intros nBand _.
      eapply hoare_bind;
        [apply hoare_GDALRasterIO_Read; intros;
         now apply P_destination_read|].
      intros [e1 data] _. now apply hoare_ret. }
  intros [e1 buf] _.
  destruct (CPLErr_eqb e1 CE_None) eqn:E1; cbn [negb].
  2:{ eapply hoare_bind; [apply hoare_emit, P_free|]. intros _ _.
      apply hoare_ret. intros ->. discriminate E1. }
  eapply hoare_bind; [apply hoare_WarpRegionToBuffer|].
  intros [e2 buf2] H2. cbn [fst] in H2.
  eapply hoare_bind with
    (Q1 := fun r => fst r = CE_None ->
                    exists h k, fst (PerformWarp h k) = CE_None).
  { destruct (CPLErr_eqb e2 CE_None) eqn:E2.
    - destruct e2; try discriminate E2. specialize (H2 eq_refl).
      eapply hoare_weaken;
        [apply (hoare_for_ok _ P (fun _ : unit => True))|auto].
      2: exact I.
      intros i u _.
      eapply hoare_bind; [apply hoare_index|]. intros nBand _.
      eapply hoare_bind;
        [apply hoare_GDALRasterIO_Write; now apply P_destination_write|].
      intros e3 _. now apply hoare_ret.
    - apply hoare_ret. cbn [fst]. intros ->. discriminate E2. }
  intros [e3 u] H3. cbn [fst] in H3.
  eapply hoare_bind; [apply hoare_emit, P_free|]. intros _ _.
  now apply hoare_ret.
Qed.

End RegionLogic.

Section RegionProperties.
Context {collaborators : Collaborators}.

Lemma hoare_run {A} st P (c : M A) (Q : A -> Prop) a st' :
  hoare (frame_of st) P c Q -> c st = Some (a, st') ->
  Q a /\ Forall P (new_calls st st') /\ frame_of st' = frame_of st.
Proof.
  intros Hc H. destruct (Hc st a st' eq_refl H) as [Qa [evs [-> F]]].
  rewrite new_calls_add. auto.
Qed.

Lemma WarpRegionToBuffer_options dx dy dw dh buf t sx sy sw sh st r st' :
  WarpRegionToBuffer dx dy dw dh buf t sx sy sw sh st = Some (r, st') ->
  exists o, psOptions st = Some o.
Proof.
  destruct (psOptions st) as [o|] eqn:E; [eauto|].
  unfold WarpRegionToBuffer, bind, options. rewrite E. discriminate.
Qed.

Lemma WarpRegion_options dx dy dw dh sx sy sw sh st r st' :
  WarpRegion dx dy dw dh sx sy sw sh st = Some (r, st') ->
  exists o, psOptions st = Some o.
Proof.
  destruct (psOptions st) as [o|] eqn:E; [eauto|].
  unfold WarpRegion, bind, options, emit. cbn. rewrite E. discriminate.
Qed.

(** X12: whenever WarpRegionToBuffer runs the kernel, the descriptor it hands
    over carries the warp options, the resampling algorithm, the working
    type and the band count of the operation's options, the progress base
    and scale the operation has at that time, the destination rectangle
    asked for and, unless both source sizes passed were zero, the source
    window passed; the fields of the operation are left as they were. *)
Theorem WarpRegionToBuffer_kernel_descriptor :
  forall st o dx dy dw dh buf t sx sy sw sh r st',
    psOptions st = Some o ->
    WarpRegionToBuffer dx dy dw dh buf t sx sy sw sh st = Some (r, st') ->
    Forall (kernel_contract o (dfProgressBase st) (dfProgressScale st)
                            dx dy dw dh sx sy sw sh)
           (new_calls st st')
    /\ frame_of st' = frame_of st.
Proof.
  intros st o dx dy dw dh buf t sx sy sw sh r st' Ho H.
  refine (proj2 (hoare_run st _ _ _ _ _ _ H)).
  unfold frame_of. rewrite Ho.
  apply hoare_WarpRegionToBuffer; try (intros; exact I).
  - intros _. repeat split.
  - intros k wx wy ww wh W K. exists wx, wy, ww, wh. auto.
Qed.

(** X13: a source window handed to WarpRegionToBuffer with a size that is
    not zero in both directions is used as it is: the transformer is never
    called and every read of the source dataset is on exactly that
    window. *)
Theorem WarpRegionToBuffer_given_window :
  forall st dx dy dw dh buf t sx sy sw sh r st',
    (sw =? 0) && (sh =? 0) = false ->
    WarpRegionToBuffer dx dy dw dh buf t sx sy sw sh st = Some (r, st') ->
    Forall (uses_window sx sy sw sh) (new_calls st st').
Proof.
  intros st dx dy dw dh buf t sx sy sw sh r st' G H.
  destruct (WarpRegionToBuffer_options _ _ _ _ _ _ _ _ _ _ _ _ _ H)
    as [o Ho].
  refine (proj1 (proj2 (hoare_run st _ _ _ _ _ _ H))).
  unfold frame_of. rewrite Ho.
  apply hoare_WarpRegionToBuffer; try (intros; exact I).
  - rewrite G. discriminate.
  - intros band wx wy ww wh data W. exact (W G).
Qed.

(** X14: in a completed call of WarpRegion every read and every write of the
    destination dataset is on exactly the chunk, the source dataset is never
    written, and it is read on exactly the source window passed unless both
    sizes of that window are zero. *)
Theorem WarpRegion_io_confined :
  forall st dx dy dw dh sx sy sw sh e st',
    WarpRegion dx dy dw dh sx sy sw sh st = Some (e, st') ->
    Forall (io_confined dx dy dw dh sx sy sw sh) (new_calls st st').
Proof.
  intros st dx dy dw dh sx sy sw sh e st' H.
  destruct (WarpRegion_options _ _ _ _ _ _ _ _ _ _ _ H) as [o Ho].
  refine (proj1 (proj2 (hoare_run st _ _ _ _ _ _ H))).
  unfold frame_of. rewrite Ho.
  apply hoare_WarpRegion; try (intros; exact I).
  - intros _. repeat split.
  - intros band wx wy ww wh data W. exact W.
  - reflexivity.
  - reflexivity.
Qed.

(** X15: when the INIT_DEST warp option is set, WarpRegion never reads the
    destination dataset. *)
Theorem WarpRegion_init_dest_skips_read :
  forall st o s dx dy dw dh sx sy sw sh e st',
    psOptions st = Some o ->
    CSLFetchNameValue (papszWarpOptions o) "INIT_DEST" = Some s ->
    WarpRegion dx dy dw dh sx sy sw sh st = Some (e, st') ->
    Forall no_destination_read (new_calls st st').
Proof.
  intros st o s dx dy dw dh sx sy sw sh e st' Ho Hi H.
  refine (proj1 (proj2 (hoare_run st _ _ _ _ _ _ H))).
  unfold frame_of. rewrite Ho.
  apply hoare_WarpRegion; try (intros; exact I).
  - intros _. repeat split.
  - rewrite Hi. discriminate.
Qed.

(** X16: WarpRegion returns CE_None only if the kernel succeeded, and writes
    to the destination dataset only then: with a kernel that fails on every
    call, a completed WarpRegion returns an error and writes nothing. *)
Theorem WarpRegion_kernel_failure :
  forall st dx dy dw dh sx sy sw sh e st',
    (forall h k, fst (PerformWarp h k) <> CE_None) ->
    WarpRegion dx dy dw dh sx sy sw sh st = Some (e, st') ->
    e <> CE_None /\ Forall no_write (new_calls st st').
Proof.
  intros st dx dy dw dh sx sy sw sh e st' Hk H.
  destruct (WarpRegion_options _ _ _ _ _ _ _ _ _ _ _ H) as [o Ho].
  assert (N : ~ exists h k, fst (PerformWarp h k) = CE_None).
  { intros [h [k E]]. exact (Hk h k E). }
  assert (R : hoare (frame_of st) no_write
                (WarpRegion dx dy dw dh sx sy sw sh)
                (fun e => e = CE_None ->
                          exists h k, fst (PerformWarp h k) = CE_None)).
  { unfold frame_of. rewrite Ho.
    apply hoare_WarpRegion; try (intros; exact I).
    - intros _. repeat split.
    - intros E. now elim N. }
  destruct (hoare_run st _ _ _ _ _ R H) as [Q [F _]].
  split; [|exact F]. intros ->. exact (N (Q eq_refl)).
Qed.

End RegionProperties.

Lemma WarpRegionToBuffer_kernel_descriptor_witness :
  let st := Example.tight_budget Example.identity in
  let r := @WarpRegionToBuffer Example.plain 0 0 2 2 (memset 0 4) GDT_Byte
             1 1 3 3 st in
  Forall (kernel_contract (Scenario.options_10 Example.identity)
                          (dfProgressBase st) (dfProgressScale st)
                          0 0 2 2 1 1 3 3)
         (new_calls st (Example.final r st))
  /\ frame_of (Example.final r st) = frame_of st.
Proof.
  intros st r.
  apply (@WarpRegionToBuffer_kernel_descriptor Example.plain st
           (Scenario.options_10 Example.identity) 0 0 2 2 (memset 0 4)
           GDT_Byte 1 1 3 3 (Example.status r (CE_Failure, []))
           (Example.final r st)).
  - reflexivity.
  - vm_compute. reflexivity.
Defined.

Lemma WarpRegionToBuffer_given_window_witness :
  let st := Example.tight_budget Example.identity in
  let r := @WarpRegionToBuffer Example.plain 0 0 2 2 (memset 0 4) GDT_Byte
             1 1 3 3 st in
  Forall (uses_window 1 1 3 3) (new_calls st (Example.final r st)).
Proof.
  intros st r.
  apply (@WarpRegionToBuffer_given_window Example.plain st 0 0 2 2
           (memset 0 4) GDT_Byte 1 1 3 3
           (Example.status r (CE_Failure, [])) (Example.final r st)).
  - reflexivity.
  - vm_compute. reflexivity.
Defined.

Lemma WarpRegion_io_confined_witness :
  let st := Example.tight_budget Example.identity in
  let r := @WarpRegion Example.plain 0 0 2 2 1 1 3 3 st in
  Forall (io_confined 0 0 2 2 1 1 3 3) (new_calls st (Example.final r st)).
Proof.
  intros st r.
  apply (@WarpRegion_io_confined Example.plain st 0 0 2 2 1 1 3 3
           (Example.status r CE_Failure) (Example.final r st)).
  vm_compute. reflexivity.
Defined.

Lemma WarpRegion_init_dest_skips_read_witness :
  let st := Example.tight_budget Example.identity in
  let r := @WarpRegion Scenario.init_dest 0 0 2 2 1 1 3 3 st in
  Forall no_destination_read (new_calls st (Example.final r st)).
Proof.
  intros st r.
  apply (@WarpRegion_init_dest_skips_read Scenario.init_dest st
           (Scenario.options_10 Example.identity) "0" 0 0 2 2 1 1 3 3
           (Example.status r CE_Failure) (Example.final r st)).
  - reflexivity.
  - reflexivity.
  - vm_compute. reflexivity.
Defined.

Lemma WarpRegion_kernel_failure_witness :
  let st := Example.tight_budget Example.identity in
  let r := @WarpRegion Scenario.failing_kernel 0 0 2 2 1 1 3 3 st in
  Example.status r CE_None <> CE_None
  /\ Forall no_write (new_calls st (Example.final r st)).
Proof.
  intros st r.
  apply (@WarpRegion_kernel_failure Scenario.failing_kernel st
           0 0 2 2 1 1 3 3 (Example.status r CE_None) (Example.final r st)).
  - intros h k. simpl. discriminate.
  - vm_compute. reflexivity.
Defined.

(** ** Buffers taken and given back *)

Lemma weigh_app mu a b : weigh mu (a ++ b) = weigh mu a + weigh mu b.
Proof.
  unfold weigh. induction a as [|e a IH]; cbn [app fold_right];
    [reflexivity|]. rewrite IH. lia.
Qed.

Lemma weigh_neutral mu evs :
  Forall (fun e => mu e = 0) evs -> weigh mu evs = 0.
Proof.
  unfold weigh. induction 1 as [|e l He _ IH]; cbn [fold_right];
    [reflexivity|]. lia.
Qed.

Lemma held_app a b : held (a ++ b) = held a + held b.
Proof. apply weigh_app. Qed.

Lemma hoareN_ret {A} fr mu (a : A) (Q : A -> Z -> Prop) :
  Q a 0 -> hoareN fr mu (ret a) Q.
Proof.
  intros Hq st a' st' _ H. injection H as <- <-.
  exists []. split; [now rewrite add_calls_nil | exact Hq].
Qed.

Lemma hoareN_bind {A B} fr mu (c : M A) (k : A -> M B) Q1 (Q : B -> Z -> Prop) :
  hoareN fr mu c Q1 ->
  (forall a n, Q1 a n -> hoareN fr mu (k a) (fun b m => Q b (n + m))) ->
  hoareN fr mu (bind c k) Q.
Proof.
  intros Hc Hk st b st' F H.
  apply bind_Some in H. destruct H as [a [st1 [H1 H2]]].
  destruct (Hc _ _ _ F H1) as [e1 [-> Q1a]].
  destruct (Hk a _ Q1a (add_calls st e1) _ _ F H2) as [e2 [-> Q2]].
  exists (e1 ++ e2). split; [apply add_calls_app|]. now rewrite weigh_app.
Qed.

Lemma hoareN_weaken {A} fr mu (c : M A) (Q Q' : A -> Z -> Prop) :
  hoareN fr mu c Q -> (forall a n, Q a n -> Q' a n) -> hoareN fr mu c Q'.
Proof.
  intros Hc Hq st a st' F H. destruct (Hc _ _ _ F H) as [evs [E Qa]].
  exists evs. split; [exact E | now apply Hq].
Qed.

(** A run of events without weight, from the logic of [hoare]. *)
Lemma hoareN_neutral {A} fr mu (c : M A) (Q : A -> Prop) :
  hoare fr (fun e => mu e = 0) c Q ->
  hoareN fr mu c (fun a n => Q a /\ n = 0).
Proof.
  intros Hc st a st' F H. destruct (Hc _ _ _ F H) as [Qa [evs [E N]]].
  exists evs. split; [exact E|]. split; [exact Qa | now apply weigh_neutral].
Qed.

Lemma hoareN_emit fr mu e (Q : unit -> Z -> Prop) :
  Q tt (mu e) -> hoareN fr mu (emit e) Q.
Proof.
  intros Hq st a st' _ H. injection H as <- <-.
  exists [e]. split; [reflexivity|]. cbn. now rewrite Z.add_0_r.
Qed.

(** The loop stops early only on an error: when it ends with [CE_None] no
    index is left over. *)
Lemma hoareN_for_ok {S} fr mu (Inv : list Z -> S -> Z -> Prop)
  (body : Z -> S -> M (CPLErr * S)) :
  (forall i rest s n,
      Inv (i :: rest) s n ->
      hoareN fr mu (body i s) (fun r m => Inv rest (snd r) (n + m))) ->
  forall l s n,
    Inv l s n ->
    hoareN fr mu (for_ok l body s)
           (fun r m => exists rest,
                Inv rest (snd r) (n + m)
                /\ (fst r = CE_None -> rest = [])).
Proof.
  intros Hb l. induction l as [|i l IH]; intros s n Hs; cbn [for_ok].
  - apply hoareN_ret. exists []. now rewrite Z.add_0_r.
  - eapply hoareN_bind; [apply Hb, Hs|]. intros [e s'] m Hs'.
    cbn [snd] in Hs'.
    destruct (CPLErr_eqb e CE_None) eqn:Ee.
    + eapply hoareN_weaken; [apply IH, Hs'|].
      intros r m' [rest R]. exists rest. now rewrite Z.add_assoc.
    + apply hoareN_ret. exists l. rewrite Z.add_0_r.
      split; [exact Hs'|]. cbn [fst]. intros ->. discriminate Ee.
Qed.

Lemma buffers_list_set img i data :
  nth_error img i = Some None ->
  buffers (list_set img i (Some data)) = buffers img + 1.
Proof.
  unfold buffers.
  revert i. induction img as [|b img IH]; intros [|i] H;
    cbn [nth_error list_set fold_right] in *; try discriminate.
  - injection H as ->. cbn [is_null]. lia.
  - rewrite (IH _ H). lia.
Qed.

Lemma nth_error_list_set_other {A} (l : list A) i j v :
  i <> j -> nth_error (list_set l i v) j = nth_error l j.
Proof.
  revert i j. induction l as [|a l IH]; intros [|i] [|j] H; cbn;
    try reflexivity; try (now elim H).
  apply IH. intros ->. now elim H.
Qed.

Lemma buffers_repeat n : buffers (repeat None n) = 0.
Proof.
  unfold buffers. induction n as [|n IH]; cbn [repeat fold_right is_null];
    [reflexivity|]. now rewrite IH.
Qed.

Lemma NoDup_upto n : NoDup (upto n).
Proof.
  unfold upto. apply NoDup_map_NoDup_ForallPairs; [|apply seq_NoDup].
  intros a b _ _. apply Nat2Z.inj.
Qed.

Lemma nth_error_repeat_None {A} n i :
  (i < n)%nat -> nth_error (repeat (@None A) n) i = Some None.
Proof.
  revert i. induction n as [|n IH]; intros [|i] H; cbn; try lia;
    [reflexivity|]. apply IH. lia.
Qed.

Section Balance.
Context {collaborators : Collaborators}.
Variables (o : GDALWarpOptions) (base scale : double).

Lemma held_malloc n :
  hoareN (Some o, base, scale) allocation (malloc n)
         (fun ok m => m = if ok then 1 else 0).
Proof.
  intros st a st' _ H. unfold malloc, bind, this, emit, ret in H.
  injection H as <- <-. eexists [_]. split; [reflexivity|].
  cbn. destruct (VSIMalloc _ _); reflexivity.
Qed.

Lemma held_cleanup (l : list (option bytes)) :
  hoareN (Some o, base, scale) allocation
         (fold_right (fun img rest =>
                        (if is_null img then ret tt else emit EvVSIFree) ;;;
                        rest)
                     (ret tt) l)
         (fun _ m => m = - buffers l).
Proof.
  induction l as [|img l IH]; cbn [fold_right buffers];
    [now apply hoareN_ret|].
  eapply hoareN_bind with
    (Q1 := fun _ m => m = - (if is_null img then 0 else 1)).
  { destruct (is_null img);
      [now apply hoareN_ret | now apply hoareN_emit]. }
  intros _ n ->. eapply hoareN_weaken; [exact IH|].
  intros _ m ->. fold (buffers l). destruct (is_null img); lia.
Qed.

(** The loop that sets up the source buffers holds one buffer for each
    entry it filled. *)
Lemma held_source_buffers (w : Z * Z * Z * Z) nWordSize :
  let '(wx, wy, ww, wh) := w in
  hoareN (Some o, base, scale) allocation
    (for_ok (upto (nBandCount o))
       (fun i img =>
          nBand <- index (panSrcBands o) i ;;
          ok <- malloc (nWordSize * ww * wh) ;;
          if negb ok then
            CPLError CE_Failure CPLE_OutOfMemory
                     "Failed to allocate %d byte source buffer." ;;;
            ret (CE_Failure, img)
          else
            '(eErr, data) <-
              GDALRasterIO_Read SrcDS (hSrcDS o) nBand
                wx wy ww wh (eWorkingDataType o) ;;
            ret (eErr, list_set img (Z.to_nat i) (Some data)))
       (repeat None (Z.to_nat (nBandCount o))))
    (fun r m => m = buffers (snd r)).
Proof.
  destruct w as [[[wx wy] ww] wh].
  set (Inv := fun (rest : list Z) (img : list (option bytes)) (n : Z) =>
                n = buffers img /\ NoDup rest
                /\ Forall (fun i => 0 <= i
                                    /\ nth_error img (Z.to_nat i) = Some None)
                          rest).
  eapply hoareN_weaken.
  - apply (hoareN_for_ok _ _ Inv) with (n := 0).
    + intros i rest img n [Hn [Hd Hf]].
      apply NoDup_cons_iff in Hd. destruct Hd as [Hi Hd].
      apply Forall_cons_iff in Hf. destruct Hf as [[Pi Ni] Hf].
      eapply hoareN_bind with (Q1 := fun _ m => m = 0).
      { eapply hoareN_weaken;
          [apply hoareN_neutral, hoare_index | now intros ? ? [_ ->]]. }
      intros nBand ? ->.
      eapply hoareN_bind; [apply held_malloc|]. intros ok ? ->.
      destruct ok; cbn [negb].
      * eapply hoareN_bind with (Q1 := fun _ m => m = 0).
        { eapply hoareN_weaken;
            [apply hoareN_neutral, (hoare_GDALRasterIO_Read o base scale);
             reflexivity
            | now intros ? ? [_ ->]]. }
        intros [e data] ? ->. apply hoareN_ret. cbn [snd].
        split; [|split; [exact Hd|]].
        -- rewrite (buffers_list_set _ _ _ Ni). lia.
        -- apply Forall_forall. intros j Hj.
           rewrite Forall_forall in Hf. destruct (Hf j Hj) as [Pj Nj].
           split; [exact Pj|].
           rewrite nth_error_list_set_other; [exact Nj|].
           intros E. apply Z2Nat.inj in E; [|lia|lia]. subst j. contradiction.
      * eapply hoareN_bind with (Q1 := fun _ m => m = 0).
        { eapply hoareN_weaken;
            [apply hoareN_neutral, hoare_emit; reflexivity
            | now intros ? ? [_ ->]]. }
        intros _ ? ->. apply hoareN_ret. cbn [snd].
        split; [lia|]. split; assumption.
    + split; [now rewrite buffers_repeat|]. split; [apply NoDup_upto|].
      apply Forall_forall. intros i Hi. apply upto_range in Hi.
      split; [lia|]. apply nth_error_repeat_None. lia.
  - intros r m [rest [[Hm _] _]]. cbn in Hm. exact Hm.
Qed.

Lemma hoareN_ret_bind {A B} (a : A) (k : A -> M B) (Q : B -> Z -> Prop) :
  hoareN (Some o, base, scale) allocation (k a) Q ->
  hoareN (Some o, base, scale) allocation (bind (ret a) k) Q.
Proof. intros H. exact H. Qed.

(** A step that takes and gives back no buffer. *)
Lemma held_step {A} (c : M A) (Q : A -> Prop) :
  hoare (Some o, base, scale) (fun e => allocation e = 0) c Q ->
  hoareN (Some o, base, scale) allocation c (fun a m => Q a /\ m = 0).
Proof. apply hoareN_neutral. Qed.

Hypothesis no_source_nodata : padfSrcNoDataReal o = None.

Lemma held_WarpRegionToBuffer dx dy dw dh buf t sx sy sw sh :
  hoareN (Some o, base, scale) allocation
         (WarpRegionToBuffer dx dy dw dh buf t sx sy sw sh)
         (fun _ m => m = 0).
Proof.
  unfold WarpRegionToBuffer.
  eapply hoareN_bind; [apply held_step, hoare_options|].
  intros o' ? [Ho ->]. cbn in Ho. injection Ho as <-.
  eapply hoareN_bind with (Q1 := fun _ m => m = 0).
  { destruct ((sw =? 0) && (sh =? 0)); [|now apply hoareN_ret].
    eapply hoareN_weaken;
      [apply held_step, hoare_ComputeSourceWindow; reflexivity|].
    now intros ? ? [_ ->]. }
  intros [e win] ? ->.
  destruct (negb (CPLErr_eqb e CE_None)); [now apply hoareN_ret|].
  eapply hoareN_bind; [apply held_step, hoare_defined|].
  intros [[[wx wy] ww] wh] ? [_ ->].
  eapply hoareN_bind; [apply held_step, hoare_this|].
  intros st ? [_ ->].
  eapply hoareN_bind; [apply (held_source_buffers (wx, wy, ww, wh))|].
  intros [e1 srcImage] ? ->. cbn [snd].
  rewrite no_source_nodata. cbn [is_null negb andb].
  apply hoareN_ret_bind.
  eapply hoareN_bind with (Q1 := fun _ m => m = 0).
  { destruct (CPLErr_eqb e1 CE_None); [|now apply hoareN_ret].
    eapply hoareN_bind; [apply held_step, hoare_this|].
    intros st2 ? [_ ->].
    destruct (PerformWarp _ _) as [e3 planes].
    eapply hoareN_bind; [apply held_step, hoare_emit; reflexivity|].
    intros _ ? [_ ->]. now apply hoareN_ret. }
  intros [e3 buf3] ? ->.
  eapply hoareN_bind; [apply held_cleanup|].
  intros _ ? ->. apply hoareN_ret. cbn [WK.papabySrcImage]. lia.
Qed.

Lemma held_WarpRegion dx dy dw dh sx sy sw sh :
  hoareN (Some o, base, scale) allocation (WarpRegion dx dy dw dh sx sy sw sh)
         (fun _ m => m = 0).
Proof.
  unfold WarpRegion.
  eapply hoareN_bind; [apply held_step, hoare_emit; reflexivity|].
  intros _ ? [_ ->].
  eapply hoareN_bind; [apply held_step, hoare_options|].
  intros o' ? [Ho ->]. cbn in Ho. injection Ho as <-.
  eapply hoareN_bind; [apply held_malloc|]. intros ok ? ->.
  destruct ok; cbn [negb].
  2:{ eapply hoareN_bind; [apply held_step, hoare_emit; reflexivity|].
      intros _ ? [_ ->]. now apply hoareN_ret. }
  eapply hoareN_bind with (Q1 := fun _ m => m = 0).
  { destruct (CSLFetchNameValue (papszWarpOptions o) "INIT_DEST") as [s|].
    - eapply hoareN_bind; [apply held_step, (hoare_init_dest o base scale)|].
      intros b ? [_ ->]. now apply hoareN_ret.
    - eapply hoareN_weaken;
        [apply held_step,
           (hoare_for_ok _ _ (fun _ : bytes => True)); [|exact I]
        | now intros ? ? [_ ->]].
      intros i buf _.
      eapply hoare_bind; [apply hoare_index|]. intros nBand _.
      eapply hoare_bind;
        [apply (hoare_GDALRasterIO_Read o base scale); reflexivity|].
      intros [e1 data] _. now apply hoare_ret. }
  intros [e1 buf] ? ->.
  destruct (negb (CPLErr_eqb e1 CE_None)).
  { eapply hoareN_bind with (Q1 := fun _ m => m = -1);
      [now apply hoareN_emit|].
    intros _ ? ->. now apply hoareN_ret. }
  eapply hoareN_bind; [apply held_WarpRegionToBuffer|].
  intros [e2 buf2] ? ->.
  eapply hoareN_bind with (Q1 := fun _ m => m = 0).
  { destruct (CPLErr_eqb e2 CE_None); [|now apply hoareN_ret].
    eapply hoareN_weaken;
      [apply held_step,
         (hoare_for_ok _ _ (fun _ : unit => True)); [|exact I]
      | now intros ? ? [_ ->]].
    intros i u _.
    eapply hoare_bind; [apply hoare_index|]. intros nBand _.
    eapply hoare_bind;
      [apply (hoare_GDALRasterIO_Write o base scale); reflexivity|].
    intros e3 _. now apply hoare_ret. }
  intros [e3 u] ? ->.
  eapply hoareN_bind with (Q1 := fun _ m => m = -1);
    [now apply hoareN_emit|].
  intros _ ? ->. now apply hoareN_ret.
Qed.

End Balance.

(** ** The chunker on every outcome *)

Lemma ComputeSourceWindow_harmless dx dy dw dh st r st' :
  ComputeSourceWindow dx dy dw dh st = Some (r, st') ->
  exists evs, st' = add_calls st evs /\ Forall harmless evs.
Proof.
  intros H.
  assert (R : hoare (frame_of st) harmless
                (ComputeSourceWindow dx dy dw dh)
                (fun r => fst r <> CE_None \/ exists w, snd r = Some w))
    by (apply hoare_ComputeSourceWindow; exact I).
  destruct (R st r st' eq_refl H) as [_ E]. exact E.
Qed.

Lemma harmless_not_WarpRegion l :
  Forall harmless l -> Forall not_WarpRegion l.
Proof.
  apply Forall_impl. intros e He. destruct e; try exact I. elim He.
Qed.

Section Leaves.
Context {collaborators : Collaborators}.

Variable o : GDALWarpOptions.

(** What a call of [WarpRegion] on a chunk and a source window that returned
    [e] is known to add to the history. *)
Variable Leaf : Z * Z * Z * Z -> Z * Z * Z * Z -> CPLErr -> list event -> Prop.

Hypothesis WarpRegion_leaf :
  forall dx dy dw dh sx sy sw sh st e st',
    psOptions st = Some o ->
    WarpRegion dx dy dw dh sx sy sw sh st = Some (e, st') ->
    exists evs,
      st' = add_calls st evs /\ Leaf (dx, dy, dw, dh) (sx, sy, sw, sh) e evs.

(** What is to be shown of the events of a run on rectangle [r] that
    returned [e]. *)
Variable I : Z * Z * Z * Z -> CPLErr -> list event -> Prop.

Hypothesis I_estimate_failed :
  forall r e ev0, Forall harmless ev0 -> e <> CE_None -> I r e ev0.

Hypothesis I_leaf :
  forall dx dy dw dh sx sy sw sh e ev0 evs,
    must_split o sw sh dw dh = false ->
    Forall harmless ev0 ->
    Leaf (dx, dy, dw, dh) (sx, sy, sw, sh) e evs ->
    I (dx, dy, dw, dh) e (ev0 ++ evs).

Hypothesis I_lower_failed :
  forall dx dy dw dh e ev0 evs1,
    Forall harmless ev0 -> e <> CE_None ->
    I (fst (split_chunk dx dy dw dh)) e evs1 ->
    I (dx, dy, dw, dh) e (ev0 ++ evs1).

Hypothesis I_both :
  forall dx dy dw dh e ev0 evs1 evs2,
    Forall harmless ev0 ->
    I (fst (split_chunk dx dy dw dh)) CE_None evs1 ->
    I (snd (split_chunk dx dy dw dh)) e evs2 ->
    I (dx, dy, dw, dh) e (ev0 ++ evs1 ++ evs2).

(** Induction over the recursion of [ChunkAndWarpImage]. *)
Lemma ChunkAndWarpImage_runs n : forall dx dy dw dh st e st',
  (recursion_depth dw dh <= n)%nat ->
  psOptions st = Some o ->
  ChunkAndWarpImage dx dy dw dh st = Some (e, st') ->
  exists evs, st' = add_calls st evs /\ I (dx, dy, dw, dh) e evs.
Proof.
  induction n as [n IH] using lt_wf_ind.
  intros dx dy dw dh st e st' Hn Hopt H.
  rewrite ChunkAndWarpImage_unfold in H.
  destruct (ComputeSourceWindow dx dy dw dh st) as [[[eErr win] st1]|] eqn:Hc.
  2:{ rewrite ChunkAndWarpImage_body_undefined in H by auto. discriminate H. }
  destruct (ComputeSourceWindow_harmless _ _ _ _ _ _ _ Hc) as [ev0 [E0 F0]].
  subst st1.
  destruct (CPLErr_eqb eErr CE_None) eqn:He.
  2:{ rewrite (ChunkAndWarpImage_body_failure _ _ _ _ _ _ _ _ _ Hc) in H
        by (intros ->; discriminate He).
      injection H as <- <-. exists ev0. split; [reflexivity|].
      apply I_estimate_failed; [exact F0|]. intros ->. discriminate He. }
  destruct eErr; try discriminate He.
  destruct win as [w|].
  2:{ rewrite ChunkAndWarpImage_body_undefined in H by eauto.
      discriminate H. }
  destruct w as [[[sx sy] sw] sh].
  assert (Ho : psOptions (add_calls st ev0) = Some o) by exact Hopt.
  rewrite (ChunkAndWarpImage_body_run _ _ _ _ _ _ _ _ _ _ _ _ Hc Ho) in H.
  destruct (must_split o sw sh dw dh) eqn:Hm.
  - pose proof (must_split_size _ _ _ _ _ Hm) as Hs.
    unfold split_path in H.
    pose proof (I_lower_failed dx dy dw dh) as L.
    pose proof (I_both dx dy dw dh) as B.
    destruct (split_chunk dx dy dw dh)
      as [[[[x1 y1] w1] h1] [[[x2 y2] w2] h2]] eqn:E.
    destruct (split_chunk_depth _ _ _ _ _ _ _ _ _ _ _ _ Hs E) as [D1 D2].
    cbn [fst snd] in L, B.
    destruct (ChunkAndWarpImage x1 y1 w1 h1 _) as [[e1 st2]|] eqn:H1;
      [|discriminate H].
    apply (IH (recursion_depth w1 h1)) in H1; [|lia|lia|exact Hopt].
    destruct H1 as [evs1 [-> I1]].
    assert (Lf : e1 <> CE_None ->
                 Some (e1, with_progress
                             (add_calls
                                (with_progress (add_calls st ev0)
                                   (dfProgressBase (add_calls st ev0))
                                   (dfProgressScale (add_calls st ev0) * 0.5))
                                evs1)
                             (dfProgressBase (add_calls st ev0))
                             (dfProgressScale (add_calls st ev0)))
                 = Some (e, st') ->
                 exists evs, st' = add_calls st evs
                             /\ I (dx, dy, dw, dh) e evs).
    { intros Ne R. injection R as <- <-. exists (ev0 ++ evs1).
      split; [state_eq|]. now apply L. }
    destruct e1; try (apply Lf; [discriminate|exact H]).
    destruct (ChunkAndWarpImage x2 y2 w2 h2 _) as [[e3 st3]|] eqn:H2;
      [|discriminate H].
    apply (IH (recursion_depth w2 h2)) in H2; [|lia|lia|exact Hopt].
    destruct H2 as [evs2 [-> I2]].
    injection H as <- <-. exists (ev0 ++ evs1 ++ evs2).
    split; [state_eq|]. now apply B.
  - apply (WarpRegion_leaf _ _ _ _ _ _ _ _ _ _ _ Ho) in H.
    destruct H as [evs [-> F]].
    exists (ev0 ++ evs).
    split; [apply add_calls_app|].
    apply (I_leaf _ _ _ _ sx sy sw sh); assumption.
Qed.

End Leaves.

Section LeafProperties.
Context {collaborators : Collaborators}.

Lemma within_budget_others o l :
  Forall not_WarpRegion l -> Forall (within_budget o) l.
Proof.
  induction 1 as [|e l He _ IH]; constructor; [|exact IH].
  destruct e; try exact I. elim He.
Qed.

Lemma within_budget_harmless o l :
  Forall harmless l -> Forall (within_budget o) l.
Proof. intros H. now apply within_budget_others, harmless_not_WarpRegion. Qed.

Lemma WarpRegion_record dx dy dw dh sx sy sw sh st e st' :
  WarpRegion dx dy dw dh sx sy sw sh st = Some (e, st') ->
  exists evs,
    st' = add_calls st evs
    /\ region_record (dx, dy, dw, dh) (sx, sy, sw, sh) e evs.
Proof.
  intros H. apply WarpRegion_calls in H. destruct H as [evs [-> F]].
  eexists. split; [reflexivity|]. exists evs. auto.
Qed.

Lemma must_split_false o sw sh dw dh :
  must_split o sw sh dw dh = false ->
  PrimFloat.ltb (dfWarpMemoryLimit o) (total_bytes o sw sh dw dh) = false
  \/ (dw <= 2 /\ dh <= 2).
Proof.
  unfold must_split. intros H. apply andb_false_iff in H.
  destruct H as [H|H]; [now left|right].
  apply orb_false_iff in H. destruct H as [H1 H2].
  apply Z.ltb_ge in H1, H2. auto.
Qed.

(** X9: in every completed run of ChunkAndWarpImage, successful or not, each
    chunk handed to WarpRegion is priced within the memory limit for the
    source window it was estimated with, or has both sides at most
    2 pixels. *)
Theorem ChunkAndWarpImage_within_budget :
  forall st o dx dy dw dh e st',
    psOptions st = Some o ->
    ChunkAndWarpImage dx dy dw dh st = Some (e, st') ->
    Forall (within_budget o) (new_calls st st').
Proof.
  intros st o dx dy dw dh e st' Ho H.
  cut (exists evs, st' = add_calls st evs /\ Forall (within_budget o) evs).
  { intros [evs [-> F]]. now rewrite new_calls_add. }
  apply (ChunkAndWarpImage_runs o region_record
           (fun _ _ _ _ _ _ _ _ _ _ _ _ => WarpRegion_record _ _ _ _ _ _ _ _ _ _ _)
           (fun _ _ evs => Forall (within_budget o) evs))
    with (n := recursion_depth dw dh) (e := e)
         (dx := dx) (dy := dy) (dw := dw) (dh := dh);
    try assumption; try lia.
  - intros _ _ ev0 F _. now apply within_budget_harmless.
  - intros x y w h sx sy sw sh _ ev0 evs Hm F0 [evs' [-> F]].
    apply Forall_app. split; [now apply within_budget_harmless|].
    constructor; [|now apply within_budget_others].
    now apply must_split_false.
  - intros x y w h _ ev0 evs1 F0 _ F1.
    apply Forall_app. split; [now apply within_budget_harmless|exact F1].
  - intros x y w h _ ev0 evs1 evs2 F0 F1 F2.
    apply Forall_app. split; [now apply within_budget_harmless|].
    apply Forall_app. now split.
Qed.

Lemma packs_nil r : packs [] r.
Proof. intros px py. cbn. destruct (in_rect r px py); lia. Qed.

Lemma packs_single r : packs [r] r.
Proof.
  intros px py. unfold covering. cbn [filter].
  destruct (in_rect r px py); cbn; lia.
Qed.

Lemma packs_lower dx dy dw dh l :
  packs l (fst (split_chunk dx dy dw dh)) -> packs l (dx, dy, dw, dh).
Proof.
  intros P px py. specialize (P px py).
  pose proof (split_chunk_partition dx dy dw dh px py) as S.
  destruct (split_chunk dx dy dw dh) as [lower upper]. cbn [fst] in P.
  destruct S as [_ U]. rewrite U.
  destruct (in_rect lower px py); cbn [orb]; [exact P|].
  destruct (in_rect upper px py); lia.
Qed.

Lemma packs_split dx dy dw dh l1 l2 :
  packs l1 (fst (split_chunk dx dy dw dh)) ->
  packs l2 (snd (split_chunk dx dy dw dh)) ->
  packs (l1 ++ l2) (dx, dy, dw, dh).
Proof.
  intros P1 P2 px py. specialize (P1 px py). specialize (P2 px py).
  rewrite covering_app.
  pose proof (split_chunk_partition dx dy dw dh px py) as S.
  destruct (split_chunk dx dy dw dh) as [lower upper]. cbn [fst snd] in *.
  destruct S as [D U]. rewrite U.
  destruct (in_rect lower px py), (in_rect upper px py);
    cbn [orb andb] in *; try lia; discriminate D.
Qed.

(** X10: in every completed run of ChunkAndWarpImage, also one that fails
    half way, the chunks handed to WarpRegion are pairwise disjoint and lie
    inside the destination rectangle: no pixel is warped twice and none
    outside the rectangle is touched. *)
Theorem ChunkAndWarpImage_packs :
  forall st o dx dy dw dh e st',
    psOptions st = Some o ->
    ChunkAndWarpImage dx dy dw dh st = Some (e, st') ->
    packs (leaf_chunks (new_calls st st')) (dx, dy, dw, dh).
Proof.
  intros st o dx dy dw dh e st' Ho H.
  cut (exists evs, st' = add_calls st evs
                   /\ packs (leaf_chunks evs) (dx, dy, dw, dh)).
  { intros [evs [-> F]]. now rewrite new_calls_add. }
  apply (ChunkAndWarpImage_runs o region_record
           (fun _ _ _ _ _ _ _ _ _ _ _ _ => WarpRegion_record _ _ _ _ _ _ _ _ _ _ _)
           (fun r _ evs => packs (leaf_chunks evs) r))
    with (n := recursion_depth dw dh) (e := e)
         (dx := dx) (dy := dy) (dw := dw) (dh := dh);
    try assumption; try lia.
  - intros r _ ev0 F _.
    rewrite (leaf_chunks_none _ (harmless_not_WarpRegion _ F)).
    apply packs_nil.
  - intros x y w h sx sy sw sh _ ev0 evs _ F0 [evs' [-> F]].
    rewrite leaf_chunks_app,
      (leaf_chunks_none _ (harmless_not_WarpRegion _ F0)).
    cbn [leaf_chunks app].
    rewrite (leaf_chunks_none _ F). apply packs_single.
  - intros x y w h _ ev0 evs1 F0 _ P1.
    rewrite leaf_chunks_app,
      (leaf_chunks_none _ (harmless_not_WarpRegion _ F0)).
    cbn [app]. now apply packs_lower.
  - intros x y w h _ ev0 evs1 evs2 F0 P1 P2.
    rewrite leaf_chunks_app,
      (leaf_chunks_none _ (harmless_not_WarpRegion _ F0)), leaf_chunks_app.
    cbn [app]. now apply packs_split.
Qed.

(** X11: in the split path the lower half runs with the progress pair
    (base, scale * 0.5) and, when it succeeds, the upper half runs with
    (base + scale * 0.5, scale * 0.5); the pair (base, scale) is put back
    afterwards. *)
Theorem split_path_progress :
  forall dx dy dw dh st1,
    let base := dfProgressBase st1 in
    let scale := dfProgressScale st1 in
    let lower := fst (split_chunk dx dy dw dh) in
    let upper := snd (split_chunk dx dy dw dh) in
    let run r st :=
      let '(x, y, w, h) := r in ChunkAndWarpImage x y w h st in
    split_path ChunkAndWarpImage dx dy dw dh st1
    = match run lower (with_progress st1 base (scale * 0.5)%float) with
      | None => None
      | Some (CE_None, st2) =>
          match run upper
                  (with_progress st2 (base + scale * 0.5)%float
                                 (scale * 0.5)%float) with
          | None => None
          | Some (e, st3) => Some (e, with_progress st3 base scale)
          end
      | Some (e, st2) => Some (e, with_progress st2 base scale)
      end.
Proof.
  intros dx dy dw dh st1 base scale lower upper run.
  unfold split_path, lower, upper, run.
  destruct (split_chunk dx dy dw dh)
    as [[[[x1 y1] w1] h1] [[[x2 y2] w2] h2]].
  cbn [fst snd]. fold base scale.
  destruct (ChunkAndWarpImage x1 y1 w1 h1 _) as [[e1 st2]|] eqn:H1;
    [|reflexivity].
  apply (ChunkAndWarpImage_calls (recursion_depth w1 h1)) in H1; [|lia].
  destruct H1 as [evs [-> _]]. reflexivity.
Qed.

End LeafProperties.

Lemma ChunkAndWarpImage_within_budget_witness :
  let st := Example.tight_budget Example.identity in
  let r := @ChunkAndWarpImage Example.plain 0 0 10 10 st in
  Forall (@within_budget Example.plain (Scenario.options_10 Example.identity))
         (new_calls st (Example.final r st)).
Proof.
  intros st r.
  apply (@ChunkAndWarpImage_within_budget Example.plain st
           (Scenario.options_10 Example.identity) 0 0 10 10
           (Example.status r CE_Failure) (Example.final r st)).
  - reflexivity.
  - vm_compute. reflexivity.
Defined.

Lemma ChunkAndWarpImage_packs_witness :
  let st := Example.tight_budget Example.identity in
  let r := @ChunkAndWarpImage Example.plain 0 0 10 10 st in
  packs (leaf_chunks (new_calls st (Example.final r st))) (0, 0, 10, 10).
Proof.
  intros st r.
  apply (@ChunkAndWarpImage_packs Example.plain st
           (Scenario.options_10 Example.identity) 0 0 10 10
           (Example.status r CE_None) (Example.final r st)).
  - reflexivity.
  - vm_compute. reflexivity.
Defined.

(** ** The whole run *)

Section WholeRun.
Context {collaborators : Collaborators}.

Lemma ChunkAndWarpImage_options dx dy dw dh st e st' :
  ChunkAndWarpImage dx dy dw dh st = Some (e, st') ->
  exists o, psOptions st = Some o.
Proof.
  intros H. rewrite ChunkAndWarpImage_unfold in H.
  destruct (ComputeSourceWindow dx dy dw dh st) as [[r st1]|] eqn:Hc.
  - destruct (ComputeSourceWindow_defined _ _ _ _ _ _ _ Hc) as [o [f [Ho _]]].
    eauto.
  - rewrite ChunkAndWarpImage_body_undefined in H by auto. discriminate H.
Qed.

Lemma within_refl r : within r r.
Proof. intros px py H. exact H. Qed.

Lemma within_lower dx dy dw dh w :
  within (fst (split_chunk dx dy dw dh)) w -> within (dx, dy, dw, dh) w.
Proof.
  intros W px py H. specialize (W px py H).
  pose proof (split_chunk_partition dx dy dw dh px py) as S.
  destruct (split_chunk dx dy dw dh) as [lower upper]. cbn [fst] in W.
  destruct S as [_ U]. rewrite U, W. reflexivity.
Qed.

Lemma within_upper dx dy dw dh w :
  within (snd (split_chunk dx dy dw dh)) w -> within (dx, dy, dw, dh) w.
Proof.
  intros W px py H. specialize (W px py H).
  pose proof (split_chunk_partition dx dy dw dh px py) as S.
  destruct (split_chunk dx dy dw dh) as [lower upper]. cbn [snd] in W.
  destruct S as [_ U]. rewrite U, W. apply orb_true_r.
Qed.

Lemma io_within_grows (r r' : Z * Z * Z * Z) l :
  (forall w, within r w -> within r' w) ->
  Forall (io_within r) l -> Forall (io_within r') l.
Proof.
  intros G. apply Forall_impl. intros e.
  destruct e as [| | | | |rw ds band x y w h data| |]; try (intros; exact I).
  destruct rw, ds; cbn; auto.
Qed.

Lemma io_within_harmless r l :
  Forall harmless l -> Forall (io_within r) l.
Proof.
  apply Forall_impl. intros e He. destruct e; try exact I; elim He.
Qed.

Lemma io_within_confined dx dy dw dh sx sy sw sh l :
  Forall (io_confined dx dy dw dh sx sy sw sh) l ->
  Forall (io_within (dx, dy, dw, dh)) l.
Proof.
  apply Forall_impl. intros e.
  destruct e as [| | | | |rw ds band x y w h data| |]; try (intros; exact I).
  destruct rw, ds; cbn; try (intros; exact I); try (intros F; exact F);
    intros E; injection E as -> -> -> ->; apply within_refl.
Qed.

Lemma WarpRegion_confined dx dy dw dh sx sy sw sh st e st' :
  WarpRegion dx dy dw dh sx sy sw sh st = Some (e, st') ->
  exists evs,
    st' = add_calls st evs
    /\ Forall (io_confined dx dy dw dh sx sy sw sh) evs.
Proof.
  intros H.
  destruct (WarpRegion_options _ _ _ _ _ _ _ _ _ _ _ H) as [o Ho].
  assert (R : hoare (frame_of st) (io_confined dx dy dw dh sx sy sw sh)
                (WarpRegion dx dy dw dh sx sy sw sh)
                (fun e => e = CE_None ->
                          exists h k, fst (PerformWarp h k) = CE_None)).
  { unfold frame_of. rewrite Ho.
    apply hoare_WarpRegion; try (intros; exact I).
    - intros _. repeat split.
    - intros band wx wy ww wh data W. exact W.
    - reflexivity.
    - reflexivity. }
  destruct (R st e st' eq_refl H) as [_ E]. exact E.
Qed.

(** X17: in every completed run of ChunkAndWarpImage, whatever it returns,
    every read and every write of the destination dataset is on a window
    whose pixels all lie in the rectangle asked for, and the source dataset
    is never written. *)
Theorem ChunkAndWarpImage_footprint :
  forall st dx dy dw dh e st',
    ChunkAndWarpImage dx dy dw dh st = Some (e, st') ->
    Forall (io_within (dx, dy, dw, dh)) (new_calls st st').
Proof.
  intros st dx dy dw dh e st' H.
  destruct (ChunkAndWarpImage_options _ _ _ _ _ _ _ H) as [o Ho].
  cut (exists evs, st' = add_calls st evs
                   /\ Forall (io_within (dx, dy, dw, dh)) evs).
  { intros [evs [-> F]]. now rewrite new_calls_add. }
  apply (ChunkAndWarpImage_runs o
           (fun r w _ evs =>
              let '(x, y, w', h) := r in
              let '(sx, sy, sw, sh) := w in
              Forall (io_confined x y w' h sx sy sw sh) evs)
           (fun _ _ _ _ _ _ _ _ _ _ _ _ =>
              WarpRegion_confined _ _ _ _ _ _ _ _ _ _ _)
           (fun r _ evs => Forall (io_within r) evs))
    with (n := recursion_depth dw dh) (e := e)
         (dx := dx) (dy := dy) (dw := dw) (dh := dh);
    try assumption; try lia.
  - intros r _ ev0 F _. now apply io_within_harmless.
  - intros x y w h sx sy sw sh _ ev0 evs _ F0 F.
    apply Forall_app. split; [now apply io_within_harmless|].
    now apply io_within_confined in F.
  - intros x y w h _ ev0 evs1 F0 _ F1.
    apply Forall_app. split; [now apply io_within_harmless|].
    revert F1. apply io_within_grows, within_lower.
  - intros x y w h _ ev0 evs1 evs2 F0 F1 F2.
    apply Forall_app. split; [now apply io_within_harmless|].
    apply Forall_app. split.
    + revert F1. apply io_within_grows, within_lower.
    + revert F2. apply io_within_grows, within_upper.
Qed.

Lemma held_harmless l : Forall harmless l -> held l = 0.
Proof.
  intros H. apply weigh_neutral. revert H. apply Forall_impl.
  intros e He. destruct e; try reflexivity; elim He.
Qed.

Lemma WarpRegion_held o dx dy dw dh sx sy sw sh st e st' :
  padfSrcNoDataReal o = None ->
  psOptions st = Some o ->
  WarpRegion dx dy dw dh sx sy sw sh st = Some (e, st') ->
  exists evs, st' = add_calls st evs /\ held evs = 0.
Proof.
  intros Hn Ho H.
  apply (held_WarpRegion o (dfProgressBase st) (dfProgressScale st) Hn
           dx dy dw dh sx sy sw sh st e st'); [|exact H].
  unfold frame_of. now rewrite Ho.
Qed.

(** X18: when the options carry no source no-data values, a completed call
    of WarpRegion, on success and on every failure path, has released each
    buffer it obtained from VSIMalloc: successful allocations and frees
    balance. *)
Theorem WarpRegion_releases_buffers :
  forall st o dx dy dw dh sx sy sw sh e st',
    psOptions st = Some o ->
    padfSrcNoDataReal o = None ->
    WarpRegion dx dy dw dh sx sy sw sh st = Some (e, st') ->
    held (new_calls st st') = 0.
Proof.
  intros st o dx dy dw dh sx sy sw sh e st' Ho Hn H.
  destruct (WarpRegion_held o _ _ _ _ _ _ _ _ _ _ _ Hn Ho H) as [evs [-> E]].
  now rewrite new_calls_add.
Qed.

(** X19: when the options carry no source no-data values, a completed run of
    ChunkAndWarpImage holds no buffer at its end, however many chunks it
    warped and whether or not it failed on the way. *)
Theorem ChunkAndWarpImage_releases_buffers :
  forall st o dx dy dw dh e st',
    psOptions st = Some o ->
    padfSrcNoDataReal o = None ->
    ChunkAndWarpImage dx dy dw dh st = Some (e, st') ->
    held (new_calls st st') = 0.
Proof.
  intros st o dx dy dw dh e st' Ho Hn H.
  cut (exists evs, st' = add_calls st evs /\ held evs = 0).
  { intros [evs [-> F]]. now rewrite new_calls_add. }
  apply (ChunkAndWarpImage_runs o
           (fun _ _ _ evs => held evs = 0)
           (fun _ _ _ _ _ _ _ _ _ _ _ =>
              WarpRegion_held o _ _ _ _ _ _ _ _ _ _ _ Hn)
           (fun _ _ evs => held evs = 0))
    with (n := recursion_depth dw dh) (e := e)
         (dx := dx) (dy := dy) (dw := dw) (dh := dh);
    try assumption; try lia.
  - intros r _ ev0 F _. now apply held_harmless.
  - intros x y w h sx sy sw sh _ ev0 evs _ F0 F.
    rewrite held_app, (held_harmless _ F0). lia.
  - intros x y w h _ ev0 evs1 F0 _ F1.
    rewrite held_app, (held_harmless _ F0). lia.
  - intros x y w h _ ev0 evs1 evs2 F0 F1 F2.
    rewrite !held_app, (held_harmless _ F0). lia.
Qed.

End WholeRun.

Lemma ChunkAndWarpImage_footprint_witness :
  let st := Example.tight_budget Example.identity in
  let r := @ChunkAndWarpImage Example.plain 0 0 10 10 st in
  Forall (io_within (0, 0, 10, 10)) (new_calls st (Example.final r st)).
Proof.
  intros st r.
  apply (@ChunkAndWarpImage_footprint Example.plain st 0 0 10 10
           (Example.status r CE_Failure) (Example.final r st)).
  vm_compute. reflexivity.
Defined.

Lemma WarpRegion_releases_buffers_witness :
  let st := Example.tight_budget Example.identity in
  let r := @WarpRegion Example.plain 0 0 2 2 1 1 3 3 st in
  held (new_calls st (Example.final r st)) = 0.
Proof.
  intros st r.
  apply (@WarpRegion_releases_buffers Example.plain st
           (Scenario.options_10 Example.identity) 0 0 2 2 1 1 3 3
           (Example.status r CE_Failure) (Example.final r st)).
  - reflexivity.
  - reflexivity.
  - vm_compute. reflexivity.
Defined.

Lemma ChunkAndWarpImage_releases_buffers_witness :
  let st := Example.tight_budget Example.identity in
  let r := @ChunkAndWarpImage Example.plain 0 0 10 10 st in
  held (new_calls st (Example.final r st)) = 0.
Proof.
  intros st r.
  apply (@ChunkAndWarpImage_releases_buffers Example.plain st
           (Scenario.options_10 Example.identity) 0 0 10 10
           (Example.status r CE_Failure) (Example.final r st)).
  - reflexivity.
  - reflexivity.
  - vm_compute. reflexivity.
Defined.

(** ** Mask planes are only ever added *)

Lemma read_write_other k s s' v b :
  read_slot k s = Some None ->
  read_slot k s' = Some (Some b) ->
  read_slot (write_slot k s v) s' = Some (Some b).
Proof.
  destruct s as [i| | | |], s' as [j| | | |]; cbn;
    try (intros _ H; exact H); try congruence.
  destruct (WK.papanBandSrcValid k) as [a|]; [|discriminate]. cbn.
  destruct (i <? 0) eqn:Ei; [discriminate|].
  destruct (j <? 0) eqn:Ej; [discriminate|].
  intros Hi Hj. rewrite nth_error_list_set_other; [exact Hj|].
  intros E. rewrite E in Hi. congruence.
Qed.

Lemma mask_particulars_planes k i t k' s w h bits d s' b :
  mask_particulars k i t = Some (k', s, w, h, bits, d) ->
  read_slot k s' = Some (Some b) -> read_slot k' s' = Some (Some b).
Proof.
  unfold mask_particulars.
  destruct (EQUAL t "BandSrcValid").
  { intros E. injection E as <- _ _ _ _ _.
    destruct (WK.papanBandSrcValid k) as [a|] eqn:Ea; cbn [is_null];
      [auto|].
    destruct s'; cbn; try rewrite Ea; auto; discriminate. }
  repeat (match goal with
          | |- context [if ?c then _ else _] => destruct c
          end; [intros E; injection E as <- _ _ _ _ _; auto|]).
  discriminate.
Qed.

Section Masks.
Context {collaborators : Collaborators}.

(** X20: CreateKernelMask only ever adds a missing mask plane: whatever it
    returns, the buffers, windows, band count and progress fields of the
    kernel are as before, and every mask plane that was in place before the
    call is in place afterwards with the same contents; the fields of the
    operation are left alone and the only collaborators called are the
    allocator and the error reporter. *)
Theorem CreateKernelMask_keeps_planes :
  forall k iBand pszType st e k' st',
    CreateKernelMask k iBand pszType st = Some ((e, k'), st') ->
    kernel_core k' = kernel_core k
    /\ (forall s b, read_slot k s = Some (Some b) ->
                    read_slot k' s = Some (Some b))
    /\ exists evs,
         st' = add_calls st evs
         /\ Forall allocator_or_error evs.
Proof.
  intros k iBand pszType st e k' st'. unfold CreateKernelMask.
  destruct (mask_particulars k iBand pszType)
    as [[[[[[k1 slot] w] h] bits] d]|] eqn:E.
  - pose proof (kernel_core_mask_particulars _ _ _ _ _ _ _ _ _ E) as C.
    pose proof (fun s b => mask_particulars_planes _ _ _ _ _ _ _ _ _ s b E)
      as Pl.
    destruct (read_slot k1 slot) as [mask|] eqn:Er;
      [|intros H; discriminate H].
    unfold bind at 1, defined, ret.
    destruct mask as [buf|]; cbn [is_null].
    + intros H. injection H as <- <- <-.
      split; [exact C|]. split; [exact Pl|].
      exists []. split; [now rewrite add_calls_nil | constructor].
    + unfold bind at 1.
      destruct (if bits =? 32 then _ else _) as [nBytes|];
        [|intros H; discriminate H].
      unfold bind, this, emit, CPLError, emit, ret.
      destruct (VSIMalloc (calls st) _) eqn:Ev; cbn [negb];
        intros H; injection H as <- <- <-.
      * split; [now rewrite kernel_core_write_slot|].
        split; [intros s b Hs; apply read_write_other; auto|].
        eexists [_]. split; [reflexivity|]. repeat (constructor; try exact I).
      * split; [exact C|]. split; [exact Pl|].
        eexists [_; _].
        split; [unfold add_calls;
                cbn [psOptions dfProgressBase dfProgressScale calls];
                now rewrite <- app_assoc
               |repeat (constructor; try exact I)].
  - unfold bind, CPLError, emit, ret. intros H. injection H as <- <- <-.
    split; [reflexivity|]. split; [auto|].
    eexists [_]. split; [reflexivity|]. repeat (constructor; try exact I).
Qed.

End Masks.

Lemma CreateKernelMask_keeps_planes_witness :
  let st := Example.tight_budget Example.identity in
  let r := @CreateKernelMask Example.plain Example.small_kernel 0 "DstValid"
             st in
  kernel_core (snd (Example.status r (CE_Failure, Example.small_kernel)))
  = kernel_core Example.small_kernel.
Proof.
  intros st r.
  exact (proj1 (@CreateKernelMask_keeps_planes Example.plain
                  Example.small_kernel 0 "DstValid" st
                  (fst (Example.status r (CE_Failure, Example.small_kernel)))
                  (snd (Example.status r (CE_Failure, Example.small_kernel)))
                  (Example.final r st) ltac:(vm_compute; reflexivity))).
Defined.

(** ** What a successful call has done *)

Section Tally.
Context {collaborators : Collaborators}.
Variables (o : GDALWarpOptions) (base scale : double) (a b : Z).

Local Ltac weightless := intros; reflexivity.

(** A step whose events have no weight. *)
Lemma tally_step {A} (c : M A) (Q : A -> Prop) :
  hoare (Some o, base, scale) (fun e => tally a b e = 0) c Q ->
  hoareN (Some o, base, scale) (tally a b) c (fun x m => Q x /\ m = 0).
Proof. apply hoareN_neutral. Qed.

Lemma tally_GDALRasterIO_Write ds hDS band x y w h t data :
  hoareN (Some o, base, scale) (tally a b)
         (GDALRasterIO_Write ds hDS band x y w h t data) (fun _ m => m = b).
Proof.
  unfold GDALRasterIO_Write.
  eapply hoareN_bind; [apply tally_step, hoare_defined|]. intros d ? [_ ->].
  eapply hoareN_bind; [apply tally_step, hoare_defined|]. intros bd ? [_ ->].
  eapply hoareN_bind; [apply tally_step, hoare_this|]. intros st ? [_ ->].
  eapply hoareN_bind with (Q1 := fun _ m => m = b); [now apply hoareN_emit|].
  intros _ ? ->. apply hoareN_ret. lia.
Qed.

Lemma tally_WarpRegionToBuffer dx dy dw dh buf t sx sy sw sh :
  hoareN (Some o, base, scale) (tally a b)
         (WarpRegionToBuffer dx dy dw dh buf t sx sy sw sh)
         (fun r m => (fst r = CE_None -> m = a) /\ (m = 0 \/ m = a)).
Proof.
  unfold WarpRegionToBuffer.
  eapply hoareN_bind; [apply tally_step, hoare_options|].
  intros o' ? [Ho ->]. cbn in Ho. injection Ho as <-.
  eapply hoareN_bind with (Q1 := fun _ m => m = 0).
  { destruct ((sw =? 0) && (sh =? 0)); [|now apply hoareN_ret].
    eapply hoareN_weaken;
      [apply tally_step, hoare_ComputeSourceWindow; reflexivity|].
    now intros ? ? [_ ->]. }
  intros [e win] ? ->.
  destruct (CPLErr_eqb e CE_None) eqn:Ee; cbn [negb].
  2:{ apply hoareN_ret. cbn [fst]. split; [|now left].
      intros ->. discriminate Ee. }
  eapply hoareN_bind; [apply tally_step, hoare_defined|].
  intros [[[wx wy] ww] wh] ? [_ ->].
  eapply hoareN_bind; [apply tally_step, hoare_this|].
  intros st ? [_ ->].
  eapply hoareN_bind with (Q1 := fun _ m => m = 0).
  { eapply hoareN_weaken;
      [apply tally_step,
         (hoare_for_ok _ _ (fun _ : list (option bytes) => True)); [|exact I]
      | now intros ? ? [_ ->]].
    intros i img _.
    eapply hoare_bind; [apply hoare_index|]. intros nBand _.
    eapply hoare_bind; [apply (hoare_malloc o base scale); weightless|].
    intros ok _.
    destruct (negb ok).
    - eapply hoare_bind; [apply hoare_CPLError; reflexivity|]. intros _ _.
      now apply hoare_ret.
    - eapply hoare_bind;
        [apply (hoare_GDALRasterIO_Read o base scale); weightless|].
      intros [e1 data] _. now apply hoare_ret. }
  intros [e1 srcImage] ? ->.
  eapply hoareN_bind with (Q1 := fun _ m => m = 0).
  { destruct (negb (is_null (padfSrcNoDataReal o)) && CPLErr_eqb e1 CE_None);
      [|now apply hoareN_ret].
    eapply hoareN_weaken;
      [apply tally_step,
         (hoare_for_ok _ _ (fun _ : GDALWarpKernel => True)); [|exact I]
      | now intros ? ? [_ ->]].
    intros i k _.
    eapply hoare_bind;
      [apply (hoare_CreateKernelMask o base scale); weightless|].
    intros [e2 k2] _.
    destruct (CPLErr_eqb e2 CE_None); [|now apply hoare_ret].
    eapply hoare_bind; [apply hoare_index|]. intros re _.
    eapply hoare_bind; [apply hoare_index|]. intros im _.
    eapply hoare_bind; [apply hoare_index|]. intros img _.
    eapply hoare_bind; [apply hoare_defined|]. intros mask _.
    destruct (GDALWarpNoDataMasker _ _ _ _ _ _ _ _) as [e3 mask'].
    now apply hoare_ret. }
  intros [e2 k2] ? ->.
  eapply hoareN_bind with
    (Q1 := fun r m => (fst r = CE_None -> m = a) /\ (m = 0 \/ m = a)).
  { destruct (CPLErr_eqb e2 CE_None) eqn:E2.
    - eapply hoareN_bind; [apply tally_step, hoare_this|].
      intros st2 ? [_ ->].
      destruct (PerformWarp _ _) as [e3 planes].
      eapply hoareN_bind with (Q1 := fun _ m => m = a);
        [now apply hoareN_emit|].
      intros _ ? ->. apply hoareN_ret. split; [intros _|right]; lia.
    - apply hoareN_ret. cbn [fst]. split; [|now left].
      intros ->. discriminate E2. }
  intros [e3 buf3] m [S K]. cbn [fst] in S.
  eapply hoareN_bind; [apply tally_step, (hoare_cleanup o base scale)|].
  { reflexivity. }
  intros _ ? [_ ->]. apply hoareN_ret. cbn [fst].
  split; [intros E; rewrite (S E)|]; lia.
Qed.

Lemma tally_WarpRegion dx dy dw dh sx sy sw sh :
  hoareN (Some o, base, scale) (tally a b)
         (WarpRegion dx dy dw dh sx sy sw sh)
         (fun e m =>
            (e = CE_None ->
             m = a + b * Z.of_nat (List.length (upto (nBandCount o))))
            /\ (b = 0 -> m = 0 \/ m = a)).
Proof.
  set (N := Z.of_nat (List.length (upto (nBandCount o)))).
  unfold WarpRegion.
  eapply hoareN_bind; [apply tally_step, hoare_emit; reflexivity|].
  intros _ ? [_ ->].
  eapply hoareN_bind; [apply tally_step, hoare_options|].
  intros o' ? [Ho ->]. cbn in Ho. injection Ho as <-.
  eapply hoareN_bind;
    [apply tally_step, (hoare_malloc o base scale); weightless|].
  intros ok ? [_ ->].
  destruct (negb ok).
  { eapply hoareN_bind; [apply tally_step, hoare_emit; reflexivity|].
    intros _ ? [_ ->]. apply hoareN_ret.
    split; [discriminate | intros _; left; lia]. }
  eapply hoareN_bind with (Q1 := fun _ m => m = 0).
  { destruct (CSLFetchNameValue (papszWarpOptions o) "INIT_DEST") as [s|].
    - eapply hoareN_bind;
        [apply tally_step, (hoare_init_dest o base scale)|].
      intros bf ? [_ ->]. now apply hoareN_ret.
    - eapply hoareN_weaken;
        [apply tally_step,
           (hoare_for_ok _ _ (fun _ : bytes => True)); [|exact I]
        | now intros ? ? [_ ->]].
      intros i buf _.
      eapply hoare_bind; [apply hoare_index|]. intros nBand _.
      eapply hoare_bind;
        [apply (hoare_GDALRasterIO_Read o base scale); weightless|].
      intros [e1 data] _. now apply hoare_ret. }
  intros [e1 buf] ? ->.
  destruct (CPLErr_eqb e1 CE_None) eqn:E1; cbn [negb].
  2:{ eapply hoareN_bind; [apply tally_step, hoare_emit; reflexivity|].
      intros _ ? [_ ->]. apply hoareN_ret.
      split; [intros ->; discriminate E1 | intros _; left; lia]. }
  eapply hoareN_bind; [apply tally_WarpRegionToBuffer|].
  intros [e2 buf2] m2 [S2 K2]. cbn [fst] in S2.
  eapply hoareN_bind with
    (Q1 := fun r m => (fst r = CE_None -> e2 = CE_None /\ m = b * N)
                      /\ (b = 0 -> m = 0)).
  { destruct (CPLErr_eqb e2 CE_None) eqn:E2.
    - destruct e2; try discriminate E2.
      eapply hoareN_weaken.
      + apply (hoareN_for_ok _ _
                 (fun rest (_ : unit) n =>
                    n = b * (N - Z.of_nat (List.length rest))))
          with (n := 0).
        * intros i rest u n ->.
          eapply hoareN_bind; [apply tally_step, hoare_index|].
          intros nBand ? [_ ->].
          eapply hoareN_bind; [apply tally_GDALRasterIO_Write|].
          intros e3 ? ->. apply hoareN_ret. cbn [List.length].
          rewrite Nat2Z.inj_succ. ring.
        * unfold N. ring.
      + intros r m [rest [Hm Hr]]. rewrite Z.add_0_l in Hm. subst m. split.
        * intros E. rewrite (Hr E). cbn [List.length].
          split; [reflexivity | ring].
        * intros ->. ring.
    - apply hoareN_ret. cbn [fst]. split; [|reflexivity].
      intros ->. discriminate E2. }
  intros [e3 u] m3 [S3 K3]. cbn [fst] in S3.
  eapply hoareN_bind; [apply tally_step, hoare_emit; reflexivity|].
  intros _ ? [_ ->]. apply hoareN_ret. split.
  - intros E. destruct (S3 E) as [E2 ->]. rewrite (S2 E2). lia.
  - intros B. rewrite (K3 B). lia.
Qed.

End Tally.

Section Completion.
Context {collaborators : Collaborators}.

Lemma length_upto n : Z.of_nat (List.length (upto n)) = Z.max 0 n.
Proof. unfold upto. rewrite length_map, length_seq. lia. Qed.

Lemma WarpRegion_tally a b o dx dy dw dh sx sy sw sh st e st' :
  psOptions st = Some o ->
  WarpRegion dx dy dw dh sx sy sw sh st = Some (e, st') ->
  (e = CE_None ->
   weigh (tally a b) (new_calls st st') = a + b * Z.max 0 (nBandCount o))
  /\ (b = 0 -> weigh (tally a b) (new_calls st st') = 0
               \/ weigh (tally a b) (new_calls st st') = a).
Proof.
  intros Ho H.
  destruct (tally_WarpRegion o (dfProgressBase st) (dfProgressScale st) a b
              dx dy dw dh sx sy sw sh st e st') as [evs [-> [S K]]];
    [unfold frame_of; now rewrite Ho | exact H |].
  rewrite new_calls_add, <- length_upto. auto.
Qed.

(** X21: a call of WarpRegion that returns CE_None has run the kernel
    exactly once and written a band of the destination dataset exactly
    nBandCount times (no times for a count below 1); no completed call,
    whatever it returns, runs the kernel more than once. *)
Theorem WarpRegion_success_complete :
  forall st o dx dy dw dh sx sy sw sh e st',
    psOptions st = Some o ->
    WarpRegion dx dy dw dh sx sy sw sh st = Some (e, st') ->
    (e = CE_None ->
     kernel_runs (new_calls st st') = 1
     /\ band_writes (new_calls st st') = Z.max 0 (nBandCount o))
    /\ 0 <= kernel_runs (new_calls st st') <= 1.
Proof.
  intros st o dx dy dw dh sx sy sw sh e st' Ho H.
  destruct (WarpRegion_tally 1 0 o _ _ _ _ _ _ _ _ _ _ _ Ho H) as [S1 K1].
  destruct (WarpRegion_tally 0 1 o _ _ _ _ _ _ _ _ _ _ _ Ho H) as [S2 _].
  unfold kernel_runs, band_writes. split.
  - intros E. rewrite (S1 E), (S2 E). lia.
  - destruct (K1 eq_refl) as [-> | ->]; lia.
Qed.

Lemma tally_harmless a b l : Forall harmless l -> weigh (tally a b) l = 0.
Proof.
  intros H. apply weigh_neutral. revert H. apply Forall_impl.
  intros e He. destruct e; try reflexivity; elim He.
Qed.

Lemma WarpRegion_completed o dx dy dw dh sx sy sw sh st e st' :
  psOptions st = Some o ->
  WarpRegion dx dy dw dh sx sy sw sh st = Some (e, st') ->
  exists evs,
    st' = add_calls st evs
    /\ (region_record (dx, dy, dw, dh) (sx, sy, sw, sh) e evs
        /\ (e = CE_None ->
            kernel_runs evs = 1
            /\ band_writes evs = Z.max 0 (nBandCount o))).
Proof.
  intros Ho H.
  destruct (WarpRegion_tally 1 0 o _ _ _ _ _ _ _ _ _ _ _ Ho H) as [S1 _].
  destruct (WarpRegion_tally 0 1 o _ _ _ _ _ _ _ _ _ _ _ Ho H) as [S2 _].
  destruct (WarpRegion_record _ _ _ _ _ _ _ _ _ _ _ H) as [evs [-> R]].
  rewrite new_calls_add in S1, S2.
  exists evs. split; [reflexivity|]. split; [exact R|].
  intros E. unfold kernel_runs, band_writes. rewrite (S1 E), (S2 E). lia.
Qed.

Lemma leaf_chunks_harmless l : Forall harmless l -> leaf_chunks l = [].
Proof. intros H. now apply leaf_chunks_none, harmless_not_WarpRegion. Qed.

(** X22: in a run of ChunkAndWarpImage that returns CE_None every chunk
    handed to WarpRegion has been warped and written back: the kernel ran
    once per chunk and the destination bands were written nBandCount times
    per chunk. *)
Theorem ChunkAndWarpImage_success_complete :
  forall st o dx dy dw dh st',
    psOptions st = Some o ->
    ChunkAndWarpImage dx dy dw dh st = Some (CE_None, st') ->
    let chunks := Z.of_nat (List.length (leaf_chunks (new_calls st st'))) in
    kernel_runs (new_calls st st') = chunks
    /\ band_writes (new_calls st st') = Z.max 0 (nBandCount o) * chunks.
Proof.
  intros st o dx dy dw dh st' Ho H.
  cut (exists evs,
          st' = add_calls st evs
          /\ (CE_None = CE_None ->
              kernel_runs evs = Z.of_nat (List.length (leaf_chunks evs))
              /\ band_writes evs
                 = Z.max 0 (nBandCount o)
                   * Z.of_nat (List.length (leaf_chunks evs)))).
  { intros [evs [-> F]]. cbv zeta. rewrite new_calls_add. now apply F. }
  apply (ChunkAndWarpImage_runs o
           (fun r w e evs =>
              region_record r w e evs
              /\ (e = CE_None ->
                  kernel_runs evs = 1
                  /\ band_writes evs = Z.max 0 (nBandCount o)))
           (fun _ _ _ _ _ _ _ _ _ _ _ =>
              WarpRegion_completed o _ _ _ _ _ _ _ _ _ _ _)
           (fun _ e evs =>
              e = CE_None ->
              kernel_runs evs = Z.of_nat (List.length (leaf_chunks evs))
              /\ band_writes evs
                 = Z.max 0 (nBandCount o)
                   * Z.of_nat (List.length (leaf_chunks evs))))
    with (n := recursion_depth dw dh)
         (dx := dx) (dy := dy) (dw := dw) (dh := dh);
    try assumption; try lia.
  - intros r e ev0 _ Ne E. now elim Ne.
  - intros x y w h sx sy sw sh e ev0 evs _ F0 [[evs' [-> F]] C] E.
    destruct (C E) as [C1 C2]. unfold kernel_runs, band_writes in *.
    rewrite !weigh_app, !(tally_harmless _ _ _ F0), C1, C2.
    rewrite leaf_chunks_app, (leaf_chunks_harmless _ F0).
    cbn [app leaf_chunks]. rewrite (leaf_chunks_none _ F).
    cbn [List.length]. lia.
  - intros x y w h e ev0 evs1 _ Ne _ E. now elim Ne.
  - intros x y w h e ev0 evs1 evs2 F0 I1 I2 E.
    destruct (I1 eq_refl) as [A1 B1]. destruct (I2 E) as [A2 B2].
    unfold kernel_runs, band_writes in *.
    rewrite !weigh_app, !(tally_harmless _ _ _ F0), A1, A2, B1, B2.
    rewrite leaf_chunks_app, (leaf_chunks_harmless _ F0), leaf_chunks_app.
    cbn [app]. rewrite length_app. lia.
Qed.

End Completion.

Lemma WarpRegion_success_complete_witness :
  let st := Example.tight_budget Example.identity in
  let r := @WarpRegion Example.plain 0 0 2 2 1 1 3 3 st in
  (Example.status r CE_Failure = CE_None ->
   kernel_runs (new_calls st (Example.final r st)) = 1
   /\ band_writes (new_calls st (Example.final r st))
      = Z.max 0 (nBandCount (Scenario.options_10 Example.identity)))
  /\ 0 <= kernel_runs (new_calls st (Example.final r st)) <= 1.
Proof.
  intros st r.
  apply (@WarpRegion_success_complete Example.plain st
           (Scenario.options_10 Example.identity) 0 0 2 2 1 1 3 3
           (Example.status r CE_Failure) (Example.final r st)).
  - reflexivity.
  - vm_compute. reflexivity.
Defined.

Lemma ChunkAndWarpImage_success_complete_witness :
  let st := Example.tight_budget Example.identity in
  let r := @ChunkAndWarpImage Example.plain 0 0 10 10 st in
  let chunks :=
    Z.of_nat (List.length
                (leaf_chunks (new_calls st (Example.final r st)))) in
  kernel_runs (new_calls st (Example.final r st)) = chunks
  /\ band_writes (new_calls st (Example.final r st))
     = Z.max 0 (nBandCount (Scenario.options_10 Example.identity)) * chunks.
Proof.
  intros st r.
  apply (@ChunkAndWarpImage_success_complete Example.plain st
           (Scenario.options_10 Example.identity) 0 0 10 10
           (Example.final r st)).
  - reflexivity.
  - vm_compute. reflexivity.
Defined.
